(** * Virtuals Launch Watcher: monitoring core

    A shallow embedding of the monitoring core of the launch watcher
    (tax tracker, buyback tracker, whale-trade detector, catalog client,
    API surface, the buyback step and the tax refresh of the state machine,
    the retry helper, the calls through the RPC pool, the discovery of the
    project and the notifier's queue), followed by the properties
    established for it.

    Conventions.
    - [bigint] values are [Z] (both are unbounded).
    - Block numbers and [Date.now()] readings are JS numbers holding
      integers far below 2^53; they are [Z] too.
    - [Date.now()] and every RPC/HTTP answer are inputs of the function
      that reads them.
    - An [async] method that may throw returns a sum: the new object state
      together with either the value or the error. *)

From Stdlib Require Import ZArith List String Ascii Bool Lia QArith DecimalString.
From Stdlib Require Import Sorting.Sorted Sorting.Permutation.
From Stdlib Require Floats.SpecFloat.
From Equations Require Import Equations.
Import ListNotations.

Open Scope string_scope.
Open Scope list_scope.
Open Scope Z_scope.

(* ===================================================================== *)
(** * Part I: the model                                                   *)
(* ===================================================================== *)

(** ** JavaScript helpers *)

Module Js.

(** [String.prototype.toLowerCase] on the ASCII range (addresses and
    hashes are hexadecimal ASCII). *)
Definition lowerAscii (c : ascii) : ascii :=
  let n := nat_of_ascii c in
  if ((65 <=? n) && (n <=? 90))%nat then ascii_of_nat (n + 32) else c.

Fixpoint toLowerCase (s : string) : string :=
  match s with
  | EmptyString => EmptyString
  | String c r => String (lowerAscii c) (toLowerCase r)
  end.

(** The result of awaiting a promise: a value, or a thrown error. *)
Inductive result (A : Type) : Type :=
| Ok (a : A)
| Throw (msg : string).
Arguments Ok {A} a.
Arguments Throw {A} msg.

(** The rejection of [Promise.all(promises)]: that of the promise that is
    rejected first in time, if any is.  [settled] lists the promises, by
    their position in the array, in the order in which they settle; the
    promises it leaves out settle after these, in the order of the array. *)
Fixpoint firstRejected {A} (promises : list (result A)) (order : list nat)
  : option string :=
  match order with
  | [] => None
  | i :: r =>
      match nth_error promises i with
      | Some (Throw e) => Some e
      | _ => firstRejected promises r
      end
  end.

Definition firstRejection {A} (settled : list nat) (promises : list (result A))
  : option string :=
  firstRejected promises (settled ++ seq 0 (List.length promises)).

(** A JS [Map]: insertion-ordered, at most one entry per key. *)
Section JsMap.
Context {K V : Type} (keq : K -> K -> bool).

Definition Map := list (K * V).

Definition has (k : K) (m : Map) : bool :=
  existsb (fun e => keq (fst e) k) m.

Definition delete (k : K) (m : Map) : Map :=
  filter (fun e => negb (keq (fst e) k)) m.

(** [Map.set]: an existing key keeps its position and takes the new
    value; a new key goes last. *)
Fixpoint set (k : K) (v : V) (m : Map) : Map :=
  match m with
  | [] => [(k, v)]
  | e :: r => if keq (fst e) k then (k, v) :: r else e :: set k v r
  end.

Definition get (k : K) (m : Map) : option V :=
  option_map snd (find (fun e => keq (fst e) k) m).

Definition keys (m : Map) : list K := List.map fst m.
Definition values (m : Map) : list V := List.map snd m.
Definition size (m : Map) : nat := List.length m.
End JsMap.

End Js.

(** ** utils/lru-cache.ts *)

Module LRUCache.
Section Cache.
Context {K V : Type} (keq : K -> K -> bool).

Record t := mk { maxSize : nat; cache : @Js.Map K V }.

Definition new (maxSize : nat) : t := mk maxSize [].

(** [get] moves a key that is present to the newest position. *)
Definition get (k : K) (c : t) : t * option V :=
  match Js.get keq k (cache c) with
  | Some value =>
      (mk (maxSize c) (Js.set keq k value (Js.delete keq k (cache c))),
       Some value)
  | None => (c, None)
  end.

Definition has (k : K) (c : t) : bool := Js.has keq k (cache c).

Definition set (k : K) (v : V) (c : t) : t :=
  let m :=
    if Js.has keq k (cache c) then Js.delete keq k (cache c)
    else if (maxSize c <=? Js.size (cache c))%nat then
      match Js.keys (cache c) with
      | firstKey :: _ => Js.delete keq firstKey (cache c)
      | [] => cache c
      end
    else cache c in
  mk (maxSize c) (Js.set keq k v m).

Definition clear (c : t) : t := mk (maxSize c) [].
Definition size (c : t) : nat := Js.size (cache c).
End Cache.
Arguments t : clear implicits.
End LRUCache.

(** ** monitors/whale-trades.ts *)

Module WhaleTrades.

Inductive Direction := BUY | SELL.
Inductive PoolType := uniswap_v2 | virtuals_curve.

Record WhaleTradeInfo := mkTrade {
  direction : Direction;
  amountVirtual : Z;
  amountToken : Z;
  trader : string;
  txHash : string;
  blockNumber : Z;
  timestamp : Z
}.

(** The fields of the monitor the handlers read or write.  [onWhaleTrade]
    records whether a callback is registered. *)
Record t := mk {
  threshold : Z;
  poolAddress : string;
  poolType : PoolType;
  virtualIsToken0 : bool;
  lruCache : LRUCache.t string bool;
  onWhaleTrade : bool
}.

Definition withCache (w : t) (c : LRUCache.t string bool) : t :=
  mk (threshold w) (poolAddress w) (poolType w) (virtualIsToken0 w) c
     (onWhaleTrade w).

(** The constructor: a fresh cache of capacity 1000. *)
Definition new (threshold : Z) (poolAddress : string) (poolType : PoolType) : t :=
  mk threshold poolAddress poolType false (LRUCache.new 1000) false.

(** [start] up to the subscription: registers the callback; in AMM mode
    [token0IsVirtual] is the outcome of comparing [pair.token0()] with the
    base token. *)
Definition start (token0IsVirtual : bool) (w : t) : t :=
  mk (threshold w) (poolAddress w) (poolType w)
     (match poolType w with uniswap_v2 => token0IsVirtual | virtuals_curve => virtualIsToken0 w end)
     (lruCache w) true.

(** [stop] empties the cache; the state machine then drops the monitor. *)
Definition stop (w : t) : t := withCache w (LRUCache.clear (lruCache w)).

Definition deltaVirtual (w : t) (amount0In amount1In amount0Out amount1Out : Z) : Z :=
  if virtualIsToken0 w then amount0In - amount0Out else amount1In - amount1Out.

Definition deltaToken (w : t) (amount0In amount1In amount0Out amount1Out : Z) : Z :=
  if virtualIsToken0 w then amount1Out - amount1In else amount0Out - amount0In.

(** [handleSwap]; the second component is the trade handed to the
    callback, if any. *)
Definition handleSwap (w : t) (sender : string)
    (amount0In amount1In amount0Out amount1Out : Z)
    (txHash : string) (blockNumber : Z) (now : Z) : t * option WhaleTradeInfo :=
  if LRUCache.has String.eqb txHash (lruCache w) then (w, None)
  else
    let dV := deltaVirtual w amount0In amount1In amount0Out amount1Out in
    let dT := deltaToken w amount0In amount1In amount0Out amount1Out in
    let absVirtual := if dV <? 0 then - dV else dV in
    if absVirtual <? threshold w then (w, None)
    else
      let w' := withCache w (LRUCache.set String.eqb txHash true (lruCache w)) in
      let trade :=
        mkTrade (if 0 <? dV then SELL else BUY) absVirtual
                (if dT <? 0 then - dT else dT) sender txHash blockNumber now in
      (w', if onWhaleTrade w then Some trade else None).

(** [handleTransfer] (curve mode). *)
Definition handleTransfer (w : t) (from to : string) (value : Z)
    (txHash : string) (blockNumber : Z) (now : Z) : t * option WhaleTradeInfo :=
  let poolAddr := Js.toLowerCase (poolAddress w) in
  if negb (String.eqb (Js.toLowerCase from) poolAddr)
     && negb (String.eqb (Js.toLowerCase to) poolAddr) then (w, None)
  else if LRUCache.has String.eqb txHash (lruCache w) then (w, None)
  else if value <? threshold w then (w, None)
  else
    let w' := withCache w (LRUCache.set String.eqb txHash true (lruCache w)) in
    let isBuy := String.eqb (Js.toLowerCase from) poolAddr in
    let trade :=
      mkTrade (if isBuy then BUY else SELL) value 0
              (if isBuy then to else from) txHash blockNumber now in
    (w', if onWhaleTrade w then Some trade else None).

(** The events a subscription delivers, with the clock reading taken
    while handling them.  A monitor subscribes to one kind only (Swap in
    AMM mode, Transfer in curve mode); the handlers themselves do not look
    at the mode, and streams here may mix both. *)
Inductive Event :=
| Swap (sender : string) (amount0In amount1In amount0Out amount1Out : Z)
       (txHash : string) (blockNumber : Z) (now : Z)
| Transfer (from to : string) (value : Z)
           (txHash : string) (blockNumber : Z) (now : Z).

Definition eventHash (e : Event) : string :=
  match e with
  | Swap _ _ _ _ _ h _ _ => h
  | Transfer _ _ _ h _ _ => h
  end.

Definition handle (w : t) (e : Event) : t * option WhaleTradeInfo :=
  match e with
  | Swap s a0i a1i a0o a1o h b n => handleSwap w s a0i a1i a0o a1o h b n
  | Transfer f t v h b n => handleTransfer w f t v h b n
  end.

(** A monitor fed a stream of events: final state and the trades handed
    to the callback, oldest first. *)
Fixpoint run (w : t) (evs : list Event) : t * list WhaleTradeInfo :=
  match evs with
  | [] => (w, [])
  | e :: r =>
      let '(w1, o) := handle w e in
      let '(w2, out) := run w1 r in
      (w2, match o with Some tr => tr :: out | None => out end)
  end.

End WhaleTrades.

(** ** providers/rpc-pool.ts (HTTP side) *)

Module RpcPool.

(** Providers are identified by their index in [httpProviders]. *)
Record t := mk { httpCount : nat; currentHttpIndex : nat }.

Definition getHttpProvider (p : t) : nat := currentHttpIndex p.

Definition rotateHttp (p : t) : t :=
  mk (httpCount p) ((currentHttpIndex p + 1) mod httpCount p)%nat.

End RpcPool.

(** ** utils/time-to-block.ts *)

Module TimeToBlock.
Import Js.

Record Block := mkBlock { number : Z; timestamp : Z }.

Definition AVERAGE_BLOCK_TIME_MS : Z := 2000.

Section Provider.
(** [provider.getBlock(n)]: throws, answers [null], or a block. *)
Variable getBlock : Z -> result (option Block).
Variable targetTime : Z.

(** The binary-search loop [while (lo < hi)]. *)
Equations? search (lo hi : Z) : result Z by wf (Z.to_nat (hi - lo)) lt :=
  search lo hi with Z_lt_dec lo hi := {
    | right _ => Ok lo
    | left _ with getBlock ((lo + hi) / 2) := {
        | Throw e => Throw e
        | Ok None => Ok lo
        | Ok (Some block) with Z_lt_dec (timestamp block * 1000) targetTime := {
            | left _ => search ((lo + hi) / 2 + 1) hi
            | right _ => search lo ((lo + hi) / 2) } } }.
Proof.
  all: assert (lo <= (lo + hi) / 2 < hi)
    by (split; [apply Z.div_le_lower_bound | apply Z.div_lt_upper_bound]; lia);
    lia.
Qed.

(** [timeToBlock(provider, timestamp)]; [getLatest] is
    [provider.getBlock('latest')]. *)
Definition timeToBlock (getLatest : result (option Block)) : result Z :=
  match getLatest with
  | Throw e => Throw e
  | Ok None => Throw "Failed to get latest block"
  | Ok (Some latestBlock) =>
      let latestTime := timestamp latestBlock * 1000 in
      if latestTime <=? targetTime then Ok (number latestBlock)
      else
        let blockDiff := (latestTime - targetTime) / AVERAGE_BLOCK_TIME_MS in
        let targetBlockNum := Z.max 0 (number latestBlock - blockDiff) in
        let lo := Z.max 0 (targetBlockNum - 500) in
        let hi := Z.min (number latestBlock) (targetBlockNum + 500) in
        search lo hi
  end.
End Provider.

End TimeToBlock.

(** ** monitors/tax-tracker.ts *)

Module TaxTracker.
Import Js.

Record TaxResult := mkResult {
  inflow : Z;
  outflow : Z;
  netInflow : Z;
  balanceDiff : Z;
  delta : Z
}.

(** The arguments of a decoded Transfer log. *)
Record TransferArgs := mkArgs { from : string; to : string; value : Z }.

(** An entry returned by [queryFilter]: [None] is a log without [args]. *)
Definition Log := option TransferArgs.

Record t := mk {
  virtualToken : nat;          (* provider the contract handle is bound to *)
  buybackAddr : string;
  blockStart : Z;
  lastProcessedBlock : Z;
  startBalance : Z;
  accumulated : TaxResult
}.

(** The constructor; [addr] is [config.addresses.buybackAddr]. *)
Definition new (pool : RpcPool.t) (addr : string) : t :=
  mk (RpcPool.getHttpProvider pool) (toLowerCase addr) 0 0 0
     (mkResult 0 0 0 0 0).

(** What the chain answers during one [init]. *)
Record InitEnv := mkInitEnv {
  getLatest : result (option TimeToBlock.Block);
  getBlock : Z -> result (option TimeToBlock.Block);
  (* balanceOf(buybackAddr, {blockTag}) : first call and the retry *)
  balanceOfAt : nat -> Z -> result Z
}.

Definition init (env : InitEnv) (t0 : Z) (tr : t) : t * result unit :=
  match TimeToBlock.timeToBlock (getBlock env) t0 (getLatest env) with
  | Throw e => (tr, Throw e)
  | Ok b =>
      let bal :=
        match balanceOfAt env 0%nat b with
        | Ok v => v
        | Throw _ =>
            match balanceOfAt env 1%nat b with
            | Ok v => v
            | Throw _ => 0
            end
        end in
      (mk (virtualToken tr) (buybackAddr tr) b b bal (accumulated tr), Ok tt)
  end.

(** What the endpoints answer during one [update]; the first argument is
    the provider asked. *)
Record UpdateEnv := mkEnv {
  getBlockNumber : nat -> result Z;
  queryFilter : nat -> Z -> Z -> result (list Log);
  balanceOf : nat -> result Z
}.

(** The body of [for (const log of logs)]: one log against the running
    [(inflowDelta, outflowDelta)]. *)
Definition scanLog (addr : string) (acc : Z * Z) (log : Log) : Z * Z :=
  match log with
  | None => acc
  | Some a =>
      let i := if String.eqb (toLowerCase (to a)) addr
               then fst acc + value a else fst acc in
      let o := if String.eqb (toLowerCase (from a)) addr
               then snd acc + value a else snd acc in
      (i, o)
  end.

Definition scanLogs (addr : string) (logs : list Log) : Z * Z :=
  fold_left (scanLog addr) logs (0, 0).

Definition maxBlockRange : Z := 2000.

Definition withAccumulated (tr : t) (a : TaxResult) : t :=
  mk (virtualToken tr) (buybackAddr tr) (blockStart tr)
     (lastProcessedBlock tr) (startBalance tr) a.

(** The [catch] block: rotate, rebind, rethrow. *)
Definition onError {A} (e : string) (pool : RpcPool.t) (tr : t)
  : RpcPool.t * t * result A :=
  let pool' := RpcPool.rotateHttp pool in
  (pool',
   mk (RpcPool.getHttpProvider pool') (buybackAddr tr) (blockStart tr)
      (lastProcessedBlock tr) (startBalance tr) (accumulated tr),
   Throw e).

Definition update (env : UpdateEnv) (pool : RpcPool.t) (tr : t)
  : RpcPool.t * t * result TaxResult :=
  let provider := RpcPool.getHttpProvider pool in
  match getBlockNumber env provider with
  | Throw e => onError e pool tr
  | Ok latestBlock =>
      if latestBlock <=? lastProcessedBlock tr then (pool, tr, Ok (accumulated tr))
      else
        let toBlock := Z.min latestBlock (lastProcessedBlock tr + maxBlockRange) in
        match queryFilter env (virtualToken tr) (lastProcessedBlock tr + 1) toBlock with
        | Throw e => onError e pool tr
        | Ok logs =>
            let '(inflowDelta, outflowDelta) := scanLogs (buybackAddr tr) logs in
            let acc := accumulated tr in
            let inflow' := inflow acc + inflowDelta in
            let outflow' := outflow acc + outflowDelta in
            let acc1 := mkResult inflow' outflow' (inflow' - outflow')
                                 (balanceDiff acc) (delta acc) in
            let tr1 := withAccumulated tr acc1 in
            match balanceOf env (virtualToken tr) with
            | Throw e => onError e pool tr1
            | Ok currentBalance =>
                let bd := currentBalance - startBalance tr in
                let acc2 := mkResult inflow' outflow' (inflow' - outflow')
                                     bd (bd - (inflow' - outflow')) in
                (pool,
                 mk (virtualToken tr) (buybackAddr tr) (blockStart tr)
                    toBlock (startBalance tr) acc2,
                 Ok acc2)
            end
        end
  end.

Definition getTaxTotal (tr : t) : Z := netInflow (accumulated tr).

(** Successive [update] calls, one environment per call; the trajectory
    lists the state after each call together with its outcome. *)
Fixpoint updates (envs : list UpdateEnv) (pool : RpcPool.t) (tr : t)
  : list (RpcPool.t * t * result TaxResult) :=
  match envs with
  | [] => []
  | env :: r =>
      let '(pool', tr', res) := update env pool tr in
      (pool', tr', res) :: updates r pool' tr'
  end.

(** The tracker after the last of these calls. *)
Fixpoint finalState (envs : list UpdateEnv) (pool : RpcPool.t) (tr : t) : t :=
  match envs with
  | [] => tr
  | env :: r =>
      let '(pool', tr', _) := update env pool tr in
      finalState r pool' tr'
  end.

Definition isOk {A} (r : result A) : bool :=
  match r with Ok _ => true | Throw _ => false end.

(** *** The ledger

    Blocks never change once produced (no reorganisation), so the logs of
    the base token are a function of the block number. *)
Definition Ledger := Z -> list Log.

Fixpoint blocksFrom (b : Z) (n : nat) : list Z :=
  match n with
  | O => []
  | S k => b :: blocksFrom (b + 1) k
  end.

(** The logs of blocks [fromBlock .. toBlock], both included. *)
Definition logsInRange (ledger : Ledger) (fromBlock toBlock : Z) : list Log :=
  flat_map ledger (blocksFrom fromBlock (Z.to_nat (toBlock - fromBlock + 1))).

(** The spec's sums over a list of logs. *)
Definition isTo (addr : string) (a : TransferArgs) : bool :=
  String.eqb (toLowerCase (to a)) addr.
Definition isFrom (addr : string) (a : TransferArgs) : bool :=
  String.eqb (toLowerCase (from a)) addr.

Fixpoint inflowOf (addr : string) (logs : list Log) : Z :=
  match logs with
  | [] => 0
  | Some a :: r => (if isTo addr a then value a else 0) + inflowOf addr r
  | None :: r => inflowOf addr r
  end.

Fixpoint outflowOf (addr : string) (logs : list Log) : Z :=
  match logs with
  | [] => 0
  | Some a :: r => (if isFrom addr a then value a else 0) + outflowOf addr r
  | None :: r => outflowOf addr r
  end.

(** The signed contribution of one log to the net inflow. *)
Definition signedValue (addr : string) (log : Log) : Z :=
  match log with
  | None => 0
  | Some a => (if isTo addr a then value a else 0)
              - (if isFrom addr a then value a else 0)
  end.

Fixpoint signedSum (addr : string) (logs : list Log) : Z :=
  match logs with
  | [] => 0
  | l :: r => signedValue addr l + signedSum addr r
  end.

End TaxTracker.

(** ** JS numbers

    The display quantities of the buyback status are JS numbers, that is
    IEEE 754 binary64 values.  They are the floats of the standard
    library's specification of floating-point arithmetic at precision 53
    and maximal exponent 1024; every operation rounds to nearest, ties to
    even, as the JS operators do. *)

Module JsNumber.
Import SpecFloat.

Definition prec : Z := 53.
Definition emax : Z := 1024.

Definition number : Type := spec_float.

Definition PosInf : number := S754_infinity false.

(** [Number(z)] for a bigint [z], and the numbers that hold an integer:
    the double nearest to [z]. *)
Definition ofZ (z : Z) : number := binary_normalize prec emax z 0 false.

(** [a / b] and [a * b] *)
Definition div (a b : number) : number := SFdiv prec emax a b.
Definition mul (a b : number) : number := SFmul prec emax a b.

(** [a > b] *)
Definition gtb (a b : number) : bool := SFltb b a.

(** [Number(ethers.formatEther(x))]: [formatEther] writes [x / 10^18] out
    in full and [Number] takes the double nearest to what it reads. *)
Definition fromEther (x : Z) : number :=
  match x with
  | Z0 => S754_zero false
  | Zpos p =>
      SFdiv prec emax (S754_finite false p 0) (S754_finite false (10 ^ 18) 0)
  | Zneg p =>
      SFdiv prec emax (S754_finite true p 0) (S754_finite false (10 ^ 18) 0)
  end.

(** The value of a number that is neither infinite nor NaN. *)
Definition toQ (x : number) : option Q :=
  match x with
  | S754_zero _ => Some 0%Q
  | S754_finite s m e =>
      let v := (inject_Z (Zpos m) * Qpower 2 e)%Q in
      Some (if s then (- v)%Q else v)
  | _ => None
  end.

End JsNumber.

(** ** monitors/buyback-tracker.ts *)

Module BuybackTracker.
Import JsNumber.

Record SpentRecord := mkSpent { time : Z; amount : Z; txHash : string }.

Record BuybackStatus := mkStatus {
  st_spentTotal : Z;
  spentWindow : Z;
  ratePerHour : number;
  remaining : Z;
  etaHours : number;
  progress : number
}.

(** [rateWindowMinutes] and [stallAlertMinutes] come from the
    configuration, where they are whole minutes.  [onStall] records
    whether a callback is registered. *)
Record t := mk {
  taxTotal : Z;
  rateWindowMinutes : Z;
  stallAlertMinutes : Z;
  spentHistory : list SpentRecord;
  spentTotal : Z;
  lastSpentTime : Z;
  onStall : bool;
  stallAlerted : bool
}.

Definition new (taxTotal rateWindowMinutes stallAlertMinutes : Z) : t :=
  mk taxTotal rateWindowMinutes stallAlertMinutes [] 0 0 false false.

(** [start(onStall?)] up to the subscription. *)
Definition start (hasCallback : bool) (b : t) : t :=
  mk (taxTotal b) (rateWindowMinutes b) (stallAlertMinutes b)
     (spentHistory b) (spentTotal b) (lastSpentTime b) hasCallback
     (stallAlerted b).

Definition recordSpent (b : t) (now : Z) (amount : Z) (txHash : string) : t :=
  let pushed := spentHistory b ++ [mkSpent now amount txHash] in
  let windowStart := now - rateWindowMinutes b * 60 * 1000 in
  mk (taxTotal b) (rateWindowMinutes b) (stallAlertMinutes b)
     (filter (fun h => windowStart <=? time h) pushed)
     (spentTotal b + amount) now (onStall b) false.

Definition getStatus (b : t) (now : Z) : BuybackStatus :=
  let windowStart := now - rateWindowMinutes b * 60 * 1000 in
  let spentWindow :=
    fold_left (fun sum h => sum + amount h)
              (filter (fun h => windowStart <=? time h) (spentHistory b)) 0 in
  let windowSeconds := rateWindowMinutes b * 60 in
  let spentWindowNum := fromEther spentWindow in
  let ratePerHour := mul (div spentWindowNum (ofZ windowSeconds)) (ofZ 3600) in
  let remaining :=
    if spentTotal b <? taxTotal b then taxTotal b - spentTotal b else 0 in
  let remainingNum := fromEther remaining in
  let etaHours :=
    if gtb ratePerHour (ofZ 0) then div remainingNum ratePerHour else PosInf in
  let progress :=
    if 0 <? taxTotal b
    then div (ofZ (Z.quot (spentTotal b * 10000) (taxTotal b))) (ofZ 100)
    else ofZ 0 in
  mkStatus (spentTotal b) spentWindow ratePerHour remaining etaHours progress.

Definition isStalled (b : t) (now : Z) : bool :=
  if taxTotal b <=? spentTotal b then false
  else
    let stallThreshold := stallAlertMinutes b * 60 * 1000 in
    if lastSpentTime b =? 0 then false
    else stallThreshold <? now - lastSpentTime b.

(** [checkStall]; the boolean tells whether [onStall] was called. *)
Definition checkStall (b : t) (now : Z) : t * bool :=
  if isStalled b now && negb (stallAlerted b) && onStall b then
    (mk (taxTotal b) (rateWindowMinutes b) (stallAlertMinutes b)
        (spentHistory b) (spentTotal b) (lastSpentTime b) (onStall b) true,
     true)
  else (b, false).

Definition isComplete (b : t) : bool := taxTotal b <=? spentTotal b.

(** What happens to a running tracker: the subscription records a spend
    of the fee receiver, or the state machine calls [checkStall]. *)
Inductive Event :=
| Spent (now : Z) (amount : Z) (txHash : string)
| Check (now : Z).

Definition isSpent (e : Event) : bool :=
  match e with Spent _ _ _ => true | Check _ => false end.

Definition step (b : t) (e : Event) : t * bool :=
  match e with
  | Spent now a h => (recordSpent b now a h, false)
  | Check now => checkStall b now
  end.

(** Final state and the number of stall callbacks of a run. *)
Fixpoint run (b : t) (evs : list Event) : t * nat :=
  match evs with
  | [] => (b, O)
  | e :: r =>
      let '(b1, fired) := step b e in
      let '(b2, n) := run b1 r in
      (b2, if fired then S n else n)
  end.

(** The states a tracker can be in: constructed, started, then fed
    events; Transfer amounts are [uint256], hence not negative. *)
Inductive reachable (taxTotal0 : Z) : t -> Prop :=
| reach_new rw sa : reachable taxTotal0 (new taxTotal0 rw sa)
| reach_start b cb : reachable taxTotal0 b -> reachable taxTotal0 (start cb b)
| reach_spent b now a h :
    reachable taxTotal0 b -> 0 <= a ->
    reachable taxTotal0 (recordSpent b now a h)
| reach_check b now :
    reachable taxTotal0 b -> reachable taxTotal0 (fst (checkStall b now)).

End BuybackTracker.

(** ** providers/virtuals-api.ts: upcoming launches *)

Module VirtualsApi.
Import Js.

Record VirtualsAgent := mkAgent {
  id : Z;
  symbol : string;
  status : string;
  preTokenPair : option string;
  lpCreatedAt : option string;
  launchedAt : option string
}.

(** A string-or-null value is truthy when it is a non-empty string. *)
Definition truthy (v : option string) : bool :=
  match v with
  | Some s => negb (String.eqb s "")
  | None => false
  end.

(** [upcomingInFlight] is the promise of a fetch under way, held as what
    it settles with. *)
Record t := mk {
  upcomingCache : option (Z * list VirtualsAgent);
  upcomingInFlight : option (result (list VirtualsAgent))
}.

Section DateParse.
(** [Date.parse]; [None] stands for NaN. *)
Variable DateParse : string -> option Z.

Definition parseTimestamp (value : option string) : option Z :=
  if truthy value then
    match value with Some s => DateParse s | None => None end
  else None.

(** [for (const agent of merged) deduped.set(agent.id, agent)] *)
Definition dedupe (merged : list VirtualsAgent) : @Js.Map Z VirtualsAgent :=
  fold_left (fun deduped agent => Js.set Z.eqb (id agent) agent deduped)
            merged [].

Definition launchKey (a : VirtualsAgent) : Z :=
  match parseTimestamp (launchedAt a) with Some ts => ts | None => 0 end.

(** [Array.prototype.sort] is stable; with the comparator [at - bt] it
    is the stable ascending sort on [launchKey]. *)
Fixpoint insertSorted (a : VirtualsAgent) (l : list VirtualsAgent) :=
  match l with
  | [] => [a]
  | b :: r => if launchKey b <=? launchKey a then b :: insertSorted a r
              else a :: b :: r
  end.

Definition sortByLaunch (l : list VirtualsAgent) : list VirtualsAgent :=
  fold_left (fun acc a => insertSorted a acc) l [].

Definition isInitialized (a : VirtualsAgent) : bool :=
  String.eqb (status a) "INITIALIZED"
  && truthy (preTokenPair a) && negb (truthy (lpCreatedAt a)).

Definition tenDaysMs : Z := 10 * 24 * 60 * 60 * 1000.

(** The test of the second filter on an agent, [nowTs] being the clock as
    the filter reads it for that agent. *)
Definition launchesSoon (nowTs : Z) (a : VirtualsAgent) : bool :=
  match parseTimestamp (launchedAt a) with
  | None => false
  | Some launchTs => (nowTs <=? launchTs) && (launchTs <=? nowTs + tenDaysMs)
  end.

(** The second filter: it reads the clock anew for every agent it
    examines; [clock j] is the reading for the agent in place [j] of the
    list it runs over. *)
Fixpoint filterSoon (clock : nat -> Z) (j : nat) (l : list VirtualsAgent)
  : list VirtualsAgent :=
  match l with
  | [] => []
  | a :: r =>
      if launchesSoon (clock j) a then a :: filterSoon clock (Datatypes.S j) r
      else filterSoon clock (Datatypes.S j) r
  end.

Definition computeUpcoming (clock : nat -> Z)
    (vibes unicorn unicornV2 : list VirtualsAgent) : list VirtualsAgent :=
  let merged := vibes ++ unicorn ++ unicornV2 in
  let deduped := dedupe merged in
  sortByLaunch
    (filterSoon clock 0 (filter isInitialized (Js.values deduped))).

Definition cacheTtlMs : Z := 30000.

(** [Promise.all] of the three fetches. *)
Definition fetchAll (settled : list nat)
    (vibes unicorn unicornV2 : result (list VirtualsAgent))
  : result (list VirtualsAgent * list VirtualsAgent * list VirtualsAgent) :=
  match vibes, unicorn, unicornV2 with
  | Ok v, Ok u, Ok u2 => Ok (v, u, u2)
  | _, _, _ =>
      Throw (match firstRejection settled [vibes; unicorn; unicornV2] with
             | Some e => e
             | None => ""
             end)
  end.

(** The client as the calls made while a fetch is under way find it;
    [outcome] is what the fetch will settle with. *)
Definition duringFetch (api : t) (outcome : result (list VirtualsAgent)) : t :=
  mk (upcomingCache api) (Some outcome).

(** [getUpcomingLaunches], from the call to the settling of the promise
    it returns.  [now] is the clock at the call, [clock] the readings of
    the second filter, [doneTs] the reading stored with the result; the
    three lists are what [getAllProjectsByFactory] resolves to for
    VIBES_BONDING_V2, BONDING_V4 and BONDING_V2, and [settled] the order
    in which these three promises settle.  A call that finds a fetch under
    way returns the promise of that fetch and changes nothing; no other
    call changes the client while a fetch is under way. *)
Definition getUpcomingLaunches (api : t) (now : Z) (clock : nat -> Z)
    (doneTs : Z) (settled : list nat)
    (vibes unicorn unicornV2 : result (list VirtualsAgent))
  : t * result (list VirtualsAgent) :=
  let cached :=
    match upcomingCache api with
    | Some (ts, data) => if now - ts <? cacheTtlMs then Some data else None
    | None => None
    end in
  match cached with
  | Some data => (api, Ok data)
  | None =>
      match upcomingInFlight api with
      | Some pending => (api, pending)
      | None =>
          match fetchAll settled vibes unicorn unicornV2 with
          | Ok (v, u, u2) =>
              let r := computeUpcoming clock v u u2 in
              (mk (Some (doneTs, r)) None, Ok r)
          | Throw e => (mk (upcomingCache api) None, Throw e)
          end
      end
  end.
End DateParse.

End VirtualsApi.

(** ** providers/api-server.ts: the trade ring *)

Module ApiServer.

Inductive ApiEventType :=
| state_change | whale_trade | tax_update | buyback_update
| project_start | project_complete | error.

(** The [data] of a [whale_trade] broadcast. *)
Record TradeData := mkData {
  d_direction : WhaleTrades.Direction;
  d_amountVirtual : Z;
  d_trader : string;
  d_txHash : string;
  d_blockNumber : Z
}.

Record ApiEvent := mkEvent {
  type : ApiEventType;
  timestamp : Z;
  data : option TradeData
}.

Record t := mk {
  eventHistory : list ApiEvent;
  tradeHistory : list WhaleTrades.WhaleTradeInfo
}.

Definition maxHistory : nat := 100.

(** [unshift] followed by [if (length > maxHistory) pop()]. *)
Definition pushBounded {A} (x : A) (l : list A) : list A :=
  let l' := x :: l in
  if (maxHistory <? List.length l')%nat then removelast l' else l'.

(** [broadcast] as far as the server's own state goes: the event enters
    the history; the sends to the connected sockets leave no trace in it. *)
Definition broadcast (s : t) (event : ApiEvent) : t :=
  mk (pushBounded event (eventHistory s)) (tradeHistory s).

Definition recordTrade (s : t) (now : Z) (trade : WhaleTrades.WhaleTradeInfo) : t :=
  let s1 := mk (eventHistory s) (pushBounded trade (tradeHistory s)) in
  broadcast s1
    (mkEvent whale_trade now
       (Some (mkData (WhaleTrades.direction trade)
                     (WhaleTrades.amountVirtual trade)
                     (WhaleTrades.trader trade)
                     (WhaleTrades.txHash trade)
                     (WhaleTrades.blockNumber trade)))).

End ApiServer.

(** ** state-machine.ts: the buyback phase *)

Module StateMachine.
Import Js.

Inductive State := DISCOVER | WAIT_T0 | LAUNCH_WINDOW | BUYBACK_PHASE | DONE.

(** The fields of the context the buyback handler touches; the selected
    project is represented by its agent id. *)
Record Context := mkCtx {
  state : State;
  project : option Z;
  taxTotal : Z;
  lastBuybackUpdate : option Z
}.

Record t := mk {
  context : Context;
  buybackTracker : option BuybackTracker.t;
  lastProjectStatusCheck : option Z
}.

(** The catalog's answer for the project, as far as graduation goes. *)
Record Fresh := mkFresh { f_status : string; f_lpAddress : option string }.

(** Everything one call of [handleBuybackPhase] reads from outside: the
    thresholds of the configuration, the outcome of the awaited calls and
    the clock readings in program order. *)
Record Env := mkEnv {
  buybackRateWindowMinutes : Z;
  stallAlertMinutes : Z;
  wsConnect : result unit;
  now : Z;
  checkedAt : Z;
  getProjectById : result (option Fresh);
  updatedAt : Z;
  sendBuybackStatus : result unit;
  stallAt : Z
}.

Definition transition (s : t) (newState : State) : t :=
  mk (mkCtx newState (project (context s)) (taxTotal (context s))
            (lastBuybackUpdate (context s)))
     (buybackTracker s) (lastProjectStatusCheck s).

Definition due (last : option Z) (now interval : Z) : bool :=
  match last with
  | None => true
  | Some l => interval <=? now - l
  end.

Definition graduated (f : Fresh) : bool :=
  String.eqb (f_status f) "AVAILABLE" || VirtualsApi.truthy (f_lpAddress f).

(** The periodic status publication and the stall check.  The status
    handed to the notifier and to the API surface is [getStatus] of the
    tracker; nothing in the machine depends on it. *)
Definition publish (env : Env) (s : t) (b : BuybackTracker.t) : t * result unit :=
  if due (lastBuybackUpdate (context s)) (now env) (10 * 60 * 1000) then
    let ctx := mkCtx (state (context s)) (project (context s))
                     (taxTotal (context s)) (Some (updatedAt env)) in
    match sendBuybackStatus env with
    | Throw e => (mk ctx (Some b) (lastProjectStatusCheck s), Throw e)
    | Ok _ =>
        (mk ctx (Some (fst (BuybackTracker.checkStall b (stallAt env))))
            (lastProjectStatusCheck s), Ok tt)
    end
  else (s, Ok tt).

(** The part of the handler after the completion check. *)
Definition supervise (env : Env) (s : t) (b : BuybackTracker.t) : t * result unit :=
  if due (lastProjectStatusCheck s) (now env) (60 * 1000) then
    let s1 := mk (context s) (buybackTracker s) (Some (checkedAt env)) in
    match getProjectById env with
    | Ok (Some fresh) =>
        if graduated fresh then (transition s1 DONE, Ok tt)
        else publish env s1 b
    | _ => publish env s1 b
    end
  else publish env s b.

Definition handleBuybackPhase (env : Env) (s : t) : t * result unit :=
  match project (context s) with
  | None => (transition s DISCOVER, Ok tt)
  | Some _ =>
      let started :=
        match buybackTracker s with
        | Some b => (s, Ok b)
        | None =>
            let b := BuybackTracker.start true
                       (BuybackTracker.new (taxTotal (context s))
                          (buybackRateWindowMinutes env) (stallAlertMinutes env)) in
            let s1 := mk (context s) (Some b) (lastProjectStatusCheck s) in
            match wsConnect env with
            | Throw e => (s1, Throw e)
            | Ok _ => (s1, Ok b)
            end
        end in
      match started with
      | (s1, Throw e) => (s1, Throw e)
      | (s1, Ok b) =>
          if BuybackTracker.isComplete b then (transition s1 DONE, Ok tt)
          else supervise env s1 b
      end
  end.

End StateMachine.

(** ** state-machine.ts: the tax refresh of the launch window *)

Module LaunchWindow.
Import Js.

(** What the chain answers during one refresh: the handler's own
    [provider.getBlockNumber()] calls (the provider is taken from the pool
    once, before the loop) and the environments of the tracker's [update]
    calls, both in program order. *)
Record TickEnv := mkTick {
  latestAt : nat -> result Z;
  updateAt : nat -> TaxTracker.UpdateEnv
}.

Definition maxCatchUpRounds : nat := 10.

(** The outcome of the refresh so far, with the number of [update] calls
    made. *)
Definition Progress : Type := RpcPool.t * TaxTracker.t * result unit * nat.

(** [while (latestBlock - progress.currentBlock > 2000 && rounds <
    maxCatchUpRounds)]; [roundsLeft] is [maxCatchUpRounds - rounds] and [k]
    counts the calls made so far. *)
Fixpoint catchUp (roundsLeft : nat) (k : nat) (env : TickEnv)
    (pool : RpcPool.t) (tr : TaxTracker.t) (latestBlock : Z) : Progress :=
  match roundsLeft with
  | O => (pool, tr, Ok tt, k)
  | S r =>
      if 2000 <? latestBlock - TaxTracker.lastProcessedBlock tr then
        match TaxTracker.update (updateAt env k) pool tr with
        | (pool', tr', Throw e) => (pool', tr', Throw e, S k)
        | (pool', tr', Ok _) =>
            match latestAt env (S k) with
            | Throw e => (pool', tr', Throw e, S k)
            | Ok latest' => catchUp r (S k) env pool' tr' latest'
            end
        end
      else (pool, tr, Ok tt, k)
  end.

(** The refresh up to and including [const result = await
    this.taxTracker.update()]. *)
Definition refreshTax (env : TickEnv) (pool : RpcPool.t) (tr : TaxTracker.t)
  : RpcPool.t * TaxTracker.t * result TaxTracker.TaxResult * nat :=
  match latestAt env 0%nat with
  | Throw e => (pool, tr, Throw e, 0%nat)
  | Ok latestBlock =>
      match catchUp maxCatchUpRounds 0 env pool tr latestBlock with
      | (pool', tr', Throw e, k) => (pool', tr', Throw e, k)
      | (pool', tr', Ok _, k) =>
          let '(pool'', tr'', res) :=
            TaxTracker.update (updateAt env k) pool' tr' in
          (pool'', tr'', res, S k)
      end
  end.

End LaunchWindow.

(** ** utils/retry.ts *)

Module Retry.
Import Js.

(** What [withRetry] ends with: the value returned, or the value thrown;
    [Thrown None] is [throw lastError] with [lastError] still undefined. *)
Inductive outcome (A : Type) : Type :=
| Returned (a : A)
| Thrown (e : option string).
Arguments Returned {A} a.
Arguments Thrown {A} e.

Section WithRetry.
(** [fn] and [onRetry] act on some state [S] of the caller. *)
Context {S A : Type}.

Record RetryOptions := mkOptions {
  maxAttempts : nat;
  initialDelayMs : Z;
  maxDelayMs : Z;
  backoffMultiplier : Z;
  shouldRetry : option (string -> nat -> bool);
  onRetry : option (string -> nat -> Z -> S -> S)
}.

(** [DEFAULT_OPTIONS] overridden by the options the callers of this
    repository pass. *)
Definition withDefaults (maxAttempts : option nat)
    (initialDelayMs maxDelayMs : option Z)
    (onRetry : option (string -> nat -> Z -> S -> S)) : RetryOptions :=
  mkOptions (match maxAttempts with Some n => n | None => 3%nat end)
            (match initialDelayMs with Some d => d | None => 1000 end)
            (match maxDelayMs with Some d => d | None => 60000 end)
            2 None onRetry.

Record Run := mkRun {
  final : S;
  value : outcome A;
  attempts : nat;         (* calls of [fn] *)
  sleeps : list Z         (* the delays slept, in order *)
}.

Variable opts : RetryOptions.
Variable fn : S -> S * result A.

(** The [for] loop; [remaining] is [maxAttempts - attempt + 1]. *)
Fixpoint loop (remaining : nat) (attempt : nat) (delay : Z)
    (lastError : option string) (s : S) : Run :=
  match remaining with
  | O => mkRun s (Thrown lastError) O []
  | Datatypes.S r =>
      match fn s with
      | (s1, Ok a) => mkRun s1 (Returned a) 1 []
      | (s1, Throw error) =>
          let refuses :=
            match shouldRetry opts with
            | Some p => negb (p error attempt)
            | None => false
            end in
          if refuses then mkRun s1 (Thrown (Some error)) 1 []
          else if (maxAttempts opts <=? attempt)%nat
          then mkRun s1 (Thrown (Some error)) 1 []
          else
            let s2 := match onRetry opts with
                      | Some f => f error attempt delay s1
                      | None => s1
                      end in
            let rest := loop r (Datatypes.S attempt)
                             (Z.min (delay * backoffMultiplier opts) (maxDelayMs opts))
                             (Some error) s2 in
            mkRun (final rest) (value rest) (Datatypes.S (attempts rest))
                  (delay :: sleeps rest)
      end
  end.

Definition withRetry (s : S) : Run :=
  loop (maxAttempts opts) 1 (initialDelayMs opts) None s.

End WithRetry.
Arguments RetryOptions : clear implicits.
Arguments Run : clear implicits.

End Retry.

(** ** providers/rpc-pool.ts: [call] and [selectFastest] *)

Module RpcCall.
Import Js.

(** [call(fn)]: [withRetry] over the pool, one attempt per endpoint,
    rotating before each retry.  [op p] is what [fn] gives on provider [p]. *)
Definition callOptions (pool : RpcPool.t) : Retry.RetryOptions RpcPool.t :=
  Retry.withDefaults (Some (RpcPool.httpCount pool)) (Some 500) (Some 5000)
    (Some (fun _ _ _ p => RpcPool.rotateHttp p)).

Definition call {A} (op : nat -> result A) (pool : RpcPool.t)
  : Retry.Run RpcPool.t A :=
  Retry.withRetry (callOptions pool)
    (fun p => (p, op (RpcPool.getHttpProvider p))) pool.

(** [latencies.sort((a, b) => a.latency - b.latency)]: the stable sort by
    latency. *)
Fixpoint insertLatency (x : nat * Q) (l : list (nat * Q)) : list (nat * Q) :=
  match l with
  | [] => [x]
  | y :: r => if Qle_bool (snd y) (snd x) then y :: insertLatency x r
              else x :: y :: r
  end.

Definition sortLatencies (l : list (nat * Q)) : list (nat * Q) :=
  fold_left (fun acc x => insertLatency x acc) l [].

(** The loop over the providers: [probe i] is the latency measured for
    provider [i], or [None] when its [getBlockNumber] threw or timed out. *)
Fixpoint measure (probe : nat -> option Q) (i n : nat) : list (nat * Q) :=
  match n with
  | O => []
  | Datatypes.S k =>
      match probe i with
      | Some latency => (i, latency) :: measure probe (Datatypes.S i) k
      | None => measure probe (Datatypes.S i) k
      end
  end.

Definition selectFastest (probe : nat -> option Q) (pool : RpcPool.t) : RpcPool.t :=
  match sortLatencies (measure probe 0 (RpcPool.httpCount pool)) with
  | fastest :: _ => RpcPool.mk (RpcPool.httpCount pool) (fst fastest)
  | [] => pool
  end.

End RpcCall.

(** ** providers/virtuals-api.ts: the selection and the discovery of the
    project *)

Module Discovery.
Import Js.

(** An agent of the catalog with the two further fields the selection
    reads. *)
Record Listed := mkListed {
  agent : VirtualsApi.VirtualsAgent;
  lpAddress : option string;
  createdAt : option string
}.

Record SelectedProject := mkSelected {
  sel_agent : Listed;
  poolAddress : option string;
  poolType : WhaleTrades.PoolType;
  t0 : Z
}.

Section Select.
(** [Date.parse]; [None] stands for NaN. *)
Variable DateParse : string -> option Z.
(** [String.prototype.toUpperCase] *)
Variable toUpperCase : string -> string.
(** [getTaxWindowMs()] *)
Variable windowMs : Z.

Definition isUndergrad (a : Listed) : bool :=
  String.eqb (toUpperCase (VirtualsApi.status (agent a))) "UNDERGRAD"
  && VirtualsApi.truthy (VirtualsApi.preTokenPair (agent a))
  && negb (VirtualsApi.truthy (lpAddress a)).

(** [launchedTs(a) ?? lpCreatedTs(a) ?? createdTs(a)] *)
Definition t0For (a : Listed) : Z :=
  match VirtualsApi.parseTimestamp DateParse (VirtualsApi.launchedAt (agent a)) with
  | Some ts => ts
  | None =>
      match VirtualsApi.parseTimestamp DateParse
              (VirtualsApi.lpCreatedAt (agent a)) with
      | Some ts => ts
      | None =>
          match VirtualsApi.parseTimestamp DateParse (createdAt a) with
          | Some ts => ts
          | None => 0
          end
      end
  end.

(** The loop that fills [withT0]. *)
Fixpoint collectT0 (undergrads : list Listed) : list (Listed * Z) :=
  match undergrads with
  | [] => []
  | a :: r =>
      if t0For a <=? 0 then collectT0 r else (a, t0For a) :: collectT0 r
  end.

Definition inWindow (now : Z) (x : Listed * Z) : bool :=
  (snd x <=? now) && (now <=? snd x + windowMs).

(** [sort((a, b) => b.t0 - a.t0)]: the stable sort, greatest [t0] first. *)
Fixpoint insertDesc (x : Listed * Z) (l : list (Listed * Z)) : list (Listed * Z) :=
  match l with
  | [] => [x]
  | y :: r => if snd x <=? snd y then y :: insertDesc x r else x :: y :: r
  end.

Definition sortDesc (l : list (Listed * Z)) : list (Listed * Z) :=
  fold_left (fun acc x => insertDesc x acc) l [].

Definition isOrion (x : Listed * Z) : bool :=
  String.eqb (toUpperCase (VirtualsApi.symbol (agent (fst x)))) "ORION".

(** [selectProject]; [now] is its reading of the clock.  The list that is
    searched is never empty, so [picked] is always defined. *)
Definition selectProject (now : Z) (agents : list Listed) : option SelectedProject :=
  match agents with
  | [] => None
  | _ =>
      let undergrads := filter isUndergrad agents in
      let withT0 := collectT0 undergrads in
      match withT0 with
      | [] => None
      | _ =>
          let inWindow := filter (inWindow now) withT0 in
          let list := match inWindow with
                      | [] => sortDesc withT0
                      | _ => sortDesc inWindow
                      end in
          let picked := match find isOrion list with
                        | Some orion => Some orion
                        | None => hd_error list
                        end in
          match picked with
          | Some (undergrad, t0) =>
              Some (mkSelected undergrad
                      (VirtualsApi.preTokenPair (agent undergrad))
                      WhaleTrades.virtuals_curve t0)
          | None => None
          end
      end
  end.

(** *** [discoverProject] *)

Inductive Sort := createdAt_desc | lpCreatedAt_desc | launchedAt_desc.

(** [getProjectsBySort] on the outcome of its request: only the listing
    by creation date passes a failure on. *)
Definition getProjectsBySort (sort : Sort) (response : result (list Listed))
  : result (list Listed) :=
  match response with
  | Ok data => Ok data
  | Throw e =>
      match sort with
      | createdAt_desc => Throw e
      | _ => Ok []
      end
  end.

(** [for (const a of [...byLaunched, ...byCreated]) if (!byId.has(a.id))
    byId.set(a.id, a)] and [Array.from(byId.values())]. *)
Definition mergeById (byLaunched byCreated : list Listed) : list Listed :=
  Js.values
    (fold_left
       (fun byId a =>
          if Js.has Z.eqb (VirtualsApi.id (agent a)) byId then byId
          else Js.set Z.eqb (VirtualsApi.id (agent a)) a byId)
       (byLaunched ++ byCreated) []).

(** What one turn of the polling loop meets: the outcome of its two
    requests and the clock read by the selection. *)
Record Poll := mkPoll {
  clock : Z;
  createdResponse : result (list Listed);
  launchedResponse : result (list Listed)
}.

Variable pollInterval : Z.
(** The callback; it runs inside the [try], so its failure counts as a
    failed poll. *)
Variable onFound : SelectedProject -> result unit.

Inductive Attempt :=
| Selected (p : SelectedProject)
| NoProject
| Failed (e : string).

(** The body of the [try] up to its [return], its [sleep] or its throw,
    with [consecutiveErrors] as it stands there: a turn whose listings
    arrive sets the count to 0 before it calls the callback or sleeps, so
    the count is 0 also when the callback throws. *)
Definition attempt (poll : Poll) (consecutiveErrors : nat) : nat * Attempt :=
  match getProjectsBySort createdAt_desc (createdResponse poll),
        getProjectsBySort launchedAt_desc (launchedResponse poll) with
  | Ok byCreated, Ok byLaunched =>
      match selectProject (clock poll) (mergeById byLaunched byCreated) with
      | Some selected =>
          match onFound selected with
          | Ok _ => (O, Selected selected)
          | Throw e => (O, Failed e)
          end
      | None => (O, NoProject)
      end
  | Throw e, _ => (consecutiveErrors, Failed e)
  | Ok _, Throw e => (consecutiveErrors, Failed e)
  end.

Inductive Outcome :=
| Found (p : SelectedProject)
| Fatal (consecutiveErrors : nat)
| Aborted.

Definition maxConsecutiveErrors : nat := 10.

(** The polling loop over the turns made before the abort signal is
    raised, with the delays slept. *)
Fixpoint discoverProject (polls : list Poll) (consecutiveErrors : nat)
  : Outcome * list Z :=
  match polls with
  | [] => (Aborted, [])
  | poll :: rest =>
      match attempt poll consecutiveErrors with
      | (_, Selected p) => (Found p, [])
      | (count, NoProject) =>
          let r := discoverProject rest count in
          (fst r, pollInterval :: snd r)
      | (count, Failed _) =>
          let errors := Datatypes.S count in
          if (maxConsecutiveErrors <=? errors)%nat then (Fatal errors, [])
          else
            let r := discoverProject rest errors in
            (fst r, Z.min (1000 * 2 ^ Z.of_nat errors) 30000 :: snd r)
      end
  end.

End Select.

End Discovery.

(** ** notifiers/telegram.ts: the throttle and the queue *)

Module Telegram.
Import Js.

Record QueuedMessage := mkQueued {
  message : string;
  priority : Z;
  timestamp : Z
}.

(** The options of [send]; a field left out is [None]. *)
Record SendOptions := mkOptions {
  throttleKey : option string;
  o_priority : option Z;
  skipThrottle : option bool
}.

(** Where [processQueue] stands: not running, awaiting the
    [sendImmediate] of an item, or awaiting the timer between two items.
    [isProcessing] is true in the last two. *)
Inductive Processing :=
| Idle
| Posting (item : QueuedMessage)
| Pausing.

Record t := mk {
  throttleMap : @Js.Map string Z;
  messageQueue : list QueuedMessage;
  processing : Processing;
  (** the items handed to [sendImmediate] so far, oldest first *)
  posted : list QueuedMessage
}.

Definition new : t := mk [] [] Idle [].

Definition throttleMs : Z := 60000.

(** [sort((a, b) => b.priority - a.priority)]: the stable sort, highest
    priority first. *)
Fixpoint insertByPriority (x : QueuedMessage) (l : list QueuedMessage)
  : list QueuedMessage :=
  match l with
  | [] => [x]
  | y :: r =>
      if priority x <=? priority y then y :: insertByPriority x r
      else x :: y :: r
  end.

Definition sortByPriority (l : list QueuedMessage) : list QueuedMessage :=
  fold_left (fun acc x => insertByPriority x acc) l [].

(** [processQueue] up to its first [await]. *)
Definition processQueue (n : t) : t :=
  match processing n, messageQueue n with
  | Idle, item :: rest =>
      mk (throttleMap n) rest (Posting item) (posted n ++ [item])
  | _, _ => n
  end.

(** [throttleKey && !skipThrottle] *)
Definition throttled (opts : SendOptions) : bool :=
  VirtualsApi.truthy (throttleKey opts)
  && negb (match skipThrottle opts with Some b => b | None => false end).

(** [this.throttleMap.get(throttleKey) || 0] *)
Definition lastSent (n : t) (key : string) : Z :=
  match Js.get String.eqb key (throttleMap n) with
  | Some v => v
  | None => 0
  end.

(** [send]; [now1], [now2] and [now3] are its three readings of the
    clock, the first two taken only for a throttled message. *)
Definition send (n : t) (text : string) (opts : SendOptions)
    (now1 now2 now3 : Z) : t :=
  let enqueue (map : @Js.Map string Z) :=
    let item := mkQueued text
                  (match o_priority opts with Some p => p | None => 0 end)
                  now3 in
    processQueue (mk map (sortByPriority (messageQueue n ++ [item]))
                     (processing n) (posted n)) in
  match throttleKey opts with
  | Some key =>
      if throttled opts then
        if now1 - lastSent n key <? throttleMs then n
        else enqueue (Js.set String.eqb key now2 (throttleMap n))
      else enqueue (throttleMap n)
  | None => enqueue (throttleMap n)
  end.

(** What happens to the notifier: a call of [send], the end of the
    pending [sendImmediate] (which never throws), the end of the pause
    between two items. *)
Inductive Event :=
| Send (text : string) (opts : SendOptions) (now1 now2 now3 : Z)
| Delivered
| TimerFired.

(** The continuation of [processQueue] after each of its two [await]s;
    an event that is not awaited changes nothing. *)
Definition step (n : t) (e : Event) : t :=
  match e with
  | Send text opts now1 now2 now3 => send n text opts now1 now2 now3
  | Delivered =>
      match processing n with
      | Posting _ =>
          match messageQueue n with
          | [] => mk (throttleMap n) [] Idle (posted n)
          | _ => mk (throttleMap n) (messageQueue n) Pausing (posted n)
          end
      | _ => n
      end
  | TimerFired =>
      match processing n with
      | Pausing =>
          match messageQueue n with
          | item :: rest =>
              mk (throttleMap n) rest (Posting item) (posted n ++ [item])
          | [] => mk (throttleMap n) [] Idle (posted n)
          end
      | _ => n
      end
  end.

Definition run (n : t) (evs : list Event) : t := fold_left step evs n.

End Telegram.

(* ===================================================================== *)
(** * Part II: properties                                                 *)
(* ===================================================================== *)

(** ** JS maps with decidable keys *)

Section JsMapFacts.
Context {K V : Type} (keq : K -> K -> bool).
Hypothesis keq_spec : forall a b, reflect (a = b) (keq a b).

Lemma has_In (k : K) (m : @Js.Map K V) :
  Js.has keq k m = true <-> In k (Js.keys m).
Proof.
  unfold Js.has, Js.keys. rewrite existsb_exists, in_map_iff.
  split; intros [e [H1 H2]]; exists e.
  - destruct (keq_spec (fst e) k); [auto | discriminate].
  - split; [assumption|]. destruct (keq_spec (fst e) k); congruence.
Qed.

Lemma has_false_notin (k : K) (m : @Js.Map K V) :
  Js.has keq k m = false -> ~ In k (Js.keys m).
Proof. intros H Hin. apply has_In in Hin. congruence. Qed.

Lemma set_fresh (k : K) (v : V) (m : @Js.Map K V) :
  Js.has keq k m = false -> Js.set keq k v m = m ++ [(k, v)].
Proof.
  induction m as [|e r IH]; simpl; [reflexivity|].
  destruct (keq (fst e) k); simpl; [discriminate|].
  intros H. now rewrite IH.
Qed.

Lemma delete_notin (k : K) (m : @Js.Map K V) :
  ~ In k (Js.keys m) -> Js.delete keq k m = m.
Proof.
  induction m as [|e r IH]; simpl; [reflexivity|].
  intros H. destruct (keq_spec (fst e) k) as [E|E]; simpl.
  - exfalso. apply H. now left.
  - f_equal. apply IH. intros Hin. apply H. now right.
Qed.

Lemma delete_head (e : K * V) (r : @Js.Map K V) :
  NoDup (Js.keys (e :: r)) -> Js.delete keq (fst e) (e :: r) = r.
Proof.
  simpl. intros H. inversion H as [|x l Hnot Hnd]; subst.
  destruct (keq_spec (fst e) (fst e)); [|congruence]. simpl.
  now apply delete_notin.
Qed.
Lemma keys_set_In (k x : K) (v : V) (m : @Js.Map K V) :
  In x (Js.keys (Js.set keq k v m)) -> x = k \/ In x (Js.keys m).
Proof.
  induction m as [|e r IH]; simpl.
  - intros [H|[]]. now left.
  - destruct (keq_spec (fst e) k) as [E|E]; simpl.
    + intros [H|H]; [now left | right; now right].
    + intros [H|H]; [right; now left|].
      destruct (IH H); [now left | right; now right].
Qed.

Lemma set_keys_NoDup (k : K) (v : V) (m : @Js.Map K V) :
  NoDup (Js.keys m) -> NoDup (Js.keys (Js.set keq k v m)).
Proof.
  induction m as [|e r IH]; simpl; intros Hnd.
  - constructor; [intros [] | constructor].
  - inversion Hnd as [|x l Hx Hl]; subst.
    destruct (keq_spec (fst e) k) as [E|E]; simpl.
    + rewrite <- E. constructor; assumption.
    + constructor; [|now apply IH].
      intros Hin. apply keys_set_In in Hin. destruct Hin; [congruence | contradiction].
Qed.

(** The entries after [Map.set]: the new one, and the old ones under other
    keys. *)
Lemma set_In_iff (k : K) (v : V) (m : @Js.Map K V) (e : K * V) :
  NoDup (Js.keys m) ->
  In e (Js.set keq k v m) <-> e = (k, v) \/ (In e m /\ fst e <> k).
Proof.
  induction m as [|e0 r IH]; simpl; intros Hnd.
  - intuition.
  - inversion Hnd as [|x l Hx Hl]; subst. specialize (IH Hl).
    destruct (keq_spec (fst e0) k) as [E|E]; simpl.
    + split.
      * intros [H|H]; [now left|]. right. split; [now right|].
        intros Hk. apply Hx. rewrite E, <- Hk. now apply in_map.
      * intros [H|[[H|H] Hk]]; [now left | subst; congruence | now right].
    + rewrite IH. split.
      * intros [H|[H|[H Hk]]]; [subst; right; split; [now left | assumption]
                              | now left | right; split; [now right | assumption]].
      * intros [H|[[H|H] Hk]]; [right; now left | now left | right; right; now split].
Qed.

End JsMapFacts.

(** ** List suffixes *)

Section Suffix.
Context {A : Type}.

(** The last [n] elements of a list. *)
Definition lastn (n : nat) (l : list A) : list A :=
  skipn (List.length l - n) l.

Lemma lastn_length (n : nat) (l : list A) :
  List.length (lastn n l) = Nat.min n (List.length l).
Proof. unfold lastn. rewrite length_skipn. lia. Qed.

Lemma skipn_S_tl (n : nat) (l : list A) : skipn (S n) l = tl (skipn n l).
Proof.
  revert l. induction n as [|n IH]; intros [|x l]; simpl; auto.
  now rewrite <- IH.
Qed.

Lemma lastn_snoc_short (n : nat) (l : list A) (x : A) :
  (List.length l < n)%nat -> lastn n (l ++ [x]) = lastn n l ++ [x].
Proof.
  intros H. unfold lastn. rewrite length_app. simpl.
  replace (List.length l + 1 - n)%nat with O by lia.
  replace (List.length l - n)%nat with O by lia. reflexivity.
Qed.

Lemma lastn_snoc_full (n : nat) (l : list A) (x : A) :
  (1 <= n <= List.length l)%nat -> lastn n (l ++ [x]) = tl (lastn n l) ++ [x].
Proof.
  intros H. unfold lastn. rewrite length_app. simpl.
  replace (List.length l + 1 - n)%nat with (S (List.length l - n)) by lia.
  rewrite skipn_app, skipn_S_tl.
  replace (S (List.length l - n) - List.length l)%nat with O by lia.
  reflexivity.
Qed.

Lemma NoDup_snoc (l : list A) (x : A) :
  NoDup l -> ~ In x l -> NoDup (l ++ [x]).
Proof.
  induction 1 as [|y l Hy Hl IH]; simpl; intros Hx.
  - constructor; [intros []|constructor].
  - constructor.
    + rewrite in_app_iff. simpl. intuition congruence.
    + apply IH. intuition.
Qed.

Lemma in_lastn_split (n : nat) (a m : list A) (x : A) :
  (List.length m < n)%nat -> In x (lastn n (a ++ x :: m)).
Proof.
  intros H. unfold lastn. rewrite skipn_app. apply in_or_app. right.
  rewrite length_app. simpl.
  replace (List.length a + S (List.length m) - n - List.length a)%nat with O by lia.
  now left.
Qed.
End Suffix.

(** ** The whale-trade detector *)

Section WhaleTradesProps.
Import WhaleTrades.

Definition sameAddress (a b : string) : Prop :=
  Js.toLowerCase a = Js.toLowerCase b.

Definition cached (h : string) (w : t) : bool :=
  LRUCache.has String.eqb h (lruCache w).

(** The cache of a monitor that marked the hashes [E] (oldest first) holds
    exactly the last [maxSize] of them. *)
Definition tracks (E : list string) (c : LRUCache.t string bool) : Prop :=
  Js.keys (LRUCache.cache c) = lastn (LRUCache.maxSize c) E
  /\ NoDup (Js.keys (LRUCache.cache c)).

(** Two occurrences of a hash in [E] are at least [n] entries apart. *)
Definition separated (n : nat) (E : list string) : Prop :=
  forall a m b h, E = a ++ h :: m ++ h :: b -> (n <= List.length m)%nat.

Lemma keys_app (m1 m2 : @Js.Map string bool) :
  Js.keys (m1 ++ m2) = Js.keys m1 ++ Js.keys m2.
Proof. apply map_app. Qed.

Lemma tracks_set (E : list string) (c : LRUCache.t string bool) (h : string) :
  (1 <= LRUCache.maxSize c)%nat ->
  tracks E c -> LRUCache.has String.eqb h c = false ->
  tracks (E ++ [h]) (LRUCache.set String.eqb h true c)
  /\ LRUCache.maxSize (LRUCache.set String.eqb h true c) = LRUCache.maxSize c.
Proof.
  intros Hcap [Hk Hnd] Hfresh. split; [|reflexivity].
  unfold LRUCache.has in Hfresh.
  pose proof (has_false_notin String.eqb String.eqb_spec _ _ Hfresh) as Hnotin.
  pose proof (lastn_length (LRUCache.maxSize c) E) as Hlen.
  rewrite <- Hk in Hlen. unfold Js.keys in Hlen. rewrite length_map in Hlen.
  unfold tracks, LRUCache.set. rewrite Hfresh. simpl.
  unfold Js.size.
  destruct (Nat.leb_spec (LRUCache.maxSize c) (List.length (LRUCache.cache c)))
    as [Hfull|Hroom].
  - destruct (LRUCache.cache c) as [|e r] eqn:Hc; simpl in *; [lia|].
    destruct (String.eqb_spec (fst e) (fst e)); [|congruence]. simpl.
    inversion Hnd as [|x l Hx Hl]; subst.
    rewrite (delete_notin String.eqb String.eqb_spec); [|assumption].
    assert (Hr : Js.has String.eqb h r = false).
    { destruct (String.eqb (fst e) h); simpl in Hfresh; [discriminate|assumption]. }
    rewrite (set_fresh String.eqb h true r Hr), keys_app. simpl.
    rewrite lastn_snoc_full by lia. rewrite <- Hk. simpl. split; [reflexivity|].
    apply NoDup_snoc; [assumption|]. intros Hin. apply Hnotin. now right.
  - rewrite (set_fresh String.eqb h true _ Hfresh), keys_app. simpl.
    rewrite lastn_snoc_short by lia. rewrite <- Hk. split; [reflexivity|].
    now apply NoDup_snoc.
Qed.

Lemma separated_snoc (n : nat) (E : list string) (h : string) :
  separated n E -> ~ In h (lastn n E) -> separated n (E ++ [h]).
Proof.
  intros Hsep Hnot a m b x Heq.
  assert (Hb : b = [] \/ exists b' y, b = b' ++ [y])
    by (induction b using rev_ind; [now left | right; eauto]).
  destruct Hb as [-> | [b' [y ->]]].
  - replace (a ++ x :: m ++ [x]) with ((a ++ x :: m) ++ [x]) in Heq
      by (rewrite <- app_assoc; reflexivity).
    apply app_inj_tail in Heq. destruct Heq as [-> <-].
    destruct (Nat.le_gt_cases n (List.length m)) as [|Hlt]; [assumption|].
    exfalso. apply Hnot. now apply in_lastn_split.
  - replace (a ++ x :: m ++ x :: b' ++ [y])
      with ((a ++ x :: m ++ x :: b') ++ [y]) in Heq
      by (rewrite <- !app_assoc; simpl; rewrite <- app_assoc; reflexivity).
    apply app_inj_tail in Heq. destruct Heq as [-> _].
    eapply Hsep. reflexivity.
Qed.
Lemma handle_cases (w : t) (e : Event) :
  onWhaleTrade w = true ->
  handle w e = (w, None)
  \/ (cached (eventHash e) w = false
      /\ exists tr, txHash tr = eventHash e
           /\ handle w e =
              (withCache w (LRUCache.set String.eqb (eventHash e) true (lruCache w)),
               Some tr)).
Proof.
  intros Hcb. unfold cached.
  destruct e as [s a0i a1i a0o a1o h b n | f t0 v h b n]; simpl.
  - unfold handleSwap.
    destruct (LRUCache.has String.eqb h (lruCache w)); [now left|].
    match goal with |- context [if ?c <? threshold w then _ else _] =>
      destruct (c <? threshold w) end; [now left|].
    right. split; [reflexivity|]. rewrite Hcb. eexists. split; [|reflexivity].
    reflexivity.
  - unfold handleTransfer.
    match goal with |- context [if ?c && ?d then _ else _] =>
      destruct (c && d) end; [now left|].
    destruct (LRUCache.has String.eqb h (lruCache w)); [now left|].
    destruct (v <? threshold w); [now left|].
    right. split; [reflexivity|]. rewrite Hcb. eexists. split; [|reflexivity].
    reflexivity.
Qed.

Lemma handle_cached (w : t) (e : Event) :
  cached (eventHash e) w = true -> handle w e = (w, None).
Proof.
  unfold cached. destruct e; simpl; unfold handleSwap, handleTransfer; intros ->.
  - reflexivity.
  - match goal with |- context [if ?c && ?d then _ else _] =>
      destruct (c && d) end; reflexivity.
Qed.

Lemma handle_no_callback (w : t) (e : Event) :
  onWhaleTrade w = false ->
  snd (handle w e) = None /\ onWhaleTrade (fst (handle w e)) = false.
Proof.
  intros Hcb.
  destruct e; simpl; unfold handleSwap, handleTransfer;
    repeat match goal with
           | |- context [if ?c then _ else _] => destruct c; simpl
           end; auto; congruence.
Qed.

Lemma run_no_callback (evs : list Event) :
  forall w, onWhaleTrade w = false -> snd (run w evs) = [].
Proof.
  induction evs as [|e r IH]; intros w Hcb; simpl; [reflexivity|].
  destruct (handle_no_callback w e Hcb) as [Ho Hcb'].
  destruct (handle w e) as [w1 o]. simpl in *. subst o.
  specialize (IH w1 Hcb'). destruct (run w1 r) as [w2 out]. assumption.
Qed.

Lemma run_separated (evs : list Event) :
  forall (w : t) (E : list string),
    onWhaleTrade w = true ->
    (1 <= LRUCache.maxSize (lruCache w))%nat ->
    tracks E (lruCache w) ->
    separated (LRUCache.maxSize (lruCache w)) E ->
    separated (LRUCache.maxSize (lruCache w))
              (E ++ map txHash (snd (run w evs))).
Proof.
  induction evs as [|e r IH]; intros w E Hcb Hcap Htr Hsep; simpl.
  - now rewrite app_nil_r.
  - destruct (handle_cases w e Hcb) as [Hskip | [Hfresh [tr [Hh Hemit]]]].
    + rewrite Hskip. specialize (IH w E Hcb Hcap Htr Hsep).
      destruct (run w r) as [w2 out]. assumption.
    + rewrite Hemit.
      destruct (tracks_set E (lruCache w) (eventHash e) Hcap Htr Hfresh)
        as [Htr' Hmax].
      set (w1 := withCache w _) in *.
      assert (Hsep' : separated (LRUCache.maxSize (lruCache w1))
                                (E ++ [eventHash e])).
      { simpl. apply separated_snoc; [assumption|].
        destruct Htr as [Hk _]. rewrite <- Hk.
        now apply (has_false_notin String.eqb String.eqb_spec). }
      assert (Hcap' : (1 <= LRUCache.maxSize (lruCache w1))%nat)
        by (simpl; assumption).
      specialize (IH w1 (E ++ [eventHash e]) Hcb Hcap' Htr' Hsep').
      destruct (run w1 r) as [w2 out]. simpl in *.
      rewrite <- app_assoc in IH. simpl in IH.
      now rewrite Hh.
Qed.

(** The direction the specification asks for: a swap is a buy when the
    base-token delta into the pool is positive and a sell otherwise; a
    transfer of base token to the pool is a buy, one from the pool is a
    sell. *)
Definition spec_swap_direction (deltaIntoPool : Z) : Direction :=
  if 0 <? deltaIntoPool then BUY else SELL.

Definition spec_transfer_direction (toPool : bool) : Direction :=
  if toPool then BUY else SELL.

(** C1: the detector labels every trade it hands over with the opposite
    of the direction specified.  A Swap event that is not a duplicate and
    whose absolute base-token delta reaches the threshold is handed to the
    callback as SELL when the base-token delta into the pool is positive
    and as BUY otherwise; a base-token Transfer that reaches the threshold
    and is not a duplicate is handed over as SELL when it goes to the pool
    and as BUY when it comes from the pool. *)
Theorem whale_direction_inverted (w : t) (sender : string)
    (amount0In amount1In amount0Out amount1Out : Z)
    (from to : string) (value : Z) (txHash : string) (blockNumber now : Z) :
  cached txHash w = false ->
  onWhaleTrade w = true ->
  (threshold w <= Z.abs (deltaVirtual w amount0In amount1In amount0Out amount1Out) ->
   exists tr,
     snd (handleSwap w sender amount0In amount1In amount0Out amount1Out
                     txHash blockNumber now) = Some tr
     /\ amountVirtual tr
        = Z.abs (deltaVirtual w amount0In amount1In amount0Out amount1Out)
     /\ direction tr
        <> spec_swap_direction
             (deltaVirtual w amount0In amount1In amount0Out amount1Out)
     /\ (0 < deltaVirtual w amount0In amount1In amount0Out amount1Out ->
         direction tr = SELL)
     /\ (deltaVirtual w amount0In amount1In amount0Out amount1Out <= 0 ->
         direction tr = BUY))
  /\ (threshold w <= value ->
      (sameAddress to (poolAddress w) -> ~ sameAddress from (poolAddress w) ->
       exists tr,
         snd (handleTransfer w from to value txHash blockNumber now) = Some tr
         /\ amountVirtual tr = value
         /\ direction tr = SELL
         /\ direction tr <> spec_transfer_direction true)
      /\ (sameAddress from (poolAddress w) -> ~ sameAddress to (poolAddress w) ->
          exists tr,
            snd (handleTransfer w from to value txHash blockNumber now) = Some tr
            /\ amountVirtual tr = value
            /\ direction tr = BUY
            /\ direction tr <> spec_transfer_direction false)).
Proof.
  unfold cached, sameAddress. intros Hfresh Hcb. split.
  - intros Hthr. unfold handleSwap. rewrite Hfresh, Hcb.
    set (dV := deltaVirtual w amount0In amount1In amount0Out amount1Out) in *.
    assert (Habs : (if dV <? 0 then - dV else dV) = Z.abs dV)
      by (destruct (Z.ltb_spec dV 0); lia).
    rewrite Habs. destruct (Z.ltb_spec (Z.abs dV) (threshold w)); [lia|].
    eexists. split; [reflexivity|]. cbn [snd amountVirtual direction].
    unfold spec_swap_direction.
    destruct (Z.ltb_spec 0 dV); repeat split; intros;
      (reflexivity || discriminate || lia).
  - intros Hthr. unfold handleTransfer. rewrite Hfresh, Hcb.
    destruct (String.eqb_spec (Js.toLowerCase from) (Js.toLowerCase (poolAddress w)))
      as [Hf|Hf];
      destruct (String.eqb_spec (Js.toLowerCase to) (Js.toLowerCase (poolAddress w)))
      as [Ht|Ht]; cbn [negb andb];
      (split; intros H1 H2; try contradiction);
      destruct (Z.ltb_spec value (threshold w)); try lia;
      eexists; (split; [reflexivity|]); cbn [snd amountVirtual direction];
      repeat split; discriminate.
Qed.

(** C6, as amended: in every run of a monitor that starts with its
    (capacity 1000) cache empty, two trades handed to the callback with
    the same transaction hash are separated by at least 1000 other
    trades, so a hash is not emitted again while it is among the 1000 most
    recently emitted ones; and an event whose hash is in the cache is
    dropped without any effect on the monitor. *)
Theorem whale_dedup_window (w : t) (evs : list Event) :
  lruCache w = LRUCache.new 1000 ->
  (forall a m b h,
      map txHash (snd (run w evs)) = a ++ h :: m ++ h :: b ->
      (1000 <= List.length m)%nat)
  /\ (forall w' e, cached (eventHash e) w' = true -> handle w' e = (w', None)).
Proof.
  intros Hnew. split; [|intros w' e; apply handle_cached].
  destruct (onWhaleTrade w) eqn:Hcb.
  - assert (Hsep : separated 1000 ([] ++ map txHash (snd (run w evs)))).
    { replace 1000%nat with (LRUCache.maxSize (lruCache w)) by now rewrite Hnew.
      apply run_separated; rewrite ?Hnew; simpl; try lia; try assumption.
      - split; [reflexivity | constructor].
      - intros a m b h Heq. destruct a; discriminate. }
    exact Hsep.
  - rewrite (run_no_callback evs w Hcb). intros a m b h Heq.
    destruct a; discriminate.
Qed.

End WhaleTradesProps.

(** *** Concrete runs of the detector *)

Definition e18 : Z := 10 ^ 18.

(** An AMM-mode monitor with threshold 1000 base tokens whose pair has the
    base token as token0, started with a callback. *)
Definition whale_amm : WhaleTrades.t :=
  WhaleTrades.start true
    (WhaleTrades.new (1000 * e18) "0xPool" WhaleTrades.uniswap_v2).

(** A curve-mode monitor on the same pool, started with a callback. *)
Definition whale_curve : WhaleTrades.t :=
  WhaleTrades.start false
    (WhaleTrades.new (1000 * e18) "0xPool" WhaleTrades.virtuals_curve).

Definition hashOf (n : nat) : string :=
  String "0" (String "x" (NilZero.string_of_uint (Nat.to_uint n))).

Definition swapOf (n : nat) : WhaleTrades.Event :=
  WhaleTrades.Swap "0xtrader" (1500 * e18) 0 0 0 (hashOf n) (Z.of_nat n) 0.

(** 1001 swaps with pairwise different hashes, then the first hash again. *)
Definition evictionStream : list WhaleTrades.Event :=
  map swapOf (seq 0 1001) ++ [swapOf 0].

(** The specification's whale scenario: 1500 base tokens paid into an
    AMM pool whose token0 is the base token come out as a SELL, where a
    buy is specified; so does a transfer of 1500 base tokens to a curve
    pool. *)
Lemma whale_direction_inverted_witness :
  cached "0xabc" whale_amm = false
  /\ WhaleTrades.onWhaleTrade whale_amm = true
  /\ (exists tr,
        snd (WhaleTrades.handleSwap whale_amm "0xtrader" (1500 * e18) 0 0 0
                                    "0xabc" 7 0) = Some tr
        /\ WhaleTrades.amountVirtual tr = 1500 * e18
        /\ WhaleTrades.direction tr = WhaleTrades.SELL
        /\ spec_swap_direction
             (WhaleTrades.deltaVirtual whale_amm (1500 * e18) 0 0 0)
           = WhaleTrades.BUY)
  /\ cached "0xabc" whale_curve = false
  /\ WhaleTrades.onWhaleTrade whale_curve = true
  /\ (exists tr,
        snd (WhaleTrades.handleTransfer whale_curve "0xtrader" "0xPOOL" (1500 * e18)
                                        "0xabc" 7 0) = Some tr
        /\ WhaleTrades.direction tr = WhaleTrades.SELL
        /\ spec_transfer_direction true = WhaleTrades.BUY).
Proof.
  destruct (whale_direction_inverted whale_amm "0xtrader" (1500 * e18) 0 0 0
              "0xtrader" "0xPOOL" (1500 * e18) "0xabc" 7 0 eq_refl eq_refl)
    as [Hswap _].
  destruct (whale_direction_inverted whale_curve "0xtrader" (1500 * e18) 0 0 0
              "0xtrader" "0xPOOL" (1500 * e18) "0xabc" 7 0 eq_refl eq_refl)
    as [_ Htransfer].
  split; [reflexivity|]. split; [reflexivity|]. split; [|split; [reflexivity|]].
  2: split; [reflexivity|].
  - destruct Hswap as [tr [H1 [H2 [_ [H3 _]]]]]; [vm_compute; discriminate|].
    exists tr. split; [exact H1|]. split; [exact H2|].
    split; [apply H3; reflexivity | reflexivity].
  - destruct Htransfer as [Hto _]; [vm_compute; discriminate|].
    destruct Hto as [tr [H1 [_ [H2 _]]]].
    + reflexivity.
    + unfold sameAddress. vm_compute. discriminate.
    + exists tr. split; [exact H1|]. split; [exact H2 | reflexivity].
Defined.

Lemma whale_dedup_window_witness :
  WhaleTrades.lruCache whale_amm = LRUCache.new 1000
  /\ (forall a m b h,
         map WhaleTrades.txHash
             (snd (WhaleTrades.run whale_amm [swapOf 1; swapOf 1; swapOf 2]))
         = a ++ h :: m ++ h :: b ->
         (1000 <= List.length m)%nat).
Proof.
  split; [reflexivity|].
  apply (whale_dedup_window whale_amm [swapOf 1; swapOf 1; swapOf 2]).
  reflexivity.
Defined.

(** C6 fails as stated: after 1000 other hashes have been emitted the
    first one has left the cache, and the same transaction hash is handed
    to the callback a second time. *)
Lemma whale_dedup_counterexample :
  count_occ string_dec
    (map WhaleTrades.txHash (snd (WhaleTrades.run whale_amm evictionStream)))
    (hashOf 0) = 2%nat.
Proof. vm_compute. reflexivity. Qed.

(** ** Time to block *)

Section TimeToBlockProps.
Import Js TimeToBlock.
Variable getBlock : Z -> result (option Block).
Variable targetTime : Z.

(** The search never leaves the interval it is given. *)
Lemma search_bounds (lo hi : Z) :
  forall r, lo <= hi -> search getBlock targetTime lo hi = Ok r -> lo <= r <= hi.
Proof.
  funelim (search getBlock targetTime lo hi); intros r Hle Hr;
    try discriminate.
  - inversion Hr; subst. lia.
  - inversion Hr; subst. lia.
  - assert (lo <= (lo + hi) / 2 < hi)
      by (split; [apply Z.div_le_lower_bound | apply Z.div_lt_upper_bound]; lia).
    match goal with IH : forall r, _ -> _ = Ok r -> _ |- _ =>
      specialize (IH r ltac:(lia) Hr) end. lia.
  - assert (lo <= (lo + hi) / 2 < hi)
      by (split; [apply Z.div_le_lower_bound | apply Z.div_lt_upper_bound]; lia).
    match goal with IH : forall r, _ -> _ = Ok r -> _ |- _ =>
      specialize (IH r ltac:(lia) Hr) end. lia.
Qed.

(** The block found for a time is an existing block: it lies between 0
    and the latest block the provider reported. *)
Lemma timeToBlock_bounds (latest : Block) (b : Z) :
  0 <= number latest ->
  timeToBlock getBlock targetTime (Ok (Some latest)) = Ok b ->
  0 <= b <= number latest.
Proof.
  intros Hn. unfold timeToBlock.
  destruct (Z.leb_spec (timestamp latest * 1000) targetTime) as [|Hlt].
  - intros Hb. inversion Hb; subst. lia.
  - intros Hb.
    assert (Hdiff : 0 <= (timestamp latest * 1000 - targetTime) / AVERAGE_BLOCK_TIME_MS)
      by (apply Z.div_pos; unfold AVERAGE_BLOCK_TIME_MS; lia).
    apply search_bounds in Hb; lia.
Qed.
End TimeToBlockProps.

(** ** The tax tracker *)

Section TaxTrackerProps.
Import Js TaxTracker.

Lemma scan_fold (addr : string) (logs : list Log) :
  forall i o, fold_left (scanLog addr) logs (i, o)
              = (i + inflowOf addr logs, o + outflowOf addr logs).
Proof.
  induction logs as [|[a|] r IH]; intros i o; simpl.
  - f_equal; lia.
  - unfold isTo, isFrom.
    destruct (String.eqb (toLowerCase (to a)) addr);
      destruct (String.eqb (toLowerCase (from a)) addr);
      rewrite IH; f_equal; lia.
  - apply IH.
Qed.

Lemma scanLogs_sums (addr : string) (logs : list Log) :
  scanLogs addr logs = (inflowOf addr logs, outflowOf addr logs).
Proof. unfold scanLogs. now rewrite scan_fold. Qed.

Lemma inflowOf_app (addr : string) (l1 l2 : list Log) :
  inflowOf addr (l1 ++ l2) = inflowOf addr l1 + inflowOf addr l2.
Proof. induction l1 as [|[a|] r IH]; simpl; rewrite ?IH; lia. Qed.

Lemma outflowOf_app (addr : string) (l1 l2 : list Log) :
  outflowOf addr (l1 ++ l2) = outflowOf addr l1 + outflowOf addr l2.
Proof. induction l1 as [|[a|] r IH]; simpl; rewrite ?IH; lia. Qed.

Lemma signedSum_flows (addr : string) (logs : list Log) :
  signedSum addr logs = inflowOf addr logs - outflowOf addr logs.
Proof. induction logs as [|[a|] r IH]; simpl; rewrite ?IH; lia. Qed.

Lemma blocksFrom_app (n m : nat) :
  forall b, blocksFrom b (n + m)
            = blocksFrom b n ++ blocksFrom (b + Z.of_nat n) m.
Proof.
  induction n as [|n IH]; intros b.
  - simpl. now rewrite Z.add_0_r.
  - change (S n + m)%nat with (S (n + m)). simpl blocksFrom at 1 2.
    rewrite IH. simpl. do 3 f_equal. lia.
Qed.

Lemma logsInRange_app (ledger : Ledger) (a b c : Z) :
  a <= b + 1 -> b <= c ->
  logsInRange ledger a b ++ logsInRange ledger (b + 1) c
  = logsInRange ledger a c.
Proof.
  intros Hab Hbc. unfold logsInRange. rewrite <- flat_map_app.
  replace (Z.to_nat (c - a + 1))
    with (Z.to_nat (b - a + 1) + Z.to_nat (c - (b + 1) + 1))%nat by lia.
  rewrite blocksFrom_app. do 3 f_equal. lia.
Qed.

(** *** One call of [update] *)

Definition sameConfig (tr tr' : t) : Prop :=
  buybackAddr tr' = buybackAddr tr
  /\ blockStart tr' = blockStart tr
  /\ startBalance tr' = startBalance tr.

(** What a call that throws does: it rotates the pool, rebinds the
    contract to the new current provider and keeps the block cursor. *)
Lemma update_throws (env : UpdateEnv) (pool pool' : RpcPool.t) (tr tr' : t)
    (e : string) :
  update env pool tr = (pool', tr', Throw e) ->
  pool' = RpcPool.rotateHttp pool
  /\ virtualToken tr' = RpcPool.getHttpProvider pool'
  /\ lastProcessedBlock tr' = lastProcessedBlock tr
  /\ sameConfig tr tr'.
Proof.
  unfold update, onError, sameConfig.
  destruct (getBlockNumber env _) as [n|e1]; [|intros H; inversion H; subst; simpl; repeat split; reflexivity].
  destruct (n <=? lastProcessedBlock tr); [discriminate|].
  destruct (queryFilter env _ _ _) as [logs|e2];
    [|intros H; inversion H; subst; simpl; repeat split; reflexivity].
  destruct (scanLogs _ logs) as [i o].
  destruct (balanceOf env _) as [bal|e3]; [discriminate|].
  intros H; inversion H; subst; simpl; repeat split; reflexivity.
Qed.

(** A call that throws before the counters are touched (at
    [getBlockNumber] or at [queryFilter]) leaves them as they were. *)
Lemma update_throws_early (env : UpdateEnv) (pool : RpcPool.t) (tr : t) :
  isOk (getBlockNumber env (RpcPool.getHttpProvider pool)) = false
  \/ (forall f t, isOk (queryFilter env (virtualToken tr) f t) = false) ->
  forall pool' tr' res,
    update env pool tr = (pool', tr', res) ->
    accumulated tr' = accumulated tr
    /\ lastProcessedBlock tr' = lastProcessedBlock tr.
Proof.
  intros Hfail pool' tr' res. unfold update, onError.
  destruct (getBlockNumber env _) as [n|e1];
    [|intros H; inversion H; subst; simpl; repeat split; reflexivity].
  destruct (n <=? lastProcessedBlock tr);
    [intros H; inversion H; subst; split; reflexivity|].
  destruct Hfail as [Hfail|Hfail]; [discriminate|].
  specialize (Hfail (lastProcessedBlock tr + 1)
                    (Z.min n (lastProcessedBlock tr + maxBlockRange))).
  destruct (queryFilter env _ _ _) as [logs|e2]; [discriminate|].
  intros H; inversion H; subst; simpl; repeat split; reflexivity.
Qed.

(** The block cursor after any call. *)
Lemma update_cursor (env : UpdateEnv) (pool pool' : RpcPool.t) (tr tr' : t)
    (res : result TaxResult) :
  update env pool tr = (pool', tr', res) ->
  sameConfig tr tr'
  /\ lastProcessedBlock tr <= lastProcessedBlock tr'
  /\ (lastProcessedBlock tr' = lastProcessedBlock tr
      \/ exists n, getBlockNumber env (RpcPool.getHttpProvider pool) = Ok n
                   /\ lastProcessedBlock tr' <= n).
Proof.
  unfold update, onError, sameConfig, maxBlockRange.
  destruct (getBlockNumber env _) as [n|e1];
    [|intros H; inversion H; subst; simpl; intuition lia].
  destruct (Z.leb_spec n (lastProcessedBlock tr)) as [Hle|Hgt];
    [intros H; inversion H; subst; intuition lia|].
  destruct (queryFilter env _ _ _) as [logs|e2];
    [|intros H; inversion H; subst; simpl; intuition lia].
  destruct (scanLogs _ logs) as [i o].
  destruct (balanceOf env _) as [bal|e3];
    intros H; inversion H; subst; simpl; [|intuition lia].
  repeat split; try lia. right. exists n. split; [reflexivity|lia].
Qed.

(** The ledger is what every successful log query returns. *)
Definition honest (ledger : Ledger) (env : UpdateEnv) : Prop :=
  forall p f t logs,
    queryFilter env p f t = Ok logs -> logs = logsInRange ledger f t.

(** The counters account for the ledger from the start block up to the
    cursor. *)
Definition accounted (ledger : Ledger) (tr : t) : Prop :=
  let logs := logsInRange ledger (blockStart tr + 1) (lastProcessedBlock tr) in
  blockStart tr <= lastProcessedBlock tr
  /\ inflow (accumulated tr) = inflowOf (buybackAddr tr) logs
  /\ outflow (accumulated tr) = outflowOf (buybackAddr tr) logs
  /\ netInflow (accumulated tr)
     = inflow (accumulated tr) - outflow (accumulated tr).

Lemma update_accounted (ledger : Ledger) (env : UpdateEnv)
    (pool pool' : RpcPool.t) (tr tr' : t) (r : TaxResult) :
  honest ledger env ->
  update env pool tr = (pool', tr', Ok r) ->
  accounted ledger tr -> accounted ledger tr'.
Proof.
  intros Hhon. unfold update, onError, accounted, maxBlockRange.
  destruct (getBlockNumber env _) as [n|e1]; [|discriminate].
  destruct (Z.leb_spec n (lastProcessedBlock tr)) as [Hle|Hgt];
    [intros H; inversion H; subst; auto|].
  destruct (queryFilter env _ _ _) as [logs|e2] eqn:Hq; [|discriminate].
  apply Hhon in Hq. rewrite scanLogs_sums.
  destruct (balanceOf env _) as [bal|e3]; [|discriminate].
  intros H [Hbs [Hi [Ho Hn]]]; inversion H; subst; simpl.
  rewrite <- (logsInRange_app ledger (blockStart tr + 1) (lastProcessedBlock tr))
    by lia.
  rewrite inflowOf_app, outflowOf_app. repeat split; lia.
Qed.

Lemma finalState_accounted (ledger : Ledger) (envs : list UpdateEnv) :
  forall pool tr,
    Forall (honest ledger) envs ->
    Forall (fun x => isOk (snd x) = true) (updates envs pool tr) ->
    accounted ledger tr ->
    accounted ledger (finalState envs pool tr)
    /\ sameConfig tr (finalState envs pool tr).
Proof.
  induction envs as [|env r IH]; intros pool tr Hhon Hok Hacc; simpl in *.
  - unfold sameConfig. auto.
  - inversion Hhon as [|x l Hh Hr]; subst.
    destruct (update env pool tr) as [[pool' tr'] res] eqn:Hu.
    inversion Hok as [|x l Hres Hrest]; subst. simpl in Hres.
    destruct res as [acc|e]; [|discriminate].
    destruct (update_cursor _ _ _ _ _ _ Hu) as [[Ha [Hb Hs]] _].
    destruct (IH pool' tr' Hr Hrest (update_accounted _ _ _ _ _ _ _ Hh Hu Hacc))
      as [Hfin [Ha' [Hb' Hs']]].
    split; [assumption|]. unfold sameConfig. repeat split; congruence.
Qed.

(** *** After [init] *)

Lemma init_state (ienv : InitEnv) (t0 : Z) (tr0 tr : t) :
  init ienv t0 tr0 = (tr, Ok tt) ->
  lastProcessedBlock tr = blockStart tr
  /\ accumulated tr = accumulated tr0
  /\ buybackAddr tr = buybackAddr tr0
  /\ TimeToBlock.timeToBlock (getBlock ienv) t0 (getLatest ienv)
     = Ok (blockStart tr).
Proof.
  unfold init.
  destruct (TimeToBlock.timeToBlock _ _ _) as [b|e]; [|discriminate].
  intros H; inversion H; subst; simpl. repeat split; reflexivity.
Qed.

(** C3: after [init], any sequence of successful [update] calls against
    a ledger leaves [inflow] equal to the sum of the values of the logs in
    (blockStart, lastProcessedBlock] whose recipient is the receiver,
    [outflow] equal to the sum of those whose sender is the receiver, and
    [netInflow = inflow - outflow] equal to the signed sum over these
    logs; a transfer from the receiver to itself is added to both
    counters. *)
Theorem tax_counters_sum (ledger : Ledger) (ienv : InitEnv) (t0 : Z)
    (pool0 pool : RpcPool.t) (addr : string) (tr : t)
    (envs : list UpdateEnv) :
  init ienv t0 (new pool0 addr) = (tr, Ok tt) ->
  Forall (honest ledger) envs ->
  Forall (fun x => isOk (snd x) = true) (updates envs pool tr) ->
  let tr' := finalState envs pool tr in
  let receiver := toLowerCase addr in
  let logs := logsInRange ledger (blockStart tr + 1) (lastProcessedBlock tr') in
  inflow (accumulated tr') = inflowOf receiver logs
  /\ outflow (accumulated tr') = outflowOf receiver logs
  /\ netInflow (accumulated tr')
     = inflow (accumulated tr') - outflow (accumulated tr')
  /\ netInflow (accumulated tr') = signedSum receiver logs
  /\ (forall a, isTo receiver a = true -> isFrom receiver a = true ->
                scanLogs receiver [Some a] = (value a, value a)
                /\ signedValue receiver (Some a) = 0).
Proof.
  intros Hinit Hhon Hok tr' receiver logs.
  destruct (init_state _ _ _ _ Hinit) as [Hlp [Hacc [Haddr _]]].
  simpl in Hacc, Haddr.
  assert (H0 : accounted ledger tr).
  { unfold accounted. rewrite Hlp, Hacc. unfold logsInRange.
    replace (Z.to_nat (blockStart tr - (blockStart tr + 1) + 1)) with O by lia.
    simpl. repeat split; lia. }
  destruct (finalState_accounted ledger envs pool tr Hhon Hok H0)
    as [[_ [Hi [Ho Hn]]] [Ha [Hb _]]].
  fold tr' in Hi, Ho, Hn, Ha, Hb. rewrite Ha, Hb, Haddr in *.
  fold receiver in Hi, Ho. fold logs in Hi, Ho.
  repeat split; try assumption.
  - rewrite signedSum_flows. lia.
  - unfold scanLogs. simpl. unfold isTo, isFrom in *.
    match goal with Ht : String.eqb _ _ = true, Hf : String.eqb _ _ = true |- _ =>
      rewrite Ht, Hf end. reflexivity.
  - simpl. match goal with Ht : isTo _ _ = true, Hf : isFrom _ _ = true |- _ =>
      rewrite Ht, Hf end. lia.
Qed.

(** *** The chain as the tracker observes it *)

(** Each call is made while the chain has some height [h]; heights never
    decrease, and an endpoint never reports a block beyond the height. *)
Fixpoint observed (head : Z) (obs : list (Z * UpdateEnv)) : Prop :=
  match obs with
  | [] => True
  | (h, env) :: r =>
      head <= h
      /\ (forall p n, getBlockNumber env p = Ok n -> n <= h)
      /\ observed h r
  end.

Definition cursors (traj : list (RpcPool.t * t * result TaxResult)) : list Z :=
  map (fun x => lastProcessedBlock (snd (fst x))) traj.

Lemma updates_cursor (obs : list (Z * UpdateEnv)) :
  forall pool tr head,
    lastProcessedBlock tr <= head ->
    observed head obs ->
    let traj := updates (map snd obs) pool tr in
    Sorted Z.le (lastProcessedBlock tr :: cursors traj)
    /\ Forall (fun x => lastProcessedBlock tr <= lastProcessedBlock (snd (fst x))
                        /\ blockStart (snd (fst x)) = blockStart tr) traj
    /\ Forall2 (fun o c => c <= fst o) obs (cursors traj).
Proof.
  induction obs as [|[h env] r IH]; intros pool tr head Hlp Hobs; simpl.
  - repeat split; constructor; constructor.
  - destruct Hobs as [Hh [Hrep Hobs]].
    destruct (update env pool tr) as [[pool' tr'] res] eqn:Hu.
    destruct (update_cursor _ _ _ _ _ _ Hu) as [[_ [Hbs _]] [Hmono Hbound]].
    assert (Hlp' : lastProcessedBlock tr' <= h).
    { destruct Hbound as [-> | [n [Hn Hle]]]; [lia|].
      apply Hrep in Hn. lia. }
    destruct (IH pool' tr' h Hlp' Hobs) as [Hsorted [Hall Hb2]].
    simpl. repeat split.
    + constructor; [assumption | constructor; assumption].
    + constructor; [simpl; split; [assumption | assumption]|].
      eapply Forall_impl; [|exact Hall]. simpl. intros x [H1 H2].
      split; [lia | congruence].
    + constructor; [exact Hlp' | exact Hb2].
Qed.

(** C5: after [init(T0)], along any sequence of [update] calls, whether
    they succeed or throw, [lastProcessedBlock] never decreases, is never
    below the start block computed by [init] (which itself never
    changes), and never exceeds the height of the chain at the time of the
    call. *)
Theorem tax_cursor_monotone (ienv : InitEnv) (t0 : Z) (pool0 pool : RpcPool.t)
    (addr : string) (tr : t) (head0 : Z) (obs : list (Z * UpdateEnv)) :
  init ienv t0 (new pool0 addr) = (tr, Ok tt) ->
  (forall latest, getLatest ienv = Ok (Some latest) ->
                  0 <= TimeToBlock.number latest <= head0) ->
  observed head0 obs ->
  let traj := updates (map snd obs) pool tr in
  lastProcessedBlock tr = blockStart tr
  /\ lastProcessedBlock tr <= head0
  /\ Sorted Z.le (lastProcessedBlock tr :: cursors traj)
  /\ Forall (fun x => blockStart tr <= lastProcessedBlock (snd (fst x))
                      /\ blockStart (snd (fst x)) = blockStart tr) traj
  /\ Forall2 (fun o c => c <= fst o) obs (cursors traj).
Proof.
  intros Hinit Hlatest Hobs traj.
  destruct (init_state _ _ _ _ Hinit) as [Hlp [_ [_ Httb]]].
  assert (Hhead : lastProcessedBlock tr <= head0).
  { rewrite Hlp. destruct (getLatest ienv) as [[latest|]|e] eqn:Hl;
      try discriminate Httb.
    destruct (Hlatest latest eq_refl) as [H0 H1].
    apply timeToBlock_bounds in Httb; lia. }
  destruct (updates_cursor obs pool tr head0 Hhead Hobs) as [Hs [Hall Hb]].
  fold traj in Hs, Hall, Hb.
  repeat split; try assumption.
  eapply Forall_impl; [|exact Hall]. simpl. intros x [H1 H2]. split; [lia|assumption].
Qed.

End TaxTrackerProps.

(** *** Concrete runs of the tracker *)

Definition receiverAddr : string := "0xBuyBack".

Definition twoEndpoints : RpcPool.t := RpcPool.mk 2 0.

(** A chain with one block every two seconds, observed at block 300. *)
Definition chainAt300 : TaxTracker.InitEnv :=
  TaxTracker.mkInitEnv
    (Js.Ok (Some (TimeToBlock.mkBlock 300 600)))
    (fun n => Js.Ok (Some (TimeToBlock.mkBlock n (2 * n))))
    (fun _ _ => Js.Ok (1000 * e18)).

(** Two transfers to the receiver and one from it after block 100; the log
    of block 150 that carries no arguments is skipped. *)
Definition ledger0 : TaxTracker.Ledger :=
  fun b =>
    if b =? 101 then [Some (TaxTracker.mkArgs "0xalice" "0xBUYBACK" (200 * e18))]
    else if b =? 150 then
      [None; Some (TaxTracker.mkArgs "0xcarol" "0xbuyback" (50 * e18))]
    else if b =? 180 then
      [Some (TaxTracker.mkArgs "0xBuyBack" "0xbob" (30 * e18))]
    else [].

(** Endpoints that answer: latest block [n], current balance [bal]. *)
Definition answering (n bal : Z) : TaxTracker.UpdateEnv :=
  TaxTracker.mkEnv
    (fun _ => Js.Ok n)
    (fun _ f t => Js.Ok (TaxTracker.logsInRange ledger0 f t))
    (fun _ => Js.Ok bal).

(** The same endpoints, except that the balance read throws. *)
Definition balanceFails (n : Z) : TaxTracker.UpdateEnv :=
  TaxTracker.mkEnv
    (fun _ => Js.Ok n)
    (fun _ f t => Js.Ok (TaxTracker.logsInRange ledger0 f t))
    (fun _ => Js.Throw "timeout").

(** The tracker after [init] at T0 = 200 s, i.e. at block 100. *)
Definition trackerAt100 : TaxTracker.t :=
  fst (TaxTracker.init chainAt300 200000
         (TaxTracker.new twoEndpoints receiverAddr)).

Example trackerAt100_start :
  TaxTracker.init chainAt300 200000 (TaxTracker.new twoEndpoints receiverAddr)
  = (trackerAt100, Js.Ok tt)
  /\ TaxTracker.blockStart trackerAt100 = 100
  /\ TaxTracker.startBalance trackerAt100 = 1000 * e18.
Proof. vm_compute. repeat split; reflexivity. Qed.

Lemma answering_honest (n bal : Z) : honest ledger0 (answering n bal).
Proof. intros p f t logs H. inversion H. reflexivity. Qed.

Lemma balanceFails_honest (n : Z) : honest ledger0 (balanceFails n).
Proof. intros p f t logs H. inversion H. reflexivity. Qed.

(** The spec's tax-accounting scenario: start balance 1000, inflows 200 and
    50, one outflow 30, current balance 1220. *)
Example tax_scenario :
  let tr := TaxTracker.finalState [answering 300 (1220 * e18)] twoEndpoints
                                  trackerAt100 in
  TaxTracker.accumulated tr
  = TaxTracker.mkResult (250 * e18) (30 * e18) (220 * e18) (220 * e18) 0
  /\ TaxTracker.lastProcessedBlock tr = 300.
Proof. vm_compute. split; reflexivity. Qed.

(** Two successful calls: up to block 150, then up to block 300. *)
Definition twoCalls : list TaxTracker.UpdateEnv :=
  [answering 150 (1250 * e18); answering 300 (1220 * e18)].

Definition afterTwoCalls : TaxTracker.t :=
  TaxTracker.finalState twoCalls twoEndpoints trackerAt100.

Lemma tax_counters_sum_witness :
  TaxTracker.init chainAt300 200000 (TaxTracker.new twoEndpoints receiverAddr)
  = (trackerAt100, Js.Ok tt)
  /\ Forall (honest ledger0) twoCalls
  /\ Forall (fun x => TaxTracker.isOk (snd x) = true)
            (TaxTracker.updates twoCalls twoEndpoints trackerAt100)
  /\ TaxTracker.inflow (TaxTracker.accumulated afterTwoCalls) = 250 * e18
  /\ TaxTracker.outflow (TaxTracker.accumulated afterTwoCalls) = 30 * e18
  /\ TaxTracker.netInflow (TaxTracker.accumulated afterTwoCalls) = 220 * e18.
Proof.
  assert (Hinit : TaxTracker.init chainAt300 200000
                    (TaxTracker.new twoEndpoints receiverAddr)
                  = (trackerAt100, Js.Ok tt)) by (vm_compute; reflexivity).
  assert (Hhon : Forall (honest ledger0) twoCalls)
    by (repeat constructor; apply answering_honest).
  assert (Hok : Forall (fun x => TaxTracker.isOk (snd x) = true)
                       (TaxTracker.updates twoCalls twoEndpoints trackerAt100))
    by (vm_compute; repeat constructor).
  destruct (tax_counters_sum ledger0 chainAt300 200000 twoEndpoints twoEndpoints
              receiverAddr trackerAt100 twoCalls Hinit Hhon Hok)
    as [Hi [Ho [Hn [Hs _]]]].
  split; [exact Hinit|]. split; [exact Hhon|]. split; [exact Hok|].
  split; [exact Hi|]. split; [exact Ho|].
  etransitivity; [exact Hs | vm_compute; reflexivity].
Defined.

(** Four calls, each paired with the height of the chain when it is made:
    a success, a call whose balance read throws, a call answered by an
    endpoint one block behind, and a call after a long pause. *)
Definition fourCalls : list (Z * TaxTracker.UpdateEnv) :=
  [(300, answering 300 (1220 * e18)); (305, balanceFails 305);
   (305, answering 304 (1220 * e18)); (9000, answering 9000 0)].

Definition fourCallsTrajectory :=
  TaxTracker.updates (map snd fourCalls) twoEndpoints trackerAt100.

Lemma tax_cursor_monotone_witness :
  TaxTracker.init chainAt300 200000 (TaxTracker.new twoEndpoints receiverAddr)
  = (trackerAt100, Js.Ok tt)
  /\ (forall latest,
        TaxTracker.getLatest chainAt300 = Js.Ok (Some latest) ->
        0 <= TimeToBlock.number latest <= 300)
  /\ observed 300 fourCalls
  /\ cursors fourCallsTrajectory = [300; 300; 304; 2304]
  /\ Sorted Z.le (100 :: cursors fourCallsTrajectory)
  /\ Forall2 (fun o c => c <= fst o) fourCalls (cursors fourCallsTrajectory).
Proof.
  assert (Hinit : TaxTracker.init chainAt300 200000
                    (TaxTracker.new twoEndpoints receiverAddr)
                  = (trackerAt100, Js.Ok tt)) by (vm_compute; reflexivity).
  assert (Hlatest : forall latest,
             TaxTracker.getLatest chainAt300 = Js.Ok (Some latest) ->
             0 <= TimeToBlock.number latest <= 300)
    by (intros latest H; inversion H; simpl; lia).
  assert (Hobs : observed 300 fourCalls)
    by (simpl; repeat split; try lia; intros p n H; inversion H; lia).
  destruct (tax_cursor_monotone chainAt300 200000 twoEndpoints twoEndpoints
              receiverAddr trackerAt100 300 fourCalls Hinit Hlatest Hobs)
    as [_ [_ [Hsorted [_ Hbound]]]].
  split; [exact Hinit|]. split; [exact Hlatest|]. split; [exact Hobs|].
  split; [vm_compute; reflexivity|]. split; [exact Hsorted | exact Hbound].
Defined.

(** An [update] at block 101 whose balance read throws, and its retry. *)
Definition failedCall : RpcPool.t * TaxTracker.t * Js.result TaxTracker.TaxResult :=
  TaxTracker.update (balanceFails 101) twoEndpoints trackerAt100.

Definition retriedCall : RpcPool.t * TaxTracker.t * Js.result TaxTracker.TaxResult :=
  TaxTracker.update (answering 101 (1200 * e18))
                    (fst (fst failedCall)) (snd (fst failedCall)).

(** C2 on the code: the balance read of an [update] throws after the logs
    of block 101 were added to the counters; the call rotates the endpoint,
    rebinds the contract, rethrows and keeps the cursor at block 100, but the
    inflow counter has already moved from 0 to 200.  The retry scans block
    101 again and ends with an inflow of 400, twice the 200 the ledger holds
    in (blockStart, lastProcessedBlock]. *)
Theorem tax_update_balance_failure_double_counts :
  TaxTracker.inflow (TaxTracker.accumulated trackerAt100) = 0
  /\ snd failedCall = Js.Throw "timeout"
  /\ fst (fst failedCall) = RpcPool.rotateHttp twoEndpoints
  /\ TaxTracker.virtualToken (snd (fst failedCall))
     = RpcPool.getHttpProvider (fst (fst failedCall))
  /\ TaxTracker.lastProcessedBlock (snd (fst failedCall)) = 100
  /\ TaxTracker.inflow (TaxTracker.accumulated (snd (fst failedCall)))
     = 200 * e18
  /\ TaxTracker.isOk (snd retriedCall) = true
  /\ TaxTracker.lastProcessedBlock (snd (fst retriedCall)) = 101
  /\ TaxTracker.inflow (TaxTracker.accumulated (snd (fst retriedCall)))
     = 400 * e18
  /\ TaxTracker.inflowOf (TaxTracker.buybackAddr (snd (fst retriedCall)))
       (TaxTracker.logsInRange ledger0
          (TaxTracker.blockStart (snd (fst retriedCall)) + 1)
          (TaxTracker.lastProcessedBlock (snd (fst retriedCall))))
     = 200 * e18.
Proof. vm_compute. repeat split; reflexivity. Qed.

(** ** The buyback tracker *)

Section BuybackTrackerProps.
Import JsNumber BuybackTracker.

(** The spec's spent-in-window: the sum of the recorded amounts whose
    time is not before [windowStart]. *)
Fixpoint windowSum (windowStart : Z) (hist : list SpentRecord) : Z :=
  match hist with
  | [] => 0
  | h :: r => (if windowStart <=? time h then amount h else 0)
              + windowSum windowStart r
  end.

Lemma fold_amounts (hist : list SpentRecord) :
  forall acc, fold_left (fun sum h => sum + amount h) hist acc
              = acc + fold_left (fun sum h => sum + amount h) hist 0.
Proof.
  induction hist as [|h r IH]; intros acc; simpl; [lia|].
  rewrite IH. symmetry. rewrite IH. lia.
Qed.

Lemma filter_reduce_windowSum (windowStart : Z) (hist : list SpentRecord) :
  fold_left (fun sum h => sum + amount h)
            (filter (fun h => windowStart <=? time h) hist) 0
  = windowSum windowStart hist.
Proof.
  induction hist as [|h r IH]; simpl; [reflexivity|].
  destruct (windowStart <=? time h); simpl; [|lia].
  rewrite fold_amounts, IH. lia.
Qed.

Lemma windowSum_empty (windowStart : Z) (hist : list SpentRecord) :
  (forall h, In h hist -> time h < windowStart) -> windowSum windowStart hist = 0.
Proof.
  induction hist as [|h r IH]; simpl; intros Hold; [reflexivity|].
  destruct (Z.leb_spec windowStart (time h)) as [Hin|_].
  - specialize (Hold h (or_introl eq_refl)). lia.
  - rewrite IH; [lia|]. intros x Hx. apply Hold. now right.
Qed.

Definition windowStartAt (b : t) (now : Z) : Z :=
  now - rateWindowMinutes b * 60 * 1000.

Lemma spentWindow_value (b : t) (now : Z) :
  spentWindow (getStatus b now) = windowSum (windowStartAt b now) (spentHistory b).
Proof. unfold getStatus. simpl. apply filter_reduce_windowSum. Qed.

Lemma remaining_value (b : t) (now : Z) :
  remaining (getStatus b now) = Z.max 0 (taxTotal b - spentTotal b).
Proof.
  unfold getStatus. simpl. destruct (Z.ltb_spec (spentTotal b) (taxTotal b)); lia.
Qed.

Lemma ofZ_3600 : ofZ 3600 = SpecFloat.S754_finite false 7916483719987200 (-41).
Proof. vm_compute. reflexivity. Qed.

(** Nothing spent in the window: the rate is a zero unless the window
    length is itself zero or not a number, and it is never positive. *)
Lemma idle_rate (windowSeconds : number) :
  let rate := mul (div (fromEther 0) windowSeconds) (ofZ 3600) in
  gtb rate (ofZ 0) = false
  /\ (forall q, toQ windowSeconds = Some q -> ~ (q == 0)%Q ->
                toQ rate = Some 0%Q).
Proof.
  intros rate. subst rate. rewrite ofZ_3600.
  destruct windowSeconds as [sz|si| |sf m e]; cbn; split;
    try reflexivity; intros q Hq Hne; try discriminate.
  injection Hq as <-. exfalso. apply Hne. reflexivity.
Qed.

(** C4, as amended: with W the sum of the recorded spends whose time is
    at least [now - rateWindow], [spentWindow = W] and [remaining = max(0,
    taxTotal - spentTotal)]; the display quantities are doubles, each step
    rounded to nearest: [ratePerHour] is the double nearest to W / 10^18,
    divided by the window length in seconds and multiplied by 3600;
    [etaHours] is the double nearest to remaining / 10^18 divided by
    [ratePerHour] when that is greater than 0, and infinity otherwise, in
    particular when the window is empty (the rate is then zero for any
    window length that is a number other than zero); [progress] is the
    integer quotient [spentTotal * 10000 / taxTotal] converted to a double
    and divided by 100 when [taxTotal > 0], that is the percentage
    truncated to two decimals and not capped at 100, and 0 when
    [taxTotal <= 0]. *)
Theorem buyback_status (b : t) (now : Z) :
  let s := getStatus b now in
  let W := windowSum (windowStartAt b now) (spentHistory b) in
  let windowSeconds := ofZ (rateWindowMinutes b * 60) in
  spentWindow s = W
  /\ remaining s = Z.max 0 (taxTotal b - spentTotal b)
  /\ ratePerHour s = mul (div (fromEther W) windowSeconds) (ofZ 3600)
  /\ (gtb (ratePerHour s) (ofZ 0) = true ->
      etaHours s = div (fromEther (remaining s)) (ratePerHour s))
  /\ (gtb (ratePerHour s) (ofZ 0) = false -> etaHours s = PosInf)
  /\ ((forall h, In h (spentHistory b) -> (time h < windowStartAt b now)%Z) ->
      etaHours s = PosInf
      /\ (forall q, toQ windowSeconds = Some q -> ~ (q == 0)%Q ->
                    toQ (ratePerHour s) = Some 0%Q))
  /\ ((0 < taxTotal b)%Z ->
      progress s
      = div (ofZ (Z.quot (spentTotal b * 10000) (taxTotal b))) (ofZ 100))
  /\ ((taxTotal b <= 0)%Z -> progress s = ofZ 0).
Proof.
  intros s W windowSeconds.
  assert (Hrate : ratePerHour s = mul (div (fromEther W) windowSeconds) (ofZ 3600)).
  { subst s W windowSeconds. unfold getStatus. cbn [ratePerHour].
    now rewrite filter_reduce_windowSum. }
  assert (Heta : etaHours s
                 = if gtb (ratePerHour s) (ofZ 0)
                   then div (fromEther (remaining s)) (ratePerHour s)
                   else PosInf) by reflexivity.
  split; [apply spentWindow_value|]. split; [apply remaining_value|].
  split; [exact Hrate|]. split; [|split; [|split; [|split]]].
  - intros Hpos. now rewrite Heta, Hpos.
  - intros Hnpos. now rewrite Heta, Hnpos.
  - intros Hold. pose proof (windowSum_empty _ _ Hold) as H0. fold W in H0.
    rewrite H0 in Hrate. destruct (idle_rate windowSeconds) as [Hgt Hzero].
    rewrite Heta, Hrate. split; [now rewrite Hgt | exact Hzero].
  - intros Ht. subst s. unfold getStatus. cbn [progress].
    destruct (Z.ltb_spec 0 (taxTotal b)); [reflexivity | lia].
  - intros Ht. subst s. unfold getStatus. cbn [progress].
    destruct (Z.ltb_spec 0 (taxTotal b)); [lia | reflexivity].
Qed.

(** *** Stall alerts *)

Definition spends (evs : list Event) : nat :=
  List.length (filter isSpent evs).

Lemma checkStall_fires (b b' : t) (now : Z) :
  checkStall b now = (b', true) ->
  isStalled b now = true /\ stallAlerted b = false /\ onStall b = true
  /\ stallAlerted b' = true.
Proof.
  unfold checkStall.
  destruct (isStalled b now); destruct (stallAlerted b); destruct (onStall b);
    simpl; intros H; inversion H; subst; auto.
Qed.

Lemma checkStall_silent (b b' : t) (now : Z) :
  checkStall b now = (b', false) -> b' = b.
Proof.
  unfold checkStall.
  destruct (isStalled b now && negb (stallAlerted b) && onStall b);
    intros H; inversion H; reflexivity.
Qed.

Lemma isStalled_true (b : t) (now : Z) :
  isStalled b now = true ->
  (spentTotal b < taxTotal b)%Z /\ lastSpentTime b <> 0%Z
  /\ (stallAlertMinutes b * 60 * 1000 < now - lastSpentTime b)%Z.
Proof.
  unfold isStalled.
  destruct (Z.leb_spec (taxTotal b) (spentTotal b)); [discriminate|].
  destruct (Z.eqb_spec (lastSpentTime b) 0); [discriminate|].
  destruct (Z.ltb_spec (stallAlertMinutes b * 60 * 1000) (now - lastSpentTime b));
    [auto | discriminate].
Qed.

(** The callbacks of a run are bounded by the spends in it, plus one if
    no alert is pending at its start. *)
Lemma run_alerts_bound (evs : list Event) :
  forall b, (snd (run b evs)
             <= (if stallAlerted b then 0 else 1) + spends evs)%nat.
Proof.
  induction evs as [|e r IH]; intros b; simpl; [lia|].
  destruct e as [now a h | now]; simpl.
  - specialize (IH (recordSpent b now a h)). simpl in IH.
    destruct (run (recordSpent b now a h) r) as [b2 n]. simpl in *.
    unfold spends in *. simpl. lia.
  - destruct (checkStall b now) as [b1 fired] eqn:Hc.
    specialize (IH b1). destruct (run b1 r) as [b2 n]. simpl in *.
    unfold spends in *. simpl. destruct fired.
    + apply checkStall_fires in Hc. destruct Hc as [_ [Ha [_ Ha']]].
      rewrite Ha. rewrite Ha' in IH. lia.
    + apply checkStall_silent in Hc. subst b1. exact IH.
Qed.

Lemma spends_none (evs : list Event) :
  Forall (fun e => isSpent e = false) evs -> spends evs = O.
Proof.
  unfold spends. induction 1 as [|e r He Hr IH]; simpl; [reflexivity|].
  now rewrite He.
Qed.

(** C7: [checkStall] calls the stall callback only when
    [spentTotal < taxTotal], at least one spend was observed
    ([lastSpentTime <> 0]) and [now - lastSpentTime > stallAlert]; in a run
    the callback is called at most once more than spends are recorded, at
    most once while no spend is recorded, and not at all while an alert is
    pending; [recordSpent] clears the pending alert, after which the next
    check made while stalled calls the callback, exactly once until the
    next spend. *)
Theorem stall_alert_once (b : t) (now amount : Z) (h : string)
    (evs quiet : list Event) :
  Forall (fun e => isSpent e = false) quiet ->
  (forall b', checkStall b now = (b', true) ->
     (spentTotal b < taxTotal b)%Z /\ lastSpentTime b <> 0%Z
     /\ (stallAlertMinutes b * 60 * 1000 < now - lastSpentTime b)%Z
     /\ stallAlerted b = false /\ stallAlerted b' = true)
  /\ (snd (run b evs) <= 1 + spends evs)%nat
  /\ (snd (run b quiet) <= 1)%nat
  /\ (stallAlerted b = true -> snd (run b quiet) = O)
  /\ stallAlerted (recordSpent b now amount h) = false
  /\ (stallAlerted b = false -> onStall b = true -> isStalled b now = true ->
      snd (run b (Check now :: quiet)) = 1%nat).
Proof.
  intros Hquiet.
  pose proof (spends_none quiet Hquiet) as Hq.
  split; [|split; [|split; [|split; [|split]]]].
  - intros b' Hc. apply checkStall_fires in Hc.
    destruct Hc as [Hs [Ha [_ Ha']]]. apply isStalled_true in Hs. tauto.
  - pose proof (run_alerts_bound evs b). destruct (stallAlerted b); lia.
  - pose proof (run_alerts_bound quiet b). destruct (stallAlerted b); lia.
  - intros Ha. pose proof (run_alerts_bound quiet b) as Hb.
    rewrite Ha in Hb. lia.
  - reflexivity.
  - intros Ha Hcb Hs. simpl. unfold checkStall. rewrite Hs, Ha, Hcb. simpl.
    match goal with |- context [run ?b1 quiet] =>
      pose proof (run_alerts_bound quiet b1) as Hb;
      destruct (run b1 quiet) as [b2 n] end.
    simpl in *. lia.
Qed.

(** *** A zero budget *)

Lemma reachable_inv (taxTotal0 : Z) (b : t) :
  reachable taxTotal0 b -> taxTotal b = taxTotal0 /\ (0 <= spentTotal b)%Z.
Proof.
  induction 1 as [rw sa | b cb Hb IH | b now a h Hb IH Ha | b now Hb IH];
    simpl; try (split; [reflexivity | lia]); try assumption.
  - destruct IH. split; [assumption | lia].
  - unfold checkStall.
    destruct (isStalled b now && negb (stallAlerted b) && onStall b);
      simpl; assumption.
Qed.

End BuybackTrackerProps.

(** ** The buyback phase of the state machine *)

Section StateMachineProps.
Import Js JsNumber StateMachine.

(** C10: a tracker constructed with [taxTotal = 0] is complete from the
    start and in every state it can reach; its status has [progress = 0]
    and [remaining = 0], the division by the budget being guarded; and the
    buyback handler, with a project selected and a zero tax total, moves
    to DONE at its completion check, whether it has just created the
    tracker or finds one already there. *)
Theorem zero_budget_completes (b : BuybackTracker.t) (now : Z)
    (env : Env) (s : t) :
  BuybackTracker.reachable 0 b ->
  project (context s) <> None ->
  taxTotal (context s) = 0 ->
  (buybackTracker s = None /\ wsConnect env = Ok tt)
  \/ buybackTracker s = Some b ->
  (forall rw sa, BuybackTracker.isComplete (BuybackTracker.new 0 rw sa) = true)
  /\ BuybackTracker.isComplete b = true
  /\ BuybackTracker.progress (BuybackTracker.getStatus b now) = ofZ 0
  /\ BuybackTracker.remaining (BuybackTracker.getStatus b now) = 0
  /\ state (context (fst (handleBuybackPhase env s))) = DONE
  /\ snd (handleBuybackPhase env s) = Ok tt.
Proof.
  intros Hreach Hproj Htax Htracker.
  destruct (reachable_inv 0 b Hreach) as [Hb Hspent].
  assert (Hcomplete : BuybackTracker.isComplete b = true).
  { unfold BuybackTracker.isComplete. rewrite Hb. now apply Z.leb_le. }
  split; [reflexivity|]. split; [exact Hcomplete|].
  split; [|split].
  - unfold BuybackTracker.getStatus. simpl. rewrite Hb. reflexivity.
  - unfold BuybackTracker.getStatus. simpl. rewrite Hb.
    destruct (Z.ltb_spec (BuybackTracker.spentTotal b) 0); [lia|reflexivity].
  - unfold handleBuybackPhase.
    destruct (project (context s)) as [pid|]; [|congruence].
    destruct Htracker as [[Hnone Hws] | Hsome].
    + rewrite Hnone, Hws, Htax. simpl. split; reflexivity.
    + rewrite Hsome, Hcomplete. simpl. split; reflexivity.
Qed.

End StateMachineProps.

(** *** Concrete runs of the buyback tracker *)

Definition minute : Z := 60 * 1000.

(** A started tracker with budget [budget], a rate window of 20 minutes and
    a stall alert of 5 minutes. *)
Definition trackerFor (budget : Z) : BuybackTracker.t :=
  BuybackTracker.start true (BuybackTracker.new budget 20 5).

Definition noon : Z := 1000 * minute.

(** The spec's ETA scenario: budget 1000, spends of 100 and 50 display
    units 15 and 5 minutes ago. *)
Definition twoSpends : BuybackTracker.t :=
  BuybackTracker.recordSpent
    (BuybackTracker.recordSpent (trackerFor (1000 * e18))
       (noon - 15 * minute) (100 * e18) "0xs1")
    (noon - 5 * minute) (50 * e18) "0xs2".

(** The number [x] is finite and its value is [q]. *)
Definition finite (x : JsNumber.number) (q : Q) : Prop :=
  match JsNumber.toQ x with Some p => (p == q)%Q | None => False end.

(** The spec's buyback scenario; the ETA is the double written
    1.8888888888888888. *)
Example buyback_scenario :
  let s := BuybackTracker.getStatus twoSpends noon in
  BuybackTracker.spentWindow s = 150 * e18
  /\ finite (BuybackTracker.ratePerHour s) 450
  /\ BuybackTracker.remaining s = 850 * e18
  /\ BuybackTracker.etaHours s
     = SpecFloat.S754_finite false 8506799296144270 (-52)
  /\ finite (BuybackTracker.progress s) 15.
Proof. vm_compute. repeat split; reflexivity. Qed.

Lemma buyback_status_witness :
  BuybackTracker.spentWindow (BuybackTracker.getStatus twoSpends noon)
  = 150 * e18
  /\ BuybackTracker.remaining (BuybackTracker.getStatus twoSpends noon)
     = 850 * e18
  /\ BuybackTracker.etaHours (BuybackTracker.getStatus twoSpends noon)
     = JsNumber.div (JsNumber.fromEther (850 * e18)) (JsNumber.ofZ 450)
  /\ BuybackTracker.progress (BuybackTracker.getStatus twoSpends noon)
     = JsNumber.div (JsNumber.ofZ 1500) (JsNumber.ofZ 100).
Proof.
  destruct (buyback_status twoSpends noon)
    as [HW [Hrem [Hrate [Heta [_ [_ [Hprog _]]]]]]].
  split; [exact HW|]. split; [exact Hrem|]. split.
  - rewrite Heta by (vm_compute; reflexivity). rewrite Hrem, Hrate.
    vm_compute. reflexivity.
  - rewrite Hprog by (vm_compute; reflexivity). reflexivity.
Defined.

(** A tracker whose single spend exceeds its budget of 100, and one that
    spent 1 base unit of a budget of 3. *)
Definition overspent : BuybackTracker.t :=
  BuybackTracker.recordSpent (trackerFor (100 * e18)) noon (250 * e18) "0xs1".

Definition oneThird : BuybackTracker.t :=
  BuybackTracker.recordSpent (trackerFor 3) noon 1 "0xs1".

(** C4 fails as stated: the progress of a tracker that spent 250 of a
    budget of 100 is 250, not min(100, 250) = 100; and the progress of one
    that spent a third of its budget is the double nearest to 33.33, more
    than a thousandth below 100/3. *)
Lemma buyback_progress_counterexample :
  (exists p, JsNumber.toQ
               (BuybackTracker.progress (BuybackTracker.getStatus overspent noon))
             = Some p
             /\ (p == 250)%Q /\ ~ (p <= 100)%Q)
  /\ (exists p, JsNumber.toQ
                  (BuybackTracker.progress (BuybackTracker.getStatus oneThird noon))
                = Some p
                /\ BuybackTracker.progress (BuybackTracker.getStatus oneThird noon)
                   = JsNumber.div (JsNumber.ofZ 3333) (JsNumber.ofZ 100)
                /\ (p < (100 # 3) - (1 # 1000))%Q).
Proof.
  split; eexists; (split; [vm_compute; reflexivity|]); split;
    try (vm_compute; reflexivity); intros H; vm_compute in H.
  apply H. reflexivity.
Qed.

(** The spec's stall scenario: a spend, silence for six minutes, two
    checks, a new spend, silence for six minutes, one more check. *)
Example stall_scenario :
  snd (BuybackTracker.run (trackerFor (1000 * e18))
         [BuybackTracker.Spent noon (100 * e18) "0xs1";
          BuybackTracker.Check (noon + 6 * minute);
          BuybackTracker.Check (noon + 7 * minute);
          BuybackTracker.Spent (noon + 8 * minute) (50 * e18) "0xs2";
          BuybackTracker.Check (noon + 9 * minute);
          BuybackTracker.Check (noon + 14 * minute + 1)]) = 2%nat.
Proof. vm_compute. reflexivity. Qed.

(** A tracker that recorded one spend at noon, and two later checks. *)
Definition spentAtNoon : BuybackTracker.t :=
  BuybackTracker.recordSpent (trackerFor (1000 * e18)) noon (100 * e18) "0xs1".

Definition laterChecks : list BuybackTracker.Event :=
  [BuybackTracker.Check (noon + 7 * minute);
   BuybackTracker.Check (noon + 8 * minute)].

Lemma stall_alert_once_witness :
  Forall (fun e => BuybackTracker.isSpent e = false) laterChecks
  /\ BuybackTracker.stallAlerted spentAtNoon = false
  /\ BuybackTracker.onStall spentAtNoon = true
  /\ BuybackTracker.isStalled spentAtNoon (noon + 6 * minute) = true
  /\ snd (BuybackTracker.run spentAtNoon
             (BuybackTracker.Check (noon + 6 * minute) :: laterChecks))
     = 1%nat.
Proof.
  assert (Hq : Forall (fun e => BuybackTracker.isSpent e = false) laterChecks)
    by (repeat constructor).
  split; [exact Hq|]. split; [reflexivity|]. split; [reflexivity|].
  split; [reflexivity|].
  apply (stall_alert_once spentAtNoon (noon + 6 * minute) 0 "" [] laterChecks Hq);
    reflexivity.
Defined.

(** A machine entering the buyback phase with a zero tax total. *)
Definition enteringBuyback : StateMachine.t :=
  StateMachine.mk
    (StateMachine.mkCtx StateMachine.BUYBACK_PHASE (Some 42) 0 None) None None.

Definition calmEnv : StateMachine.Env :=
  StateMachine.mkEnv 20 5 (Js.Ok tt) noon noon (Js.Ok None) noon
                     (Js.Ok tt) noon.

Lemma zero_budget_completes_witness :
  BuybackTracker.reachable 0 (trackerFor 0)
  /\ StateMachine.project (StateMachine.context enteringBuyback) <> None
  /\ StateMachine.taxTotal (StateMachine.context enteringBuyback) = 0
  /\ BuybackTracker.isComplete (trackerFor 0) = true
  /\ StateMachine.state
       (StateMachine.context
          (fst (StateMachine.handleBuybackPhase calmEnv enteringBuyback)))
     = StateMachine.DONE.
Proof.
  assert (Hr : BuybackTracker.reachable 0 (trackerFor 0))
    by (apply BuybackTracker.reach_start, BuybackTracker.reach_new).
  assert (Hp : StateMachine.project (StateMachine.context enteringBuyback) <> None)
    by discriminate.
  destruct (zero_budget_completes (trackerFor 0) noon calmEnv enteringBuyback
              Hr Hp eq_refl (or_introl (conj eq_refl eq_refl)))
    as [_ [Hc [_ [_ [Hdone _]]]]].
  repeat split; assumption.
Defined.

(** ** The trade ring of the API surface *)

Section ApiServerProps.
Import ApiServer.

(** What [pushBounded] keeps of the old ring. *)
Definition bounded {A} (l : list A) : list A :=
  if (maxHistory <=? List.length l)%nat then removelast l else l.

Lemma pushBounded_cons {A} (x : A) (l : list A) :
  pushBounded x l = x :: bounded l.
Proof.
  unfold pushBounded, bounded, maxHistory. simpl List.length.
  destruct l as [|y r]; [reflexivity|].
  change (100 <? S (List.length (y :: r)))%nat
    with (100 <=? List.length (y :: r))%nat.
  destruct (100 <=? List.length (y :: r))%nat; reflexivity.
Qed.

Lemma bounded_cons {A} (x : A) (l : list A) :
  exists r, bounded (x :: l) = x :: r.
Proof.
  unfold bounded, maxHistory.
  destruct (Nat.leb_spec 100 (List.length (x :: l))) as [Hfull|_];
    [|eauto].
  destruct l as [|y r]; [simpl in Hfull; lia|]. eexists. reflexivity.
Qed.

Lemma bounded_length {A} (l : list A) :
  (List.length l <= maxHistory)%nat ->
  List.length (bounded l) = Nat.min (maxHistory - 1) (List.length l).
Proof.
  unfold bounded, maxHistory. intros H.
  destruct (Nat.leb_spec 100 (List.length l)).
  - rewrite removelast_firstn_len, length_firstn. lia.
  - lia.
Qed.

(** C9, as amended: [recordTrade] has no notion of duplicates; it puts
    every trade at the head of the ring, newest first, and keeps the ring
    within 100 entries.  Two calls with trades carrying the same
    transaction hash leave both trades at the head of the ring and two
    [whale_trade] events at the head of the event history. *)
Theorem recordTrade_enqueues (s : t) (now1 now2 : Z)
    (t1 t2 : WhaleTrades.WhaleTradeInfo) :
  WhaleTrades.txHash t1 = WhaleTrades.txHash t2 ->
  (List.length (tradeHistory s) <= maxHistory)%nat ->
  let s2 := recordTrade (recordTrade s now1 t1) now2 t2 in
  firstn 2 (tradeHistory s2) = [t2; t1]
  /\ List.length (tradeHistory s2)
     = Nat.min maxHistory (List.length (tradeHistory s) + 2)
  /\ map (fun e => option_map d_txHash (data e)) (firstn 2 (eventHistory s2))
     = [Some (WhaleTrades.txHash t2); Some (WhaleTrades.txHash t2)].
Proof.
  intros Hhash Hlen s2. subst s2. unfold recordTrade, broadcast.
  cbn [tradeHistory eventHistory]. rewrite !pushBounded_cons.
  destruct (bounded_cons t1 (bounded (tradeHistory s))) as [r Hr].
  split; [now rewrite Hr|]. split.
  - pose proof (bounded_length (tradeHistory s) Hlen) as H1.
    assert (H2 : List.length (bounded (t1 :: bounded (tradeHistory s)))
                 = Nat.min (maxHistory - 1)
                           (List.length (t1 :: bounded (tradeHistory s))))
      by (apply bounded_length; cbn [List.length]; unfold maxHistory in *; lia).
    cbn [List.length] in *. unfold maxHistory in *. lia.
  - match goal with |- context [bounded (?e :: ?l)] =>
      destruct (bounded_cons e l) as [r' Hr']; rewrite Hr' end.
    simpl. now rewrite Hhash.
Qed.

End ApiServerProps.

(** *** Concrete runs of the API surface *)

Definition emptyServer : ApiServer.t := ApiServer.mk [] [].

Definition bigBuy : WhaleTrades.WhaleTradeInfo :=
  WhaleTrades.mkTrade WhaleTrades.BUY (1500 * e18) 0 "0xtrader" "0xabc" 7 0.

Definition recordedTwice : ApiServer.t :=
  ApiServer.recordTrade (ApiServer.recordTrade emptyServer 1 bigBuy) 2 bigBuy.

Lemma recordTrade_enqueues_witness :
  WhaleTrades.txHash bigBuy = WhaleTrades.txHash bigBuy
  /\ (List.length (ApiServer.tradeHistory emptyServer) <= ApiServer.maxHistory)%nat
  /\ firstn 2 (ApiServer.tradeHistory
                 (ApiServer.recordTrade
                    (ApiServer.recordTrade emptyServer 1 bigBuy) 2 bigBuy))
     = [bigBuy; bigBuy].
Proof.
  assert (Hlen : (List.length (ApiServer.tradeHistory emptyServer)
                  <= ApiServer.maxHistory)%nat)
    by (vm_compute; repeat constructor).
  split; [reflexivity|]. split; [exact Hlen|].
  apply (recordTrade_enqueues emptyServer 1 2 bigBuy bigBuy eq_refl Hlen).
Defined.

(** C9 fails as stated: recording the same trade (same transaction hash)
    twice leaves two entries in the trade ring, not one. *)
Lemma recordTrade_counterexample :
  List.length (ApiServer.tradeHistory recordedTwice) = 2%nat
  /\ count_occ string_dec
       (map WhaleTrades.txHash (ApiServer.tradeHistory recordedTwice))
       "0xabc" = 2%nat.
Proof. vm_compute. split; reflexivity. Qed.

(** ** Upcoming launches *)

Section VirtualsApiProps.
Import Js VirtualsApi.
Variable DateParse : string -> option Z.

(** The record the merged list holds last under an id. *)
Definition lastById (merged : list VirtualsAgent) (k : Z) : option VirtualsAgent :=
  find (fun b => id b =? k) (rev merged).

Definition byLaunch (a b : VirtualsAgent) : Prop :=
  launchKey DateParse a <= launchKey DateParse b.

Lemma dedupe_snoc (l : list VirtualsAgent) (x : VirtualsAgent) :
  dedupe (l ++ [x]) = Js.set Z.eqb (id x) x (dedupe l).
Proof. unfold dedupe. now rewrite fold_left_app. Qed.

Lemma lastById_snoc (l : list VirtualsAgent) (x : VirtualsAgent) (k : Z) :
  lastById (l ++ [x]) k = if id x =? k then Some x else lastById l k.
Proof. unfold lastById. now rewrite rev_unit. Qed.

(** The map built by the loop holds, under each id, the last record of the
    merged list with that id. *)
Lemma dedupe_spec (l : list VirtualsAgent) :
  NoDup (Js.keys (dedupe l))
  /\ forall k a, In (k, a) (dedupe l) <-> lastById l k = Some a.
Proof.
  induction l as [|x l [Hnd IH]] using rev_ind.
  - split; [constructor|]. intros k a. simpl. split; [intros [] | discriminate].
  - rewrite dedupe_snoc. split; [now apply (set_keys_NoDup Z.eqb Z.eqb_spec)|].
    intros k a. rewrite (set_In_iff Z.eqb Z.eqb_spec) by assumption.
    rewrite lastById_snoc. simpl. destruct (Z.eqb_spec (id x) k) as [E|E].
    + split.
      * intros [H|[_ H]]; [inversion H; reflexivity | congruence].
      * intros H. inversion H; subst. now left.
    + rewrite IH. split.
      * intros [H|[H _]]; [inversion H; congruence | assumption].
      * intros H. right. split; [assumption | congruence].
Qed.

Lemma lastById_id (l : list VirtualsAgent) (k : Z) (a : VirtualsAgent) :
  lastById l k = Some a -> id a = k.
Proof.
  unfold lastById. intros H. apply find_some in H. destruct H as [_ H].
  now apply Z.eqb_eq.
Qed.

Lemma dedupe_values (l : list VirtualsAgent) (a : VirtualsAgent) :
  In a (Js.values (dedupe l)) <-> lastById l (id a) = Some a.
Proof.
  destruct (dedupe_spec l) as [_ Hspec]. unfold Js.values.
  rewrite in_map_iff. split.
  - intros [[k a'] [Ha Hin]]. simpl in Ha. subst a'.
    apply Hspec in Hin. now rewrite (lastById_id _ _ _ Hin).
  - intros H. exists (id a, a). split; [reflexivity|]. now apply Hspec.
Qed.

Lemma dedupe_ids (l : list VirtualsAgent) :
  map id (Js.values (dedupe l)) = Js.keys (dedupe l).
Proof.
  destruct (dedupe_spec l) as [_ Hspec]. unfold Js.values, Js.keys.
  rewrite map_map. apply map_ext_in. intros [k a] Hin. simpl.
  apply Hspec in Hin. now apply lastById_id in Hin.
Qed.

(** *** The sort *)

Lemma insertSorted_perm (a : VirtualsAgent) (l : list VirtualsAgent) :
  Permutation (insertSorted DateParse a l) (a :: l).
Proof.
  induction l as [|b r IH]; simpl; [reflexivity|].
  destruct (launchKey DateParse b <=? launchKey DateParse a); [|reflexivity].
  rewrite IH. apply perm_swap.
Qed.

Lemma insertSorted_hd (a b : VirtualsAgent) (l : list VirtualsAgent) :
  byLaunch b a -> HdRel byLaunch b l -> HdRel byLaunch b (insertSorted DateParse a l).
Proof.
  intros Hba Hbl. destruct l as [|c r]; simpl; [now constructor|].
  destruct (launchKey DateParse c <=? launchKey DateParse a);
    constructor; [now inversion Hbl | assumption].
Qed.

Lemma insertSorted_sorted (a : VirtualsAgent) (l : list VirtualsAgent) :
  Sorted byLaunch l -> Sorted byLaunch (insertSorted DateParse a l).
Proof.
  induction 1 as [|b r Hr IH Hb]; simpl; [repeat constructor|].
  destruct (Z.leb_spec (launchKey DateParse b) (launchKey DateParse a)) as [Hle|Hgt].
  - constructor; [assumption|]. now apply insertSorted_hd.
  - constructor; [now constructor|]. constructor. unfold byLaunch. lia.
Qed.

Lemma sort_fold (l : list VirtualsAgent) :
  forall acc, Sorted byLaunch acc ->
    Sorted byLaunch (fold_left (fun acc a => insertSorted DateParse a acc) l acc)
    /\ Permutation (fold_left (fun acc a => insertSorted DateParse a acc) l acc)
                   (l ++ acc).
Proof.
  induction l as [|a r IH]; intros acc Hacc; simpl; [split; [assumption|reflexivity]|].
  destruct (IH (insertSorted DateParse a acc) (insertSorted_sorted a acc Hacc))
    as [Hs Hp].
  split; [assumption|]. rewrite Hp, insertSorted_perm.
  symmetry. apply Permutation_middle.
Qed.

Lemma sortByLaunch_spec (l : list VirtualsAgent) :
  Sorted byLaunch (sortByLaunch DateParse l)
  /\ Permutation (sortByLaunch DateParse l) l.
Proof.
  destruct (sort_fold l [] (Sorted_nil _)) as [Hs Hp].
  split; [assumption|]. unfold sortByLaunch. now rewrite Hp, app_nil_r.
Qed.

Lemma truthy_filters (a : VirtualsAgent) :
  isInitialized a = true
  <-> status a = "INITIALIZED" /\ truthy (preTokenPair a) = true
      /\ truthy (lpCreatedAt a) = false.
Proof.
  unfold isInitialized. rewrite !andb_true_iff, negb_true_iff.
  destruct (String.eqb_spec (status a) "INITIALIZED"); intuition congruence.
Qed.

Lemma launchesSoon_iff (nowTs : Z) (a : VirtualsAgent) :
  launchesSoon DateParse nowTs a = true
  <-> exists launchTs,
        parseTimestamp DateParse (launchedAt a) = Some launchTs
        /\ nowTs <= launchTs <= nowTs + 10 * 24 * 60 * 60 * 1000.
Proof.
  unfold launchesSoon, tenDaysMs.
  destruct (parseTimestamp DateParse (launchedAt a)) as [ts|].
  - rewrite andb_true_iff, !Z.leb_le. split.
    + intros H. exists ts. split; [reflexivity | lia].
    + intros [ts' [E H]]. inversion E; subst. lia.
  - split; [discriminate | intros [ts' [E _]]; discriminate].
Qed.

Lemma filterSoon_In (clock : nat -> Z) (a : VirtualsAgent)
    (l : list VirtualsAgent) :
  forall j,
    In a (filterSoon DateParse clock j l)
    <-> exists i, nth_error l i = Some a
                  /\ launchesSoon DateParse (clock (j + i)%nat) a = true.
Proof.
  induction l as [|x l IH]; intros j; cbn [filterSoon].
  - split; [intros [] | intros [[|i] [H _]]; discriminate H].
  - assert (Hx : (In a (filterSoon DateParse clock (Datatypes.S j) l)
                  \/ (x = a /\ launchesSoon DateParse (clock j) a = true))
                 <-> exists i, nth_error (x :: l) i = Some a
                               /\ launchesSoon DateParse (clock (j + i)%nat) a
                                  = true).
    { rewrite IH. split.
      - intros [[i [Hi Hs]]|[-> Hs]].
        + exists (Datatypes.S i). split; [exact Hi|].
          now replace (j + Datatypes.S i)%nat with (Datatypes.S j + i)%nat by lia.
        + exists O. split; [reflexivity|]. now rewrite Nat.add_0_r.
      - intros [[|i] [Hi Hs]].
        + right. injection Hi as ->. split; [reflexivity|].
          now rewrite Nat.add_0_r in Hs.
        + left. exists i. split; [exact Hi|].
          now replace (Datatypes.S j + i)%nat with (j + Datatypes.S i)%nat by lia. }
    rewrite <- Hx.
    destruct (launchesSoon DateParse (clock j) x) eqn:Hs; cbn [In].
    + split; [intros [->|H]; [right; now split | now left]
             | intros [H|[-> _]]; [now right | now left]].
    + split; [intros H; now left | intros [H|[-> H]]; [exact H | congruence]].
Qed.

(** *** The order of the result *)

(** The place of the first record of [l] with id [k] (the length of [l]
    when there is none). *)
Fixpoint firstIndex (k : Z) (l : list VirtualsAgent) : nat :=
  match l with
  | [] => O
  | a :: r => if id a =? k then O else Datatypes.S (firstIndex k r)
  end.

(** Ascending by launch time; agents with the same launch time in the
    order in which their ids first occur in the merged list. *)
Definition launchOrder (merged : list VirtualsAgent) (a b : VirtualsAgent) : Prop :=
  launchKey DateParse a < launchKey DateParse b
  \/ (launchKey DateParse a = launchKey DateParse b
      /\ (firstIndex (id a) merged < firstIndex (id b) merged)%nat).

Lemma firstIndex_le (k : Z) (l : list VirtualsAgent) :
  (firstIndex k l <= List.length l)%nat.
Proof.
  induction l as [|a r IH]; simpl; [lia|]. destruct (id a =? k); lia.
Qed.

Lemma firstIndex_app (k : Z) (l : list VirtualsAgent) (x : VirtualsAgent) :
  firstIndex k (l ++ [x])
  = if (firstIndex k l <? List.length l)%nat then firstIndex k l
    else if id x =? k then List.length l else Datatypes.S (List.length l).
Proof.
  induction l as [|a r IH]; simpl.
  - destruct (id x =? k); reflexivity.
  - destruct (id a =? k); [reflexivity|]. rewrite IH.
    change (Datatypes.S (firstIndex k r) <? Datatypes.S (List.length r))%nat
      with (firstIndex k r <? List.length r)%nat.
    destruct (firstIndex k r <? List.length r)%nat; [reflexivity|].
    destruct (id x =? k); reflexivity.
Qed.

Lemma keys_set (k : Z) (v : VirtualsAgent) (m : @Js.Map Z VirtualsAgent) :
  Js.keys (Js.set Z.eqb k v m)
  = if Js.has Z.eqb k m then Js.keys m else Js.keys m ++ [k].
Proof.
  induction m as [|e r IH]; simpl; [reflexivity|].
  destruct (Z.eqb_spec (fst e) k) as [E|E]; simpl.
  - now rewrite E.
  - rewrite IH. unfold Js.has. now destruct (existsb _ r).
Qed.

Lemma StronglySorted_snoc {A} (R : A -> A -> Prop) (l : list A) (x : A) :
  StronglySorted R l -> Forall (fun a => R a x) l -> StronglySorted R (l ++ [x]).
Proof.
  induction 1 as [|a r Hr IH Ha]; intros Hx; simpl.
  - constructor; constructor.
  - inversion Hx as [|? ? Hax Hrx]; subst.
    constructor; [now apply IH|].
    apply Forall_app. split; [assumption | now constructor].
Qed.

Lemma StronglySorted_weaken {A} (R R' : A -> A -> Prop) (l : list A) :
  StronglySorted R l ->
  (forall a b, In a l -> In b l -> R a b -> R' a b) ->
  StronglySorted R' l.
Proof.
  induction 1 as [|a r Hr IH Ha]; intros Himp; constructor.
  - apply IH. intros x y Hx Hy. apply Himp; now right.
  - apply Forall_forall. intros y Hy.
    apply Himp; [now left | now right |].
    exact (proj1 (Forall_forall _ _) Ha y Hy).
Qed.

Lemma StronglySorted_map {A B} (R : B -> B -> Prop) (f : A -> B) (l : list A) :
  StronglySorted R (List.map f l) ->
  StronglySorted (fun a b => R (f a) (f b)) l.
Proof.
  induction l as [|a r IH]; simpl; intros H; [constructor|].
  inversion H as [|? ? Hr Ha]; subst. constructor; [now apply IH|].
  apply Forall_forall. intros y Hy.
  exact (proj1 (Forall_forall _ _) Ha (f y) (in_map f r y Hy)).
Qed.

Lemma firstIndex_found (k : Z) (l : list VirtualsAgent) :
  (firstIndex k l < List.length l)%nat -> In k (Js.keys (dedupe l)).
Proof.
  intros Hlt.
  assert (Hex : exists a, In a l /\ id a = k).
  { induction l as [|a r IH]; simpl in *; [lia|].
    destruct (Z.eqb_spec (id a) k) as [E|E].
    - exists a. split; [now left | exact E].
    - destruct IH as [a' [Ha' Hk]]; [lia|]. exists a'. split; [now right | exact Hk]. }
  destruct Hex as [a [Ha Hk]].
  destruct (lastById l k) as [a'|] eqn:Hlast.
  - apply (proj1 (dedupe_spec l)) in Hlast || idtac.
    apply (proj2 (dedupe_spec l) k a') in Hlast.
    unfold Js.keys. apply in_map_iff. exists (k, a'). split; [reflexivity | exact Hlast].
  - unfold lastById in Hlast.
    pose proof (find_none _ _ Hlast a (proj1 (in_rev l a) Ha)) as Hno.
    cbv beta in Hno. apply Z.eqb_neq in Hno. contradiction.
Qed.

(** The ids of the map are in the order of their first occurrence. *)
Lemma dedupe_order (l : list VirtualsAgent) :
  StronglySorted (fun k1 k2 => (firstIndex k1 l < firstIndex k2 l)%nat)
                 (Js.keys (dedupe l))
  /\ Forall (fun k => (firstIndex k l < List.length l)%nat) (Js.keys (dedupe l)).
Proof.
  induction l as [|x l [Hs Hin]] using rev_ind.
  - split; constructor.
  - rewrite dedupe_snoc, keys_set.
    assert (Hocc : forall k, In k (Js.keys (dedupe l)) ->
                     (firstIndex k l < List.length l)%nat).
    { intros k Hk. exact (proj1 (Forall_forall _ _) Hin k Hk). }
    assert (Hold : forall k, In k (Js.keys (dedupe l)) ->
                     firstIndex k (l ++ [x]) = firstIndex k l).
    { intros k Hk. rewrite firstIndex_app. pose proof (Hocc k Hk) as Hlt.
      destruct (Nat.ltb_spec (firstIndex k l) (List.length l));
        [reflexivity | lia]. }
    assert (Hs' : StronglySorted
                    (fun k1 k2 => (firstIndex k1 (l ++ [x])
                                   < firstIndex k2 (l ++ [x]))%nat)
                    (Js.keys (dedupe l))).
    { apply (StronglySorted_weaken _ _ _ Hs). intros a b Ha Hb Hab.
      now rewrite (Hold a Ha), (Hold b Hb). }
    assert (Hin' : Forall (fun k => (firstIndex k (l ++ [x])
                                     < List.length (l ++ [x]))%nat)
                          (Js.keys (dedupe l))).
    { apply Forall_forall. intros k Hk. rewrite (Hold k Hk), length_app.
      pose proof (Hocc k Hk). simpl. lia. }
    destruct (Js.has Z.eqb (id x) (dedupe l)) eqn:Hhas; [split; assumption|].
    assert (Hnew : firstIndex (id x) (l ++ [x]) = List.length l).
    { rewrite firstIndex_app, Z.eqb_refl.
      destruct (Nat.ltb_spec (firstIndex (id x) l) (List.length l)) as [Hlt|_];
        [|reflexivity].
      exfalso. apply (has_false_notin Z.eqb Z.eqb_spec _ _ Hhas).
      now apply firstIndex_found. }
    split.
    + apply StronglySorted_snoc; [exact Hs'|].
      apply Forall_forall. intros k Hk. rewrite Hnew, (Hold k Hk).
      exact (Hocc k Hk).
    + apply Forall_app. split; [exact Hin'|]. constructor; [|constructor].
      rewrite Hnew, length_app. simpl. lia.
Qed.

Definition firstSeenBefore (merged : list VirtualsAgent) (a b : VirtualsAgent)
  : Prop :=
  (firstIndex (id a) merged < firstIndex (id b) merged)%nat.

Lemma dedupe_values_order (l : list VirtualsAgent) :
  StronglySorted (firstSeenBefore l) (Js.values (dedupe l)).
Proof.
  apply (StronglySorted_map
           (fun k1 k2 => (firstIndex k1 l < firstIndex k2 l)%nat) id).
  rewrite dedupe_ids. apply dedupe_order.
Qed.

Lemma StronglySorted_filter {A} (R : A -> A -> Prop) (f : A -> bool) (l : list A) :
  StronglySorted R l -> StronglySorted R (filter f l).
Proof.
  induction 1 as [|a r Hr IH Ha]; simpl; [constructor|].
  destruct (f a); [|exact IH]. constructor; [exact IH|].
  apply Forall_forall. intros y Hy. apply filter_In in Hy.
  exact (proj1 (Forall_forall _ _) Ha y (proj1 Hy)).
Qed.

Lemma filterSoon_incl (clock : nat -> Z) (l : list VirtualsAgent) :
  forall j a, In a (filterSoon DateParse clock j l) -> In a l.
Proof.
  intros j a H. apply filterSoon_In in H. destruct H as [i [Hi _]].
  exact (nth_error_In _ _ Hi).
Qed.

Lemma StronglySorted_filterSoon (R : VirtualsAgent -> VirtualsAgent -> Prop)
    (clock : nat -> Z) (l : list VirtualsAgent) :
  StronglySorted R l ->
  forall j, StronglySorted R (filterSoon DateParse clock j l).
Proof.
  induction 1 as [|a r Hr IH Ha]; intros j; cbn [filterSoon]; [constructor|].
  destruct (launchesSoon DateParse (clock j) a); [|apply IH].
  constructor; [apply IH|]. apply Forall_forall. intros y Hy.
  exact (proj1 (Forall_forall _ _) Ha y (filterSoon_incl _ _ _ _ Hy)).
Qed.

Lemma insertSorted_In (x z : VirtualsAgent) (l : list VirtualsAgent) :
  In z (insertSorted DateParse x l) <-> z = x \/ In z l.
Proof.
  induction l as [|y r IH]; simpl; [intuition|].
  destruct (launchKey DateParse y <=? launchKey DateParse x); simpl;
    [rewrite IH|]; intuition.
Qed.

Lemma insertSorted_order (merged : list VirtualsAgent) (x : VirtualsAgent)
    (l : list VirtualsAgent) :
  StronglySorted (launchOrder merged) l ->
  Forall (fun y => firstSeenBefore merged y x) l ->
  StronglySorted (launchOrder merged) (insertSorted DateParse x l).
Proof.
  induction 1 as [|y r Hr IH Hy]; intros Hx; simpl.
  - constructor; constructor.
  - inversion Hx as [|? ? Hyx Hrx]; subst.
    destruct (Z.leb_spec (launchKey DateParse y) (launchKey DateParse x))
      as [Hle|Hgt].
    + constructor; [now apply IH|]. apply Forall_forall. intros z Hz.
      apply insertSorted_In in Hz. destruct Hz as [->|Hz].
      * unfold launchOrder, firstSeenBefore in *.
        destruct (Z.eq_dec (launchKey DateParse y) (launchKey DateParse x));
          [right; split; assumption | left; lia].
      * exact (proj1 (Forall_forall _ _) Hy z Hz).
    + constructor; [constructor; assumption|].
      constructor; [left; exact Hgt|].
      apply Forall_forall. intros z Hz.
      pose proof (proj1 (Forall_forall _ _) Hy z Hz) as Hyz.
      unfold launchOrder in *. left. lia.
Qed.

Lemma sortByLaunch_order (merged : list VirtualsAgent) (l : list VirtualsAgent) :
  StronglySorted (firstSeenBefore merged) l ->
  StronglySorted (launchOrder merged) (sortByLaunch DateParse l).
Proof.
  unfold sortByLaunch.
  assert (H : forall acc,
             StronglySorted (firstSeenBefore merged) l ->
             StronglySorted (launchOrder merged) acc ->
             Forall (fun y => Forall (firstSeenBefore merged y) l) acc ->
             StronglySorted (launchOrder merged)
               (fold_left (fun acc a => insertSorted DateParse a acc) l acc)).
  { induction l as [|x l IH]; intros acc Hl Hacc Hbefore; simpl; [exact Hacc|].
    inversion Hl as [|? ? Hl' Hxl]; subst.
    apply IH; [exact Hl'| |].
    - apply insertSorted_order; [exact Hacc|].
      apply Forall_forall. intros y Hy.
      pose proof (proj1 (Forall_forall _ _) Hbefore y Hy) as Hyl.
      now inversion Hyl.
    - apply Forall_forall. intros y Hy. apply insertSorted_In in Hy.
      destruct Hy as [->|Hy]; [exact Hxl|].
      pose proof (proj1 (Forall_forall _ _) Hbefore y Hy) as Hyl.
      now inversion Hyl. }
  intros Hl. apply H; [exact Hl | constructor | constructor].
Qed.

(** The agent the second filter examines in place [j]: the [j]-th of the
    last records, taken in the order of the first occurrence of their ids,
    that pass the first filter. *)
Definition examined (merged : list VirtualsAgent) (j : nat) (a : VirtualsAgent)
  : Prop :=
  nth_error (filter isInitialized (Js.values (dedupe merged))) j = Some a.

Lemma examined_In (merged : list VirtualsAgent) (a : VirtualsAgent) :
  (exists j, examined merged j a)
  <-> lastById merged (id a) = Some a
      /\ status a = "INITIALIZED"
      /\ truthy (preTokenPair a) = true
      /\ truthy (lpCreatedAt a) = false.
Proof.
  unfold examined. rewrite <- dedupe_values, <- truthy_filters, <- filter_In.
  split.
  - intros [j Hj]. exact (nth_error_In _ _ Hj).
  - intros H. apply In_nth_error in H. exact H.
Qed.

(** C8, as amended: a call that finds the cache cold or expired and no
    fetch under way, and whose three fetches succeed, caches and returns
    the agents of the merged lists (VIBES_BONDING_V2, then BONDING_V4,
    then BONDING_V2), one per id, each id being represented by the last
    record carrying it; of these it keeps the ones with status
    INITIALIZED, a non-empty preTokenPair, no lpCreatedAt and a launch
    time within [t, t + 10 days], t being the clock as read when the agent
    is examined; the result is sorted ascending by launch time, agents
    with the same launch time in the order in which their ids first occur
    in the merged list.  When every reading of the clock lies between [lo]
    and [hi], the launch times kept lie within [lo, hi + 10 days] and
    every launch time within [hi, lo + 10 days] is kept. *)
Theorem upcoming_launches_spec (api : VirtualsApi.t) (now : Z)
    (clock : nat -> Z) (doneTs : Z) (settled : list nat)
    (vibes unicorn unicornV2 : list VirtualsAgent) :
  (forall ts data, upcomingCache api = Some (ts, data) -> cacheTtlMs <= now - ts) ->
  upcomingInFlight api = None ->
  let merged := vibes ++ unicorn ++ unicornV2 in
  let kept (a : VirtualsAgent) :=
    lastById merged (id a) = Some a
    /\ status a = "INITIALIZED"
    /\ truthy (preTokenPair a) = true
    /\ truthy (lpCreatedAt a) = false in
  exists r,
    getUpcomingLaunches DateParse api now clock doneTs settled
                        (Ok vibes) (Ok unicorn) (Ok unicornV2)
    = (VirtualsApi.mk (Some (doneTs, r)) None, Ok r)
    /\ (forall a,
          In a r <->
          kept a
          /\ exists j launchTs,
               examined merged j a
               /\ parseTimestamp DateParse (launchedAt a) = Some launchTs
               /\ clock j <= launchTs <= clock j + 10 * 24 * 60 * 60 * 1000)
    /\ NoDup (map id r)
    /\ StronglySorted (launchOrder merged) r
    /\ (forall lo hi,
          (forall j, lo <= clock j <= hi) ->
          forall a launchTs,
            parseTimestamp DateParse (launchedAt a) = Some launchTs ->
            (In a r -> lo <= launchTs <= hi + 10 * 24 * 60 * 60 * 1000)
            /\ (kept a -> hi <= launchTs <= lo + 10 * 24 * 60 * 60 * 1000 ->
                In a r)).
Proof.
  intros Hmiss Hidle merged kept.
  set (candidates := filter isInitialized (Js.values (dedupe merged))).
  exists (computeUpcoming DateParse clock vibes unicorn unicornV2).
  assert (Hmem : forall a,
             In a (computeUpcoming DateParse clock vibes unicorn unicornV2)
             <-> kept a
                 /\ exists j launchTs,
                      examined merged j a
                      /\ parseTimestamp DateParse (launchedAt a) = Some launchTs
                      /\ clock j <= launchTs
                         <= clock j + 10 * 24 * 60 * 60 * 1000).
  { intros a. unfold computeUpcoming. fold merged. fold candidates.
    destruct (sortByLaunch_spec (filterSoon DateParse clock 0 candidates))
      as [_ Hp].
    split.
    - intros Hin. apply (Permutation_in _ Hp) in Hin.
      apply filterSoon_In in Hin. destruct Hin as [j [Hj Hsoon]].
      cbn [Nat.add] in Hsoon.
      split; [apply examined_In; now exists j|].
      apply launchesSoon_iff in Hsoon. destruct Hsoon as [ts [Hts Hrange]].
      exists j, ts. split; [exact Hj|]. split; [exact Hts | exact Hrange].
    - intros [_ [j [ts [Hj [Hts Hrange]]]]].
      apply (Permutation_in _ (Permutation_sym Hp)).
      apply filterSoon_In. exists j. split; [exact Hj|]. cbn [Nat.add].
      apply launchesSoon_iff. exists ts. split; [exact Hts | exact Hrange]. }
  split; [|split; [exact Hmem|split; [|split]]].
  - unfold getUpcomingLaunches. rewrite Hidle.
    destruct (upcomingCache api) as [[ts data]|] eqn:Hc; [|reflexivity].
    specialize (Hmiss ts data eq_refl).
    destruct (Z.ltb_spec (now - ts) cacheTtlMs); [lia | reflexivity].
  - unfold computeUpcoming. fold merged. fold candidates.
    destruct (sortByLaunch_spec (filterSoon DateParse clock 0 candidates))
      as [_ Hp].
    apply (Permutation_NoDup (Permutation_map id (Permutation_sym Hp))).
    assert (Hnd : NoDup (map id (Js.values (dedupe merged))))
      by (rewrite dedupe_ids; apply dedupe_spec).
    assert (Hsub : forall (l : list VirtualsAgent) j,
               NoDup (map id l) ->
               NoDup (map id (filterSoon DateParse clock j l))).
    { induction l as [|x l IH]; intros j Hl; cbn [filterSoon]; [constructor|].
      inversion Hl as [|? ? Hx Hl']; subst.
      destruct (launchesSoon DateParse (clock j) x); [|now apply IH].
      simpl. constructor; [|now apply IH]. intros Hin. apply Hx.
      apply in_map_iff in Hin. destruct Hin as [u [Hu Hin]].
      rewrite <- Hu. apply in_map. exact (filterSoon_incl _ _ _ _ Hin). }
    apply Hsub. unfold candidates. clear - Hnd.
    induction (Js.values (dedupe merged)) as [|x l IH]; simpl; [constructor|].
    inversion Hnd as [|? ? Hx Hl]; subst.
    destruct (isInitialized x); [|now apply IH].
    simpl. constructor; [|now apply IH]. intros Hin. apply Hx.
    apply in_map_iff in Hin. destruct Hin as [u [Hu Hin]].
    rewrite <- Hu. apply in_map. apply filter_In in Hin. tauto.
  - unfold computeUpcoming. fold merged. fold candidates.
    apply sortByLaunch_order. apply StronglySorted_filterSoon.
    apply StronglySorted_filter. apply dedupe_values_order.
  - intros lo hi Hclock a launchTs Hts. split.
    + intros Hin. apply Hmem in Hin.
      destruct Hin as [_ [j [ts [_ [Hts' Hrange]]]]].
      rewrite Hts in Hts'. injection Hts' as <-.
      pose proof (Hclock j). lia.
    + intros Hkept Hrange. apply Hmem. split; [exact Hkept|].
      destruct (proj2 (examined_In merged a) Hkept) as [j Hj].
      exists j, launchTs. split; [exact Hj|]. split; [exact Hts|].
      pose proof (Hclock j). lia.
Qed.

End VirtualsApiProps.

(** *** Concrete runs of the catalog client *)

(** [Date.parse] on the three dates used below. *)
Definition parseDemo (s : string) : option Z :=
  if String.eqb s "1970-01-01T00:00:04Z" then Some 4000
  else if String.eqb s "1970-01-01T00:00:05Z" then Some 5000
  else if String.eqb s "1970-01-01T00:00:06Z" then Some 6000
  else None.

Definition coldApi : VirtualsApi.t := VirtualsApi.mk None None.

(** The clock of a filter pass that starts at 1000, takes a millisecond
    per agent and is over by 1005. *)
Definition ticking (j : nat) : Z := Z.min (1000 + Z.of_nat j) 1005.

(** Agent 7 as the first list has it, and two later records with the same
    id: one that has left the INITIALIZED status, one with a later launch. *)
Definition firstSeen : VirtualsApi.VirtualsAgent :=
  VirtualsApi.mkAgent 7 "ALPHA" "INITIALIZED" (Some "0xpair") None
                      (Some "1970-01-01T00:00:05Z").

Definition seenUndergrad : VirtualsApi.VirtualsAgent :=
  VirtualsApi.mkAgent 7 "ALPHA" "UNDERGRAD" (Some "0xpair") None
                      (Some "1970-01-01T00:00:05Z").

Definition seenPostponed : VirtualsApi.VirtualsAgent :=
  VirtualsApi.mkAgent 7 "ALPHA" "INITIALIZED" (Some "0xpair") None
                      (Some "1970-01-01T00:00:06Z").

Definition agent8 : VirtualsApi.VirtualsAgent :=
  VirtualsApi.mkAgent 8 "BETA" "INITIALIZED" (Some "0xpair8") (Some "")
                      (Some "1970-01-01T00:00:04Z").

(** An agent that launches together with agent 7's later record. *)
Definition agent9 : VirtualsApi.VirtualsAgent :=
  VirtualsApi.mkAgent 9 "GAMMA" "INITIALIZED" (Some "0xpair9") None
                      (Some "1970-01-01T00:00:06Z").

(** Agent 7 comes before agent 9 although the record of agent 7 that is
    returned is listed after agent 9: its id occurs first. *)
Example upcoming_scenario :
  snd (VirtualsApi.getUpcomingLaunches parseDemo coldApi 1000 ticking 1005
         [2; 0; 1]%nat
         (Js.Ok [firstSeen]) (Js.Ok [agent9; agent8]) (Js.Ok [seenPostponed]))
  = Js.Ok [agent8; seenPostponed; agent9].
Proof. vm_compute. reflexivity. Qed.

Lemma upcoming_launches_spec_witness :
  (forall ts data, VirtualsApi.upcomingCache coldApi = Some (ts, data) ->
                   VirtualsApi.cacheTtlMs <= 1000 - ts)
  /\ VirtualsApi.upcomingInFlight coldApi = None
  /\ exists r,
       VirtualsApi.getUpcomingLaunches parseDemo coldApi 1000 ticking 1005
         [2; 0; 1]%nat
         (Js.Ok [firstSeen]) (Js.Ok [agent9; agent8]) (Js.Ok [seenPostponed])
       = (VirtualsApi.mk (Some (1005, r)) None, Js.Ok r)
       /\ NoDup (map VirtualsApi.id r)
       /\ StronglySorted
            (launchOrder parseDemo ([firstSeen] ++ [agent9; agent8] ++ [seenPostponed]))
            r
       /\ In seenPostponed r.
Proof.
  assert (Hmiss : forall ts data,
             VirtualsApi.upcomingCache coldApi = Some (ts, data) ->
             VirtualsApi.cacheTtlMs <= 1000 - ts)
    by (intros ts data H; discriminate H).
  split; [exact Hmiss|]. split; [reflexivity|].
  destruct (upcoming_launches_spec parseDemo coldApi 1000 ticking 1005
              [2; 0; 1]%nat [firstSeen] [agent9; agent8] [seenPostponed]
              Hmiss eq_refl)
    as [r [Hr [_ [Hnd [Hs Hbounds]]]]].
  exists r. split; [exact Hr|]. split; [exact Hnd|]. split; [exact Hs|].
  assert (Hclock : forall j, 1000 <= ticking j <= 1005)
    by (intros j; unfold ticking; lia).
  destruct (Hbounds 1000 1005 Hclock seenPostponed 6000 eq_refl) as [_ Hin].
  apply Hin; [repeat split; reflexivity | vm_compute; split; discriminate].
Defined.

(** C8 fails as stated: the first record with id 7 passes every filter,
    yet it is not what comes out.  When a later list carries the same id
    with another status the agent is dropped altogether, and when the later
    record differs in its launch date it is the later record that is
    returned. *)
Lemma upcoming_launches_counterexample :
  VirtualsApi.isInitialized firstSeen = true
  /\ VirtualsApi.launchesSoon parseDemo 1000 firstSeen = true
  /\ snd (VirtualsApi.getUpcomingLaunches parseDemo coldApi 1000 ticking 1005 []
            (Js.Ok [firstSeen]) (Js.Ok [seenUndergrad]) (Js.Ok []))
     = Js.Ok []
  /\ snd (VirtualsApi.getUpcomingLaunches parseDemo coldApi 1000 ticking 1005 []
            (Js.Ok [firstSeen]) (Js.Ok []) (Js.Ok [seenPostponed]))
     = Js.Ok [seenPostponed]
  /\ seenPostponed <> firstSeen.
Proof.
  repeat split; try (vm_compute; reflexivity). intros H. discriminate H.
Qed.

(* ===================================================================== *)
(** * Part III: further properties of the modelled code                   *)
(* ===================================================================== *)

(** ** The LRU cache *)

Section LruProps.
Context {K V : Type} (keq : K -> K -> bool).
Hypothesis keq_spec : forall a b, reflect (a = b) (keq a b).

(** The key order after key [k] became the newest. *)
Definition touched (k : K) (ks : list K) : list K :=
  filter (fun x => negb (keq x k)) ks ++ [k].

Lemma keys_delete (k : K) (m : @Js.Map K V) :
  Js.keys (Js.delete keq k m) = filter (fun x => negb (keq x k)) (Js.keys m).
Proof.
  induction m as [|e r IH]; simpl; [reflexivity|].
  destruct (keq (fst e) k); simpl; now rewrite IH.
Qed.

Lemma has_delete (k : K) (m : @Js.Map K V) :
  Js.has keq k (Js.delete keq k m) = false.
Proof.
  destruct (Js.has keq k (Js.delete keq k m)) eqn:E; [|reflexivity].
  apply (has_In keq keq_spec) in E. rewrite keys_delete in E.
  apply filter_In in E. destruct E as [_ E].
  destruct (keq_spec k k); [discriminate | congruence].
Qed.

Lemma NoDup_filter_keys (f : K -> bool) (ks : list K) :
  NoDup ks -> NoDup (filter f ks).
Proof.
  induction 1 as [|x l Hx Hl IH]; simpl; [constructor|].
  destruct (f x); [|assumption]. constructor; [|assumption].
  intros Hin. apply filter_In in Hin. tauto.
Qed.

Lemma filter_length_In (k : K) (ks : list K) :
  NoDup ks -> In k ks ->
  S (List.length (filter (fun x => negb (keq x k)) ks)) = List.length ks.
Proof.
  induction 1 as [|x l Hx Hl IH]; simpl; [intros []|].
  intros [E|Hin].
  - subst x. destruct (keq_spec k k); [|congruence]. simpl.
    f_equal. f_equal. clear IH Hl. induction l as [|y l IH]; simpl; [reflexivity|].
    destruct (keq_spec y k) as [E|E]; simpl.
    + exfalso. apply Hx. left. exact E.
    + f_equal. apply IH. intros H. apply Hx. now right.
  - destruct (keq_spec x k) as [E|E]; simpl.
    + subst x. contradiction.
    + f_equal. now apply IH.
Qed.

Lemma get_app (k : K) (m1 m2 : @Js.Map K V) :
  Js.get keq k (m1 ++ m2)
  = match Js.get keq k m1 with Some v => Some v | None => Js.get keq k m2 end.
Proof.
  unfold Js.get. induction m1 as [|e r IH]; simpl; [reflexivity|].
  destruct (keq (fst e) k); simpl; [reflexivity | exact IH].
Qed.

Lemma get_None (k : K) (m : @Js.Map K V) :
  Js.has keq k m = false -> Js.get keq k m = None.
Proof.
  unfold Js.get, Js.has. induction m as [|e r IH]; simpl; [reflexivity|].
  destruct (keq (fst e) k); simpl; [discriminate | exact IH].
Qed.

Lemma get_Some (k : K) (m : @Js.Map K V) :
  Js.has keq k m = true -> exists v, Js.get keq k m = Some v.
Proof.
  unfold Js.get, Js.has. induction m as [|e r IH]; simpl; [discriminate|].
  destruct (keq (fst e) k); simpl; [eauto | exact IH].
Qed.

Lemma get_delete_other (k k' : K) (m : @Js.Map K V) :
  k' <> k -> Js.get keq k' (Js.delete keq k m) = Js.get keq k' m.
Proof.
  intros Hne. unfold Js.get. induction m as [|e r IH]; simpl; [reflexivity|].
  destruct (keq_spec (fst e) k) as [E|E]; simpl.
  - destruct (keq_spec (fst e) k'); [congruence | exact IH].
  - destruct (keq (fst e) k'); simpl; [reflexivity | exact IH].
Qed.

Lemma get_snoc_same (k : K) (v : V) (m : @Js.Map K V) :
  Js.has keq k m = false -> Js.get keq k (m ++ [(k, v)]) = Some v.
Proof.
  intros H. rewrite get_app, (get_None _ _ H). unfold Js.get. simpl.
  destruct (keq_spec k k); [reflexivity | congruence].
Qed.

Lemma get_snoc_other (k k' : K) (v : V) (m : @Js.Map K V) :
  k' <> k -> Js.get keq k' (m ++ [(k, v)]) = Js.get keq k' m.
Proof.
  intros Hne. rewrite get_app. destruct (Js.get keq k' m); [reflexivity|].
  unfold Js.get. simpl. destruct (keq_spec k k'); [congruence | reflexivity].
Qed.

(** What the cache looks like before [Map.set] in [LRUCache.set]. *)
Definition evicted (k : K) (c : LRUCache.t K V) : @Js.Map K V :=
  if Js.has keq k (LRUCache.cache c) then Js.delete keq k (LRUCache.cache c)
  else if (LRUCache.maxSize c <=? Js.size (LRUCache.cache c))%nat
       then tl (LRUCache.cache c) else LRUCache.cache c.

Lemma set_shape (k : K) (v : V) (c : LRUCache.t K V) :
  NoDup (Js.keys (LRUCache.cache c)) ->
  LRUCache.cache (LRUCache.set keq k v c) = evicted k c ++ [(k, v)]
  /\ Js.has keq k (evicted k c) = false.
Proof.
  intros Hnd. unfold LRUCache.set, evicted. simpl.
  destruct (Js.has keq k (LRUCache.cache c)) eqn:Hhas.
  - pose proof (has_delete k (LRUCache.cache c)) as Hd.
    split; [now apply set_fresh | assumption].
  - destruct (LRUCache.maxSize c <=? Js.size (LRUCache.cache c))%nat.
    + destruct (LRUCache.cache c) as [|e r] eqn:Hc; simpl.
      * split; reflexivity.
      * rewrite <- Hc in Hnd. rewrite Hc in Hnd.
        destruct (keq_spec (fst e) (fst e)); [|congruence]. simpl.
        inversion Hnd as [|x l Hx Hl]; subst.
        rewrite (delete_notin keq keq_spec) by assumption.
        assert (Hr : Js.has keq k r = false).
        { simpl in Hhas. destruct (keq (fst e) k); [discriminate | assumption]. }
        split; [now apply set_fresh | assumption].
    + split; [now apply set_fresh | assumption].
Qed.

Lemma evicted_keys (k : K) (c : LRUCache.t K V) :
  Js.keys (evicted k c)
  = if Js.has keq k (LRUCache.cache c)
    then filter (fun x => negb (keq x k)) (Js.keys (LRUCache.cache c))
    else if (List.length (LRUCache.cache c) <? LRUCache.maxSize c)%nat
         then Js.keys (LRUCache.cache c)
         else tl (Js.keys (LRUCache.cache c)).
Proof.
  unfold evicted, Js.size.
  destruct (Js.has keq k (LRUCache.cache c)); [apply keys_delete|].
  destruct (Nat.leb_spec (LRUCache.maxSize c) (List.length (LRUCache.cache c)));
    destruct (Nat.ltb_spec (List.length (LRUCache.cache c)) (LRUCache.maxSize c));
    try lia; try reflexivity.
  unfold Js.keys. now destruct (LRUCache.cache c).
Qed.

Lemma evicted_NoDup (k : K) (c : LRUCache.t K V) :
  NoDup (Js.keys (LRUCache.cache c)) -> NoDup (Js.keys (evicted k c)).
Proof.
  intros Hnd. rewrite evicted_keys.
  destruct (Js.has keq k (LRUCache.cache c)); [now apply NoDup_filter_keys|].
  destruct (List.length (LRUCache.cache c) <? LRUCache.maxSize c)%nat;
    [assumption|].
  destruct (Js.keys (LRUCache.cache c)); simpl; [constructor|].
  now inversion Hnd.
Qed.

Lemma evicted_length (k : K) (c : LRUCache.t K V) :
  NoDup (Js.keys (LRUCache.cache c)) ->
  (1 <= LRUCache.maxSize c)%nat ->
  (List.length (LRUCache.cache c) <= LRUCache.maxSize c)%nat ->
  (S (List.length (evicted k c)) <= LRUCache.maxSize c)%nat.
Proof.
  intros Hnd Hcap Hsize.
  replace (List.length (evicted k c)) with (List.length (Js.keys (evicted k c)))
    by (unfold Js.keys; apply length_map).
  rewrite evicted_keys.
  assert (Hl : List.length (Js.keys (LRUCache.cache c))
               = List.length (LRUCache.cache c))
    by (unfold Js.keys; apply length_map).
  destruct (Js.has keq k (LRUCache.cache c)) eqn:Hhas.
  - apply (has_In keq keq_spec) in Hhas.
    pose proof (filter_length_In k _ Hnd Hhas). lia.
  - destruct (Nat.ltb_spec (List.length (LRUCache.cache c)) (LRUCache.maxSize c)).
    + lia.
    + destruct (Js.keys (LRUCache.cache c)); simpl in *; lia.
Qed.

(** A cache whose keys are distinct and whose size is within a capacity of
    at least one. *)
Definition wellFormed (c : LRUCache.t K V) : Prop :=
  NoDup (Js.keys (LRUCache.cache c))
  /\ (1 <= LRUCache.maxSize c)%nat
  /\ (LRUCache.size c <= LRUCache.maxSize c)%nat.

Lemma set_wellFormed (k : K) (v : V) (c : LRUCache.t K V) :
  wellFormed c ->
  wellFormed (LRUCache.set keq k v c)
  /\ LRUCache.maxSize (LRUCache.set keq k v c) = LRUCache.maxSize c.
Proof.
  intros [Hnd [Hcap Hsize]]. unfold wellFormed, LRUCache.size, Js.size in *.
  destruct (set_shape k v c Hnd) as [Hshape Hfresh]. rewrite Hshape.
  split; [|reflexivity]. split; [|split; [exact Hcap|]].
  - unfold Js.keys. rewrite map_app. simpl.
    apply NoDup_snoc; [now apply evicted_NoDup|].
    now apply (has_false_notin keq keq_spec).
  - simpl. rewrite length_app. simpl.
    pose proof (evicted_length k c Hnd Hcap Hsize). lia.
Qed.

Lemma has_set (k : K) (v : V) (m : @Js.Map K V) :
  Js.has keq k (Js.set keq k v m) = true.
Proof.
  induction m as [|e r IH]; simpl.
  - destruct (keq_spec k k); [reflexivity | congruence].
  - destruct (keq (fst e) k) eqn:E; simpl.
    + destruct (keq_spec k k); [reflexivity | congruence].
    + rewrite E. exact IH.
Qed.

(** X1: [set] followed by a lookup finds the value just stored; the keys
    stay distinct and the cache never grows beyond its capacity; a key that
    was present is moved to the newest position, a new key evicts the
    oldest one only when the cache is full, and every other key that is
    still present keeps its value. *)
Theorem lru_set_lookup (k : K) (v : V) (c : LRUCache.t K V) :
  NoDup (Js.keys (LRUCache.cache c)) ->
  (1 <= LRUCache.maxSize c)%nat ->
  (LRUCache.size c <= LRUCache.maxSize c)%nat ->
  let c' := LRUCache.set keq k v c in
  LRUCache.has keq k c' = true
  /\ Js.get keq k (LRUCache.cache c') = Some v
  /\ NoDup (Js.keys (LRUCache.cache c'))
  /\ (LRUCache.size c' <= LRUCache.maxSize c')%nat
  /\ Js.keys (LRUCache.cache c')
     = (if LRUCache.has keq k c then filter (fun x => negb (keq x k))
                                          (Js.keys (LRUCache.cache c))
        else if (LRUCache.size c <? LRUCache.maxSize c)%nat
             then Js.keys (LRUCache.cache c)
             else tl (Js.keys (LRUCache.cache c))) ++ [k]
  /\ (forall k', k' <> k -> In k' (Js.keys (LRUCache.cache c')) ->
        Js.get keq k' (LRUCache.cache c') = Js.get keq k' (LRUCache.cache c)).
Proof.
  intros Hnd Hcap Hsize c'. subst c'.
  destruct (set_shape k v c Hnd) as [Hshape Hfresh].
  pose proof (evicted_NoDup k c Hnd) as Hnd'.
  pose proof (evicted_length k c Hnd Hcap Hsize) as Hlen.
  unfold LRUCache.has, LRUCache.size, Js.size in *. rewrite Hshape.
  split; [|split; [|split; [|split; [|split]]]].
  - apply (has_In keq keq_spec). unfold Js.keys. rewrite map_app.
    apply in_or_app. right. now left.
  - now apply get_snoc_same.
  - unfold Js.keys. rewrite map_app. simpl. apply NoDup_snoc; [exact Hnd'|].
    now apply (has_false_notin keq keq_spec).
  - simpl. rewrite length_app. simpl. lia.
  - unfold Js.keys at 1. rewrite map_app. simpl. f_equal. apply evicted_keys.
  - intros k' Hne Hin. rewrite get_snoc_other by assumption.
    unfold Js.keys in Hin. rewrite map_app in Hin. apply in_app_or in Hin.
    destruct Hin as [Hin|[E|[]]]; [|simpl in E; congruence].
    unfold evicted in *.
    destruct (Js.has keq k (LRUCache.cache c)); [now apply get_delete_other|].
    destruct (LRUCache.maxSize c <=? Js.size (LRUCache.cache c))%nat; [|reflexivity].
    destruct (LRUCache.cache c) as [|e r]; [reflexivity|]. simpl in *.
    inversion Hnd as [|x l Hx Hl]; subst. unfold Js.get. simpl.
    destruct (keq_spec (fst e) k') as [E|E]; [|reflexivity].
    exfalso. apply Hx. now rewrite E.
Qed.

(** X2: [get] of a key that is absent returns nothing and leaves the cache
    as it is; [get] of a key that is present returns its value, moves the
    key to the newest position and keeps every key and the size. *)
Theorem lru_get_refreshes (k : K) (c : LRUCache.t K V) :
  NoDup (Js.keys (LRUCache.cache c)) ->
  (LRUCache.has keq k c = false -> LRUCache.get keq k c = (c, None))
  /\ (LRUCache.has keq k c = true ->
      exists v,
        snd (LRUCache.get keq k c) = Some v
        /\ Js.get keq k (LRUCache.cache c) = Some v
        /\ Js.get keq k (LRUCache.cache (fst (LRUCache.get keq k c))) = Some v
        /\ Js.keys (LRUCache.cache (fst (LRUCache.get keq k c)))
           = touched k (Js.keys (LRUCache.cache c))
        /\ LRUCache.size (fst (LRUCache.get keq k c)) = LRUCache.size c).
Proof.
  intros Hnd. unfold LRUCache.has, LRUCache.get. split; intros Hhas.
  - now rewrite (get_None _ _ Hhas).
  - destruct (get_Some _ _ Hhas) as [v Hv]. rewrite Hv. simpl.
    exists v. split; [reflexivity|]. split; [reflexivity|].
    pose proof (has_delete k (LRUCache.cache c)) as Hd.
    rewrite (set_fresh keq k v _ Hd). split; [now apply get_snoc_same|].
    split.
    + unfold Js.keys at 1. rewrite map_app. simpl. unfold touched. f_equal.
      apply keys_delete.
    + unfold LRUCache.size, Js.size. simpl. rewrite length_app. simpl.
      replace (List.length (Js.delete keq k (LRUCache.cache c)))
        with (List.length (Js.keys (Js.delete keq k (LRUCache.cache c))))
        by (unfold Js.keys; apply length_map).
      rewrite keys_delete. apply (has_In keq keq_spec) in Hhas.
      pose proof (filter_length_In k _ Hnd Hhas) as Hl.
      unfold Js.keys in Hl at 2. rewrite length_map in Hl. lia.
Qed.

End LruProps.

(** *** Concrete caches *)

(** A cache of capacity 2 holding "a" (older) and "b" (newer). *)
Definition cacheAB : LRUCache.t string Z :=
  LRUCache.set String.eqb "b" 2
    (LRUCache.set String.eqb "a" 1 (LRUCache.new 2)).

Lemma cacheAB_keys : NoDup (Js.keys (LRUCache.cache cacheAB)).
Proof. vm_compute. repeat constructor; simpl; intuition discriminate. Qed.

Lemma lru_set_lookup_witness :
  NoDup (Js.keys (LRUCache.cache cacheAB))
  /\ (1 <= LRUCache.maxSize cacheAB)%nat
  /\ (LRUCache.size cacheAB <= LRUCache.maxSize cacheAB)%nat
  /\ Js.get String.eqb "c"
       (LRUCache.cache (LRUCache.set String.eqb "c" 3 cacheAB)) = Some 3
  /\ Js.keys (LRUCache.cache (LRUCache.set String.eqb "c" 3 cacheAB))
     = ["b"; "c"].
Proof.
  assert (H1 : (1 <= LRUCache.maxSize cacheAB)%nat) by (vm_compute; lia).
  assert (H2 : (LRUCache.size cacheAB <= LRUCache.maxSize cacheAB)%nat)
    by (vm_compute; lia).
  destruct (lru_set_lookup String.eqb String.eqb_spec "c" 3 cacheAB
              cacheAB_keys H1 H2) as [_ [Hget [_ [_ [Hkeys _]]]]].
  split; [exact cacheAB_keys|]. split; [exact H1|]. split; [exact H2|].
  split; [exact Hget | exact Hkeys].
Defined.

Lemma lru_get_refreshes_witness :
  NoDup (Js.keys (LRUCache.cache cacheAB))
  /\ LRUCache.has String.eqb "a" cacheAB = true
  /\ LRUCache.has String.eqb "z" cacheAB = false
  /\ LRUCache.get String.eqb "z" cacheAB = (cacheAB, None)
  /\ (exists v,
        snd (LRUCache.get String.eqb "a" cacheAB) = Some v
        /\ Js.keys (LRUCache.cache (fst (LRUCache.get String.eqb "a" cacheAB)))
           = ["b"; "a"]).
Proof.
  destruct (lru_get_refreshes String.eqb String.eqb_spec "z" cacheAB cacheAB_keys)
    as [Hmiss _].
  destruct (lru_get_refreshes String.eqb String.eqb_spec "a" cacheAB cacheAB_keys)
    as [_ Hhit].
  split; [exact cacheAB_keys|]. split; [reflexivity|]. split; [reflexivity|].
  split; [exact (Hmiss eq_refl)|].
  destruct (Hhit eq_refl) as [v [Hv [_ [_ [Hk _]]]]].
  exists v. split; [exact Hv | exact Hk].
Defined.

(** ** The whale-trade detector, continued *)

Section WhaleTradesMore.
Import WhaleTrades.

(** One event either leaves the monitor alone or marks its hash; a trade
    comes out only in the second case. *)
Lemma handle_effect (w : t) (e : Event) :
  (handle w e = (w, None))
  \/ (cached (eventHash e) w = false
      /\ fst (handle w e)
         = withCache w (LRUCache.set String.eqb (eventHash e) true (lruCache w))
      /\ forall tr, snd (handle w e) = Some tr ->
           txHash tr = eventHash e
           /\ threshold w <= amountVirtual tr
           /\ 0 <= amountToken tr).
Proof.
  unfold cached.
  destruct e as [s a0i a1i a0o a1o h b n | f t0 v h b n]; simpl.
  - unfold handleSwap.
    destruct (LRUCache.has String.eqb h (lruCache w)); [now left|].
    match goal with |- context [if ?c <? threshold w then _ else _] =>
      destruct (Z.ltb_spec c (threshold w)) as [Hlt|Hge] end; [now left|].
    right. split; [reflexivity|]. split; [reflexivity|]. simpl.
    intros tr Htr. destruct (onWhaleTrade w); [|discriminate].
    inversion Htr; subst; simpl. split; [reflexivity|]. split; [exact Hge|].
    match goal with |- context [if ?c <? 0 then _ else _] =>
      destruct (Z.ltb_spec c 0) end; lia.
  - unfold handleTransfer.
    match goal with |- context [if ?c && ?d then _ else _] =>
      destruct (c && d) end; [now left|].
    destruct (LRUCache.has String.eqb h (lruCache w)); [now left|].
    destruct (Z.ltb_spec v (threshold w)) as [Hlt|Hge]; [now left|].
    right. split; [reflexivity|]. split; [reflexivity|]. simpl.
    intros tr Htr. destruct (onWhaleTrade w); [|discriminate].
    inversion Htr; subst; simpl. split; [reflexivity|]. split; [exact Hge | lia].
Qed.

Lemma handle_threshold (w : t) (e : Event) :
  threshold (fst (handle w e)) = threshold w.
Proof.
  destruct (handle_effect w e) as [H | [_ [H _]]]; rewrite H; reflexivity.
Qed.

(** X3: every trade a run hands to the callback moves at least the
    threshold in base tokens, has a non-negative project-token amount and
    carries the transaction hash of one of the events of the stream; a run
    never emits more trades than it received events. *)
Theorem whale_trades_sound (evs : list Event) (w : t) :
  Forall (fun tr => threshold w <= amountVirtual tr
                    /\ 0 <= amountToken tr
                    /\ In (txHash tr) (map eventHash evs))
         (snd (run w evs))
  /\ (List.length (snd (run w evs)) <= List.length evs)%nat.
Proof.
  revert w. induction evs as [|e r IH]; intros w; simpl.
  - split; [constructor | lia].
  - pose proof (handle_threshold w e) as Hthr.
    destruct (handle_effect w e) as [Hskip | [_ [_ Hemit]]].
    + rewrite Hskip. destruct (IH w) as [Hall Hlen].
      destruct (run w r) as [w2 out]. simpl in *. split; [|lia].
      eapply Forall_impl; [|exact Hall]. simpl. tauto.
    + destruct (handle w e) as [w1 o]. simpl in *.
      destruct (IH w1) as [Hall Hlen]. rewrite Hthr in Hall.
      destruct (run w1 r) as [w2 out]. simpl in *.
      assert (Hrest : Forall (fun tr => threshold w <= amountVirtual tr
                                        /\ 0 <= amountToken tr
                                        /\ (eventHash e = txHash tr
                                            \/ In (txHash tr) (map eventHash r)))
                             out)
        by (eapply Forall_impl; [|exact Hall]; simpl; tauto).
      destruct o as [tr|]; simpl; split; try lia; try exact Hrest.
      constructor; [|exact Hrest].
      destruct (Hemit tr eq_refl) as [Hh [Ht Ha]]. auto.
Qed.

(** X4: the cache of a monitor stays well formed through any run: its keys
    stay distinct, its capacity is unchanged and it never holds more
    entries than the capacity (1000 for a monitor built by the
    constructor). *)
Theorem whale_cache_bounded (evs : list Event) (w : t) :
  wellFormed (lruCache w) ->
  wellFormed (lruCache (fst (run w evs)))
  /\ LRUCache.maxSize (lruCache (fst (run w evs))) = LRUCache.maxSize (lruCache w)
  /\ (LRUCache.size (lruCache (fst (run w evs)))
      <= LRUCache.maxSize (lruCache w))%nat.
Proof.
  revert w. induction evs as [|e r IH]; intros w Hwf; simpl.
  - destruct Hwf as [H1 [H2 H3]]. repeat split; assumption.
  - assert (Hstep : wellFormed (lruCache (fst (handle w e)))
                    /\ LRUCache.maxSize (lruCache (fst (handle w e)))
                       = LRUCache.maxSize (lruCache w)).
    { destruct (handle_effect w e) as [H | [_ [H _]]]; rewrite H; simpl.
      - split; [assumption | reflexivity].
      - now apply (set_wellFormed String.eqb String.eqb_spec). }
    destruct (handle w e) as [w1 o]. simpl in Hstep. destruct Hstep as [Hwf1 Hmax].
    specialize (IH w1 Hwf1). destruct (run w1 r) as [w2 out]. simpl in *.
    rewrite <- Hmax. exact IH.
Qed.

End WhaleTradesMore.

Lemma whale_cache_bounded_witness :
  wellFormed (WhaleTrades.lruCache whale_amm)
  /\ (LRUCache.size (WhaleTrades.lruCache (fst (WhaleTrades.run whale_amm evictionStream)))
      <= 1000)%nat.
Proof.
  assert (Hwf : wellFormed (WhaleTrades.lruCache whale_amm))
    by (repeat split; vm_compute; [constructor | lia | lia]).
  split; [exact Hwf|].
  apply (whale_cache_bounded evictionStream whale_amm Hwf).
Defined.

(** ** Time to block, continued *)

Section TimeToBlockMore.
Import Js TimeToBlock.
Variable getBlock : Z -> result (option Block).
Variable targetTime : Z.

(** The provider answers every probe in [lo, hi) with a block, and later
    blocks do not carry earlier timestamps. *)
Definition answered (lo hi : Z) : Prop :=
  (forall n, lo <= n < hi -> exists blk, getBlock n = Ok (Some blk))
  /\ (forall m n bm bn,
        lo <= m -> m <= n -> n < hi ->
        getBlock m = Ok (Some bm) -> getBlock n = Ok (Some bn) ->
        timestamp bm <= timestamp bn).

Lemma answered_narrow (lo hi lo' hi' : Z) :
  lo <= lo' -> hi' <= hi -> answered lo hi -> answered lo' hi'.
Proof.
  intros Hlo Hhi [Ha Hm]. split.
  - intros n Hn. apply Ha. lia.
  - intros m n bm bn H1 H2 H3. apply Hm; lia.
Qed.

(** X5: when every probe is answered and timestamps do not decrease with
    the block number, the search returns the first block of [lo, hi) whose
    time is not before the target, or [hi] when there is none: every block
    below the result is earlier than the target and every block from the
    result on is not. *)
Theorem search_finds_first (lo hi : Z) :
  lo <= hi ->
  answered lo hi ->
  exists r,
    search getBlock targetTime lo hi = Ok r
    /\ lo <= r <= hi
    /\ (forall n blk, lo <= n < r -> getBlock n = Ok (Some blk) ->
                      timestamp blk * 1000 < targetTime)
    /\ (forall n blk, r <= n < hi -> getBlock n = Ok (Some blk) ->
                      targetTime <= timestamp blk * 1000).
Proof.
  funelim (search getBlock targetTime lo hi); intros Hle Hans.
  - exists lo. repeat split; try lia; intros; lia.
  - exfalso. destruct Hans as [Ha _].
    assert (Hmid : lo <= (lo + hi) / 2 < hi)
      by (split; [apply Z.div_le_lower_bound | apply Z.div_lt_upper_bound]; lia).
    destruct (Ha _ Hmid) as [blk Hb]. congruence.
  - exfalso. destruct Hans as [Ha _].
    assert (Hmid : lo <= (lo + hi) / 2 < hi)
      by (split; [apply Z.div_le_lower_bound | apply Z.div_lt_upper_bound]; lia).
    destruct (Ha _ Hmid) as [blk Hb]. congruence.
  - assert (Hmid : lo <= (lo + hi) / 2 < hi)
      by (split; [apply Z.div_le_lower_bound | apply Z.div_lt_upper_bound]; lia).
    match goal with IH : _ -> _ -> exists r, _ |- _ =>
      destruct (IH ltac:(lia) (answered_narrow lo hi ((lo + hi) / 2 + 1) hi
                              ltac:(lia) ltac:(lia) Hans))
        as [r [Hr [Hb [Hbelow Habove]]]] end.
    exists r. split; [exact Hr|]. split; [lia|]. split; [|exact Habove].
    intros q blk Hq Hblk.
    destruct (Z_lt_dec q ((lo + hi) / 2 + 1)) as [Hlow|Hhigh].
    + destruct Hans as [_ Hm].
      match goal with Hmidblk : getBlock ((lo + hi) / 2) = Ok (Some ?b) |- _ =>
        pose proof (Hm q ((lo + hi) / 2) blk b ltac:(lia) ltac:(lia) ltac:(lia)
                       Hblk Hmidblk) end.
      lia.
    + apply (Hbelow q blk); [lia | exact Hblk].
  - assert (Hmid : lo <= (lo + hi) / 2 < hi)
      by (split; [apply Z.div_le_lower_bound | apply Z.div_lt_upper_bound]; lia).
    match goal with IH : _ -> _ -> exists r, _ |- _ =>
      destruct (IH ltac:(lia) (answered_narrow lo hi lo ((lo + hi) / 2)
                              ltac:(lia) ltac:(lia) Hans))
        as [r [Hr [Hb [Hbelow Habove]]]] end.
    exists r. split; [exact Hr|]. split; [lia|]. split; [exact Hbelow|].
    intros q blk Hq Hblk.
    destruct (Z_lt_dec q ((lo + hi) / 2)) as [Hlow|Hhigh].
    + apply (Habove q blk); [lia | exact Hblk].
    + destruct Hans as [_ Hm].
      match goal with Hmidblk : getBlock ((lo + hi) / 2) = Ok (Some ?b) |- _ =>
        pose proof (Hm ((lo + hi) / 2) q b blk ltac:(lia) ltac:(lia) ltac:(lia)
                       Hmidblk Hblk) end.
      lia.
Qed.

(** X6: [timeToBlock] answers a target at or after the latest block's time
    with the latest block number, without any probe; for an earlier target
    its answer never lies more than 500 blocks away from the estimate made
    with two seconds per block, nor outside [0, latest]; and it throws when
    the provider has no latest block. *)
Theorem timeToBlock_window (latest : Block) (b : Z) :
  0 <= number latest ->
  timeToBlock getBlock targetTime (Ok (Some latest)) = Ok b ->
  let estimate :=
    Z.max 0 (number latest - (timestamp latest * 1000 - targetTime) / 2000) in
  (timestamp latest * 1000 <= targetTime -> b = number latest)
  /\ (targetTime < timestamp latest * 1000 ->
      Z.max 0 (estimate - 500) <= b <= Z.min (number latest) (estimate + 500))
  /\ timeToBlock getBlock targetTime (Ok None)
     = Throw "Failed to get latest block".
Proof.
  intros Hn Hb estimate. subst estimate. unfold timeToBlock in *.
  unfold AVERAGE_BLOCK_TIME_MS in *.
  destruct (Z.leb_spec (timestamp latest * 1000) targetTime) as [Hfut|Hpast].
  - inversion Hb; subst.
    split; [intros _; reflexivity|]. split; [intros; lia | reflexivity].
  - assert (Hdiff : 0 <= (timestamp latest * 1000 - targetTime) / 2000)
      by (apply Z.div_pos; lia).
    apply search_bounds in Hb; [|lia].
    split; [intros; lia|]. split; [intros _; lia | reflexivity].
Qed.

End TimeToBlockMore.

(** *** Concrete searches *)

(** A provider with a block every two seconds. *)
Definition everyTwoSeconds (n : Z) : Js.result (option TimeToBlock.Block) :=
  Js.Ok (Some (TimeToBlock.mkBlock n (2 * n))).

Lemma everyTwoSeconds_answered (lo hi : Z) : answered everyTwoSeconds lo hi.
Proof.
  split.
  - intros n _. eexists. reflexivity.
  - intros m n bm bn _ Hmn _ Hm Hn. unfold everyTwoSeconds in *.
    injection Hm as Em. injection Hn as En. subst bm bn.
    change (2 * m <= 2 * n). lia.
Qed.

Lemma search_finds_first_witness :
  0 <= 300
  /\ answered everyTwoSeconds 0 300
  /\ exists r, TimeToBlock.search everyTwoSeconds 200000 0 300 = Js.Ok r
               /\ 0 <= r <= 300.
Proof.
  assert (Hle : 0 <= 300) by lia.
  split; [exact Hle|]. split; [apply everyTwoSeconds_answered|].
  destruct (search_finds_first everyTwoSeconds 200000 0 300 Hle
              (everyTwoSeconds_answered 0 300)) as [r [Hr [Hb _]]].
  exists r. split; [exact Hr | exact Hb].
Defined.

Lemma timeToBlock_window_witness :
  0 <= TimeToBlock.number (TimeToBlock.mkBlock 300 600)
  /\ TimeToBlock.timeToBlock everyTwoSeconds 200000
       (Js.Ok (Some (TimeToBlock.mkBlock 300 600))) = Js.Ok 100
  /\ Z.max 0 (100 - 500) <= 100 <= Z.min 300 (100 + 500).
Proof.
  assert (Hn : 0 <= TimeToBlock.number (TimeToBlock.mkBlock 300 600))
    by (simpl; lia).
  assert (Hb : TimeToBlock.timeToBlock everyTwoSeconds 200000
                 (Js.Ok (Some (TimeToBlock.mkBlock 300 600))) = Js.Ok 100)
    by (vm_compute; reflexivity).
  destruct (timeToBlock_window everyTwoSeconds 200000
              (TimeToBlock.mkBlock 300 600) 100 Hn Hb) as [_ [Hwin _]].
  split; [exact Hn|]. split; [exact Hb|].
  apply Hwin. simpl. lia.
Defined.

(** ** The tax tracker, continued *)

Section TaxTrackerMore.
Import Js TaxTracker.

(** X7: an [update] that throws has moved the pool to the next endpoint in
    cyclic order, bound the token handle to that endpoint and kept the block
    cursor, the start block and the start balance; when it is the block
    number query or the log query that failed, the counters are those of
    before the call. *)
Theorem tax_update_failure_effects (env : UpdateEnv) (pool pool' : RpcPool.t)
    (tr tr' : t) (e : string) :
  (0 < RpcPool.httpCount pool)%nat ->
  update env pool tr = (pool', tr', Throw e) ->
  RpcPool.currentHttpIndex pool'
  = ((RpcPool.currentHttpIndex pool + 1) mod RpcPool.httpCount pool)%nat
  /\ (RpcPool.currentHttpIndex pool' < RpcPool.httpCount pool')%nat
  /\ virtualToken tr' = RpcPool.currentHttpIndex pool'
  /\ lastProcessedBlock tr' = lastProcessedBlock tr
  /\ blockStart tr' = blockStart tr
  /\ startBalance tr' = startBalance tr
  /\ (isOk (getBlockNumber env (RpcPool.getHttpProvider pool)) = false
      \/ (forall f t, isOk (queryFilter env (virtualToken tr) f t) = false) ->
      accumulated tr' = accumulated tr).
Proof.
  intros Hcount Hu.
  destruct (update_throws _ _ _ _ _ _ Hu) as [Hp [Hv [Hlp [_ [Hbs Hsb]]]]].
  subst pool'. unfold RpcPool.rotateHttp, RpcPool.getHttpProvider in *. simpl in *.
  repeat split; try assumption.
  - apply Nat.mod_upper_bound. lia.
  - intros Hearly. now destruct (update_throws_early env pool tr Hearly _ _ _ Hu).
Qed.

(** The calls of a trajectory all succeed and all see the chain at height
    [H]. *)
Definition steadyAt (H : Z) (env : UpdateEnv) : Prop :=
  (forall p, getBlockNumber env p = Ok H)
  /\ (forall p f t, isOk (queryFilter env p f t) = true)
  /\ (forall p, isOk (balanceOf env p) = true).

Lemma update_steady (H : Z) (env : UpdateEnv) (pool : RpcPool.t) (tr : t) :
  steadyAt H env ->
  lastProcessedBlock tr <= H ->
  exists tr' r,
    update env pool tr = (pool, tr', Ok r)
    /\ lastProcessedBlock tr' = Z.min H (lastProcessedBlock tr + 2000).
Proof.
  intros [Hn [Hq Hb]] Hle. unfold update, maxBlockRange. rewrite Hn.
  destruct (Z.leb_spec H (lastProcessedBlock tr)) as [Hdone|Hnew].
  - exists tr, (accumulated tr). split; [reflexivity | lia].
  - specialize (Hq (virtualToken tr) (lastProcessedBlock tr + 1)
                   (Z.min H (lastProcessedBlock tr + 2000))).
    destruct (queryFilter env _ _ _) as [logs|e1]; [|discriminate].
    destruct (scanLogs _ logs) as [i o].
    specialize (Hb (virtualToken tr)).
    destruct (balanceOf env _) as [bal|e2]; [|discriminate].
    eexists. eexists. split; reflexivity.
Qed.

(** X8: successive [update] calls that all succeed while the chain stands
    at height H advance the cursor by at most 2000 blocks each and stop at
    H: after k calls it is min(H, cursor + 2000 k), and the pool is not
    rotated. *)
Theorem tax_updates_converge (H : Z) (envs : list UpdateEnv) :
  forall (pool : RpcPool.t) (tr : t),
    Forall (steadyAt H) envs ->
    lastProcessedBlock tr <= H ->
    lastProcessedBlock (finalState envs pool tr)
    = Z.min H (lastProcessedBlock tr + 2000 * Z.of_nat (List.length envs))
    /\ Forall (fun x => fst (fst x) = pool /\ isOk (snd x) = true)
              (updates envs pool tr).
Proof.
  induction envs as [|env r IH]; intros pool tr Hall Hle.
  - simpl. split; [lia | constructor].
  - inversion Hall as [|x l Hs Hr]; subst.
    destruct (update_steady H env pool tr Hs Hle) as [tr' [res [Hu Hlp]]].
    cbn [finalState updates List.length]. rewrite Hu.
    destruct (IH pool tr' Hr ltac:(lia)) as [Hfin Htraj].
    split; [rewrite Hfin, Hlp; lia|].
    constructor; [split; reflexivity | exact Htraj].
Qed.

(** The receiver's balance at block [n], for a token whose balances move
    by transfers only. *)
Definition balanceAt (ledger : Ledger) (tr : t) (n : Z) : Z :=
  startBalance tr
  + signedSum (buybackAddr tr) (logsInRange ledger (blockStart tr + 1) n).

(** X9: when the counters account for the ledger up to the cursor, the
    start balance is the balance at the start block, and an [update] scans
    up to the latest block (at most 2000 blocks ahead) and reads the
    balance at that block, the balance difference equals the net inflow
    and the residual [delta] is zero. *)
Theorem tax_delta_zero (ledger : Ledger) (env : UpdateEnv) (pool pool' : RpcPool.t)
    (tr tr' : t) (r : TaxResult) (n : Z) :
  accounted ledger tr ->
  honest ledger env ->
  getBlockNumber env (RpcPool.getHttpProvider pool) = Ok n ->
  lastProcessedBlock tr < n <= lastProcessedBlock tr + 2000 ->
  balanceOf env (virtualToken tr) = Ok (balanceAt ledger tr n) ->
  update env pool tr = (pool', tr', Ok r) ->
  lastProcessedBlock tr' = n
  /\ balanceDiff r = netInflow r
  /\ delta r = 0
  /\ r = accumulated tr'.
Proof.
  intros [Hbs [Hi [Ho Hn]]] Hhon Hlatest Hrange Hbal.
  unfold update, maxBlockRange. rewrite Hlatest.
  destruct (Z.leb_spec n (lastProcessedBlock tr)); [lia|].
  replace (Z.min n (lastProcessedBlock tr + 2000)) with n by lia.
  destruct (queryFilter env _ _ _) as [logs|e1] eqn:Hq; [|discriminate].
  apply Hhon in Hq. rewrite scanLogs_sums, Hbal.
  intros Hu. inversion Hu; subst; simpl.
  unfold balanceAt.
  rewrite <- (logsInRange_app ledger (blockStart tr + 1) (lastProcessedBlock tr) n)
    by lia.
  rewrite signedSum_flows, inflowOf_app, outflowOf_app.
  repeat split; lia.
Qed.

(** The counters are consistent: the net inflow is the difference of the
    other two, and neither of them is negative. *)
Definition consistent (tr : t) : Prop :=
  netInflow (accumulated tr) = inflow (accumulated tr) - outflow (accumulated tr)
  /\ 0 <= inflow (accumulated tr) /\ 0 <= outflow (accumulated tr).

(** Every log an endpoint returns carries a value that is not negative
    (values are [uint256]). *)
Definition unsignedLogs (env : UpdateEnv) : Prop :=
  forall p f t logs,
    queryFilter env p f t = Ok logs ->
    Forall (fun l => match l with Some a => 0 <= value a | None => True end) logs.

Lemma flows_nonneg (addr : string) (logs : list Log) :
  Forall (fun l => match l with Some a => 0 <= value a | None => True end) logs ->
  0 <= inflowOf addr logs /\ 0 <= outflowOf addr logs.
Proof.
  induction 1 as [|[a|] r Ha Hr [IH1 IH2]]; simpl; [lia| |tauto].
  destruct (isTo addr a); destruct (isFrom addr a); lia.
Qed.

Lemma update_consistent (env : UpdateEnv) (pool pool' : RpcPool.t) (tr tr' : t)
    (res : result TaxResult) :
  unsignedLogs env ->
  update env pool tr = (pool', tr', res) ->
  consistent tr ->
  consistent tr'
  /\ inflow (accumulated tr) <= inflow (accumulated tr')
  /\ outflow (accumulated tr) <= outflow (accumulated tr').
Proof.
  intros Huns. unfold update, onError, consistent.
  destruct (getBlockNumber env _) as [n|e1];
    [|intros Hu; inversion Hu; subst; simpl; intuition lia].
  destruct (n <=? lastProcessedBlock tr);
    [intros Hu; inversion Hu; subst; intuition lia|].
  destruct (queryFilter env _ _ _) as [logs|e2] eqn:Hq;
    [|intros Hu; inversion Hu; subst; simpl; intuition lia].
  apply Huns in Hq. apply (flows_nonneg (buybackAddr tr)) in Hq.
  rewrite scanLogs_sums.
  destruct (balanceOf env _) as [bal|e3];
    intros Hu; inversion Hu; subst; simpl; intuition lia.
Qed.

(** X10: whatever the calls do (succeed, return early or throw at any
    point), the tracker keeps [netInflow = inflow - outflow], and while logs
    carry unsigned values neither [inflow] nor [outflow] ever decreases or
    becomes negative. *)
Theorem tax_counters_consistent (envs : list UpdateEnv) :
  forall (pool : RpcPool.t) (tr : t),
    Forall unsignedLogs envs ->
    consistent tr ->
    Forall (fun x => consistent (snd (fst x))
                     /\ inflow (accumulated tr) <= inflow (accumulated (snd (fst x)))
                     /\ outflow (accumulated tr)
                        <= outflow (accumulated (snd (fst x))))
           (updates envs pool tr).
Proof.
  induction envs as [|env r IH]; intros pool tr Hall Hc; simpl; [constructor|].
  inversion Hall as [|x l Hu Hr]; subst.
  destruct (update env pool tr) as [[pool' tr'] res] eqn:Hupd.
  destruct (update_consistent env pool pool' tr tr' res Hu Hupd Hc)
    as [Hc' [Hi Ho]].
  constructor; [simpl; tauto|].
  eapply Forall_impl; [|exact (IH pool' tr' Hr Hc')]. simpl. intuition lia.
Qed.

End TaxTrackerMore.

Lemma answering_steady (n bal : Z) : steadyAt n (answering n bal).
Proof. repeat split. Qed.

Lemma tax_update_failure_effects_witness :
  (0 < RpcPool.httpCount twoEndpoints)%nat
  /\ TaxTracker.update (balanceFails 101) twoEndpoints trackerAt100
     = (fst (fst failedCall), snd (fst failedCall), Js.Throw "timeout")
  /\ RpcPool.currentHttpIndex (fst (fst failedCall)) = 1%nat
  /\ TaxTracker.virtualToken (snd (fst failedCall)) = 1%nat
  /\ TaxTracker.lastProcessedBlock (snd (fst failedCall)) = 100.
Proof.
  assert (Hc : (0 < RpcPool.httpCount twoEndpoints)%nat) by (simpl; lia).
  assert (Hu : TaxTracker.update (balanceFails 101) twoEndpoints trackerAt100
               = (fst (fst failedCall), snd (fst failedCall), Js.Throw "timeout"))
    by (vm_compute; reflexivity).
  destruct (tax_update_failure_effects _ _ _ _ _ _ Hc Hu)
    as [Hi [_ [Hv [Hlp _]]]].
  split; [exact Hc|]. split; [exact Hu|].
  split; [exact Hi|]. split; [rewrite Hv; exact Hi | exact Hlp].
Defined.

Lemma tax_updates_converge_witness :
  Forall (steadyAt 5000) [answering 5000 0; answering 5000 0; answering 5000 0]
  /\ TaxTracker.lastProcessedBlock trackerAt100 <= 5000
  /\ TaxTracker.lastProcessedBlock
       (TaxTracker.finalState
          [answering 5000 0; answering 5000 0; answering 5000 0]
          twoEndpoints trackerAt100) = 5000.
Proof.
  assert (Hs : Forall (steadyAt 5000)
                 [answering 5000 0; answering 5000 0; answering 5000 0])
    by (repeat constructor).
  assert (Hle : TaxTracker.lastProcessedBlock trackerAt100 <= 5000)
    by (vm_compute; discriminate).
  split; [exact Hs|]. split; [exact Hle|].
  destruct (tax_updates_converge 5000 _ twoEndpoints trackerAt100 Hs Hle)
    as [Hfin _].
  exact Hfin.
Defined.

Lemma trackerAt100_accounted : accounted ledger0 trackerAt100.
Proof. vm_compute. repeat split; try reflexivity. discriminate. Qed.

Lemma tax_delta_zero_witness :
  accounted ledger0 trackerAt100
  /\ honest ledger0 (answering 300 (1220 * e18))
  /\ balanceAt ledger0 trackerAt100 300 = 1220 * e18
  /\ exists pool' tr' r,
       TaxTracker.update (answering 300 (1220 * e18)) twoEndpoints trackerAt100
       = (pool', tr', Js.Ok r)
       /\ TaxTracker.delta r = 0.
Proof.
  assert (Hbal : balanceAt ledger0 trackerAt100 300 = 1220 * e18)
    by (vm_compute; reflexivity).
  split; [exact trackerAt100_accounted|].
  split; [apply answering_honest|]. split; [exact Hbal|].
  destruct (TaxTracker.update (answering 300 (1220 * e18)) twoEndpoints trackerAt100)
    as [[pool' tr'] [r|e]] eqn:Hu; [|vm_compute in Hu; discriminate Hu].
  exists pool', tr', r. split; [reflexivity|].
  assert (Hb : TaxTracker.balanceOf (answering 300 (1220 * e18))
                 (TaxTracker.virtualToken trackerAt100)
               = Js.Ok (balanceAt ledger0 trackerAt100 300))
    by (rewrite Hbal; reflexivity).
  destruct (tax_delta_zero ledger0 (answering 300 (1220 * e18)) twoEndpoints pool'
              trackerAt100 tr' r 300 trackerAt100_accounted
              (answering_honest 300 (1220 * e18)) eq_refl
              ltac:(vm_compute; split; [reflexivity | discriminate]) Hb Hu)
    as [_ [_ [Hd _]]].
  exact Hd.
Defined.

Lemma ledger0_unsigned (b : Z) :
  Forall (fun l => match l with
                   | Some a => 0 <= TaxTracker.value a
                   | None => True
                   end) (ledger0 b).
Proof.
  unfold ledger0.
  destruct (b =? 101); [|destruct (b =? 150); [|destruct (b =? 180)]];
    repeat constructor; cbn [TaxTracker.value]; unfold e18; lia.
Qed.

Lemma answering_unsigned (n bal : Z) : unsignedLogs (answering n bal).
Proof.
  intros p f t logs Hq. inversion Hq; subst. unfold TaxTracker.logsInRange.
  apply Forall_forall. intros l Hin. apply in_flat_map in Hin.
  destruct Hin as [b [_ Hin]].
  exact (proj1 (Forall_forall _ _) (ledger0_unsigned b) l Hin).
Qed.

Lemma balanceFails_unsigned (n : Z) : unsignedLogs (balanceFails n).
Proof.
  intros p f t logs Hq. exact (answering_unsigned n 0 p f t logs Hq).
Qed.

Lemma tax_counters_consistent_witness :
  Forall unsignedLogs [balanceFails 101; answering 300 (1220 * e18)]
  /\ consistent trackerAt100
  /\ Forall (fun x => consistent (snd (fst x)))
            (TaxTracker.updates [balanceFails 101; answering 300 (1220 * e18)]
                                twoEndpoints trackerAt100).
Proof.
  assert (Hu : Forall unsignedLogs [balanceFails 101; answering 300 (1220 * e18)])
    by (repeat constructor; [apply balanceFails_unsigned | apply answering_unsigned]).
  assert (Hc : consistent trackerAt100)
    by (vm_compute; repeat split; discriminate).
  split; [exact Hu|]. split; [exact Hc|].
  eapply Forall_impl;
    [|exact (tax_counters_consistent _ twoEndpoints trackerAt100 Hu Hc)].
  simpl. tauto.
Defined.

(** ** The tax refresh of the launch window *)

Section LaunchWindowProps.
Import Js TaxTracker LaunchWindow.

Lemma catchUp_calls (env : TickEnv) (roundsLeft : nat) :
  forall k pool tr latest,
    (snd (catchUp roundsLeft k env pool tr latest) <= k + roundsLeft)%nat.
Proof.
  induction roundsLeft as [|r IH]; intros k pool tr latest; simpl; [lia|].
  destruct (2000 <? latest - lastProcessedBlock tr); simpl; [|lia].
  destruct (update (updateAt env k) pool tr) as [[pool' tr'] [res|e]]; simpl; [|lia].
  destruct (latestAt env (S k)) as [l|e]; simpl; [|lia].
  specialize (IH (S k) pool' tr' l). lia.
Qed.

(** X11: one tax refresh calls [update] at most eleven times (ten catch-up
    rounds and the final call), however far ahead the chain is and whatever
    the calls answer. *)
Theorem refresh_calls_bounded (env : TickEnv) (pool : RpcPool.t) (tr : t) :
  (snd (refreshTax env pool tr) <= 11)%nat.
Proof.
  unfold refreshTax.
  destruct (latestAt env 0%nat) as [latest|e]; [|cbn [snd]; lia].
  pose proof (catchUp_calls env maxCatchUpRounds 0 pool tr latest) as Hk.
  destruct (catchUp maxCatchUpRounds 0 env pool tr latest) as [[[pool' tr'] res] k].
  cbn [snd] in Hk. unfold maxCatchUpRounds in Hk.
  destruct res as [u|e]; [|cbn [snd]; lia].
  destruct (update (updateAt env k) pool' tr') as [[pool'' tr''] r].
  cbn [snd]. lia.
Qed.

Lemma catchUp_steady (H : Z) (env : TickEnv) (roundsLeft : nat) :
  (forall i, latestAt env i = Ok H) ->
  (forall i, steadyAt H (updateAt env i)) ->
  forall k pool tr,
    lastProcessedBlock tr <= H ->
    exists tr' k',
      catchUp roundsLeft k env pool tr H = (pool, tr', Ok tt, k')
      /\ lastProcessedBlock tr' <= H
      /\ Z.min H (lastProcessedBlock tr' + 2000)
         = Z.min H (lastProcessedBlock tr + 2000 * (Z.of_nat roundsLeft + 1)).
Proof.
  intros Hlatest Hsteady.
  induction roundsLeft as [|r IH]; intros k pool tr Hle.
  - exists tr, k. cbn [catchUp]. split; [reflexivity|]. split; [assumption|].
    change (Z.of_nat 0) with 0. lia.
  - cbn [catchUp].
    destruct (Z.ltb_spec 2000 (H - lastProcessedBlock tr)) as [Hfar|Hnear].
    + destruct (update_steady H (updateAt env k) pool tr (Hsteady k) Hle)
        as [tr1 [res [Hu Hlp]]].
      rewrite Hu, Hlatest.
      destruct (IH (S k) pool tr1 ltac:(lia)) as [tr' [k' [Hc [Hle' Hmin]]]].
      exists tr', k'. split; [exact Hc|]. split; [exact Hle'|].
      rewrite Hmin, Hlp. lia.
    + exists tr, k. split; [reflexivity|]. split; [assumption | lia].
Qed.

(** X12: when every call of a refresh succeeds and the chain stands at
    height H throughout, the refresh leaves the cursor at
    min(H, cursor + 22000): a tracker up to 22000 blocks behind is at the
    head after one refresh; the pool is not rotated. *)
Theorem refresh_catches_up (H : Z) (env : TickEnv) (pool : RpcPool.t) (tr : t) :
  (forall i, latestAt env i = Ok H) ->
  (forall i, steadyAt H (updateAt env i)) ->
  lastProcessedBlock tr <= H ->
  exists tr' r k,
    refreshTax env pool tr = (pool, tr', Ok r, k)
    /\ lastProcessedBlock tr' = Z.min H (lastProcessedBlock tr + 22000).
Proof.
  intros Hlatest Hsteady Hle. unfold refreshTax. rewrite Hlatest.
  destruct (catchUp_steady H env maxCatchUpRounds Hlatest Hsteady 0 pool tr Hle)
    as [tr1 [k [Hc [Hle1 Hmin]]]].
  rewrite Hc.
  destruct (update_steady H (updateAt env k) pool tr1 (Hsteady k) Hle1)
    as [tr' [r [Hu Hlp]]].
  rewrite Hu. exists tr', r, (S k). split; [reflexivity|].
  rewrite Hlp, Hmin. unfold maxCatchUpRounds. f_equal.
Qed.

End LaunchWindowProps.

(** A refresh while the chain stands at block 12000. *)
Definition chainAt12000 : LaunchWindow.TickEnv :=
  LaunchWindow.mkTick (fun _ => Js.Ok 12000) (fun _ => answering 12000 0).

Lemma refresh_catches_up_witness :
  (forall i, LaunchWindow.latestAt chainAt12000 i = Js.Ok 12000)
  /\ (forall i, steadyAt 12000 (LaunchWindow.updateAt chainAt12000 i))
  /\ TaxTracker.lastProcessedBlock trackerAt100 <= 12000
  /\ exists tr' r k,
       LaunchWindow.refreshTax chainAt12000 twoEndpoints trackerAt100
       = (twoEndpoints, tr', Js.Ok r, k)
       /\ TaxTracker.lastProcessedBlock tr' = 12000.
Proof.
  assert (H1 : forall i, LaunchWindow.latestAt chainAt12000 i = Js.Ok 12000)
    by reflexivity.
  assert (H2 : forall i, steadyAt 12000 (LaunchWindow.updateAt chainAt12000 i))
    by (intros i; apply answering_steady).
  assert (H3 : TaxTracker.lastProcessedBlock trackerAt100 <= 12000)
    by (vm_compute; discriminate).
  split; [exact H1|]. split; [exact H2|]. split; [exact H3|].
  destruct (refresh_catches_up 12000 chainAt12000 twoEndpoints trackerAt100
              H1 H2 H3) as [tr' [r [k [Hr Hlp]]]].
  exists tr', r, k. split; [exact Hr|]. rewrite Hlp. vm_compute. reflexivity.
Defined.

(** ** The buyback tracker, continued *)

Section BuybackTrackerMore.
Import JsNumber BuybackTracker.

Fixpoint historySum (hist : list SpentRecord) : Z :=
  match hist with
  | [] => 0
  | r :: rest => amount r + historySum rest
  end.

Lemma historySum_app (h1 h2 : list SpentRecord) :
  historySum (h1 ++ h2) = historySum h1 + historySum h2.
Proof. induction h1 as [|r rest IH]; simpl; [reflexivity | lia]. Qed.

Lemma historySum_filter (f : SpentRecord -> bool) (hist : list SpentRecord) :
  Forall (fun r => 0 <= amount r) hist ->
  0 <= historySum (filter f hist) <= historySum hist.
Proof.
  induction 1 as [|r rest Hr Hrest IH]; simpl; [lia|].
  destruct (f r); simpl; lia.
Qed.

Lemma windowSum_filter (ws : Z) (hist : list SpentRecord) :
  windowSum ws hist = historySum (filter (fun h => ws <=? time h) hist).
Proof.
  induction hist as [|r rest IH]; simpl; [reflexivity|].
  destruct (ws <=? time r); simpl; lia.
Qed.

(** What every state of a tracker satisfies. *)
Definition pruned (b : t) : Prop :=
  Forall (fun r => lastSpentTime b - rateWindowMinutes b * 60 * 1000 <= time r
                   /\ 0 <= amount r) (spentHistory b)
  /\ historySum (spentHistory b) <= spentTotal b
  /\ 0 <= spentTotal b.

Lemma recordSpent_pruned (b : t) (now a : Z) (h : string) :
  0 <= a -> pruned b -> pruned (recordSpent b now a h).
Proof.
  intros Ha [Hhist [Hsum Htot]]. unfold pruned, recordSpent. simpl.
  assert (Hamounts : Forall (fun r => 0 <= amount r)
                            (spentHistory b ++ [mkSpent now a h])).
  { apply Forall_app. split.
    - eapply Forall_impl; [|exact Hhist]. simpl. tauto.
    - repeat constructor. exact Ha. }
  split; [|split; [|lia]].
  - apply Forall_forall. intros r Hin. apply filter_In in Hin.
    destruct Hin as [Hin Hw]. apply Z.leb_le in Hw. split; [exact Hw|].
    rewrite Forall_forall in Hamounts. now apply Hamounts.
  - pose proof (historySum_filter
                  (fun r => now - rateWindowMinutes b * 60 * 1000 <=? time r)
                  _ Hamounts) as Hf.
    rewrite historySum_app in Hf. simpl in Hf. lia.
Qed.

(** X13: in every state a tracker can reach, the spend history holds only
    records that are at most one rate window older than the last recorded
    spend, every amount in it is non-negative, and the amounts in it sum to
    no more than [spentTotal], which is itself non-negative: pruning the
    window never touches the running total. *)
Theorem buyback_history_pruned (taxTotal0 : Z) (b : t) :
  reachable taxTotal0 b ->
  Forall (fun r => lastSpentTime b - rateWindowMinutes b * 60 * 1000 <= time r
                   /\ 0 <= amount r) (spentHistory b)
  /\ historySum (spentHistory b) <= spentTotal b
  /\ 0 <= spentTotal b.
Proof.
  induction 1 as [rw sa | b cb Hb IH | b now a h Hb IH Ha | b now Hb IH].
  - simpl. repeat split; [constructor | lia | lia].
  - exact IH.
  - now apply recordSpent_pruned.
  - unfold checkStall.
    destruct (isStalled b now && negb (stallAlerted b) && onStall b); exact IH.
Qed.

(** The amounts of the spends of a run. *)
Fixpoint spentAmounts (evs : list Event) : Z :=
  match evs with
  | [] => 0
  | Spent _ a _ :: r => a + spentAmounts r
  | Check _ :: r => spentAmounts r
  end.

Definition unsignedSpends (evs : list Event) : Prop :=
  Forall (fun e => match e with Spent _ a _ => 0 <= a | Check _ => True end) evs.

Lemma run_total (evs : list Event) :
  forall b, spentTotal (fst (run b evs)) = spentTotal b + spentAmounts evs
            /\ taxTotal (fst (run b evs)) = taxTotal b.
Proof.
  induction evs as [|e r IH]; intros b; simpl; [split; [lia | reflexivity]|].
  destruct e as [now a h | now]; simpl.
  - destruct (IH (recordSpent b now a h)) as [H1 H2].
    destruct (run (recordSpent b now a h) r) as [b2 n]. simpl in *.
    split; [lia | assumption].
  - destruct (checkStall b now) as [b1 fired] eqn:Hc.
    assert (Hsame : spentTotal b1 = spentTotal b /\ taxTotal b1 = taxTotal b).
    { unfold checkStall in Hc.
      destruct (isStalled b now && negb (stallAlerted b) && onStall b);
        inversion Hc; subst; simpl; auto. }
    destruct (IH b1) as [H1 H2]. destruct (run b1 r) as [b2 n]. simpl in *.
    destruct Hsame. split; congruence.
Qed.

Lemma complete_never_stalls (evs : list Event) :
  forall b, unsignedSpends evs -> isComplete b = true -> snd (run b evs) = O.
Proof.
  induction evs as [|e r IH]; intros b Hu Hc; simpl; [reflexivity|].
  inversion Hu as [|x l He Hr]; subst.
  destruct e as [now a h | now]; simpl.
  - assert (Hc' : isComplete (recordSpent b now a h) = true).
    { unfold isComplete in *. simpl. apply Z.leb_le. apply Z.leb_le in Hc. lia. }
    specialize (IH _ Hr Hc').
    destruct (run (recordSpent b now a h) r) as [b2 n]. exact IH.
  - unfold checkStall, isStalled. unfold isComplete in Hc. rewrite Hc. simpl.
    specialize (IH b Hr). unfold isComplete in IH. specialize (IH Hc).
    destruct (run b r) as [b2 n]. exact IH.
Qed.

(** X14: through any run, [spentTotal] grows by exactly the amounts of
    the spends recorded, whatever the window prunes, and the budget never
    changes; with unsigned amounts a tracker that is complete stays
    complete and never calls the stall callback again. *)
Theorem buyback_total_and_completion (b : t) (evs : list Event) :
  unsignedSpends evs ->
  spentTotal (fst (run b evs)) = spentTotal b + spentAmounts evs
  /\ taxTotal (fst (run b evs)) = taxTotal b
  /\ (isComplete b = true ->
      isComplete (fst (run b evs)) = true /\ snd (run b evs) = O).
Proof.
  intros Hu. destruct (run_total evs b) as [Htot Htax].
  split; [exact Htot|]. split; [exact Htax|].
  intros Hc. split; [|now apply complete_never_stalls].
  unfold isComplete in *. rewrite Htot, Htax. apply Z.leb_le.
  apply Z.leb_le in Hc.
  assert (0 <= spentAmounts evs).
  { clear -Hu. induction Hu as [|e r He Hr IH]; simpl; [lia|].
    destruct e; lia. }
  lia.
Qed.

(** X15: in every state a tracker can reach and at any time, the status
    reports a spend within the window between 0 and [spentTotal], a
    remaining amount that is never negative, is zero exactly when the
    tracker is complete and otherwise adds up with [spentTotal] to the
    budget. *)
Theorem buyback_status_sane (taxTotal0 : Z) (b : t) (now : Z) :
  reachable taxTotal0 b ->
  0 <= spentWindow (getStatus b now) <= spentTotal b
  /\ 0 <= remaining (getStatus b now)
  /\ (remaining (getStatus b now) = 0 <-> isComplete b = true)
  /\ (isComplete b = false ->
      remaining (getStatus b now) + spentTotal b = taxTotal b)
  /\ st_spentTotal (getStatus b now) = spentTotal b.
Proof.
  intros Hreach.
  assert (Hp : pruned b).
  { clear now. induction Hreach as [rw sa | b cb Hb IH | b now a h Hb IH Ha | b now Hb IH].
    - unfold pruned. simpl. repeat split; [constructor | lia | lia].
    - exact IH.
    - now apply recordSpent_pruned.
    - unfold checkStall.
      destruct (isStalled b now && negb (stallAlerted b) && onStall b); exact IH. }
  destruct Hp as [Hhist [Hsum Htot]].
  rewrite spentWindow_value, remaining_value, windowSum_filter.
  assert (Hamounts : Forall (fun r => 0 <= amount r) (spentHistory b))
    by (eapply Forall_impl; [|exact Hhist]; simpl; tauto).
  pose proof (historySum_filter (fun h => windowStartAt b now <=? time h)
                                _ Hamounts) as Hf.
  unfold isComplete.
  split; [lia|]. split; [lia|]. split; [|split; [|reflexivity]].
  - rewrite Z.leb_le. lia.
  - intros Hc. apply Z.leb_gt in Hc. lia.
Qed.

End BuybackTrackerMore.

(** *** Concrete trackers, continued *)

Lemma twoSpends_reachable : BuybackTracker.reachable (1000 * e18) twoSpends.
Proof.
  unfold twoSpends, trackerFor.
  repeat (apply BuybackTracker.reach_spent; [|unfold e18; lia]).
  apply BuybackTracker.reach_start, BuybackTracker.reach_new.
Qed.

Lemma buyback_history_pruned_witness :
  BuybackTracker.reachable (1000 * e18) twoSpends
  /\ historySum (BuybackTracker.spentHistory twoSpends)
     <= BuybackTracker.spentTotal twoSpends.
Proof.
  split; [exact twoSpends_reachable|].
  apply (buyback_history_pruned (1000 * e18) twoSpends twoSpends_reachable).
Defined.

Lemma buyback_total_and_completion_witness :
  unsignedSpends [BuybackTracker.Spent noon (100 * e18) "0xs1";
                  BuybackTracker.Check (noon + 6 * minute)]
  /\ BuybackTracker.isComplete (trackerFor 0) = true
  /\ snd (BuybackTracker.run (trackerFor 0)
            [BuybackTracker.Spent noon (100 * e18) "0xs1";
             BuybackTracker.Check (noon + 6 * minute)]) = O.
Proof.
  assert (Hu : unsignedSpends [BuybackTracker.Spent noon (100 * e18) "0xs1";
                               BuybackTracker.Check (noon + 6 * minute)])
    by (repeat constructor; unfold e18; lia).
  split; [exact Hu|]. split; [reflexivity|].
  apply (buyback_total_and_completion (trackerFor 0) _ Hu). reflexivity.
Defined.

Lemma buyback_status_sane_witness :
  BuybackTracker.reachable (1000 * e18) twoSpends
  /\ BuybackTracker.isComplete twoSpends = false
  /\ BuybackTracker.remaining (BuybackTracker.getStatus twoSpends noon)
     + BuybackTracker.spentTotal twoSpends
     = BuybackTracker.taxTotal twoSpends.
Proof.
  split; [exact twoSpends_reachable|]. split; [reflexivity|].
  apply (buyback_status_sane (1000 * e18) twoSpends noon twoSpends_reachable).
  reflexivity.
Defined.

(** ** Retrying *)

Section RetryProps.
Import Js Retry.
Context {S A : Type}.
Variable opts : RetryOptions S.
Variable fn : S -> S * result A.

(** The delays slept before the retries: the first is [d], each next one
    doubles (multiplies) the previous and is capped. *)
Fixpoint schedule (d : Z) (n : nat) : list Z :=
  match n with
  | O => []
  | Datatypes.S k =>
      d :: schedule (Z.min (d * backoffMultiplier opts) (maxDelayMs opts)) k
  end.

Lemma loop_shape (remaining : nat) :
  forall attempt delay lastError s,
    (attempt + remaining = maxAttempts opts + 1)%nat ->
    let r := loop opts fn remaining attempt delay lastError s in
    (attempts r <= remaining)%nat
    /\ (1 <= remaining -> 1 <= attempts r)%nat
    /\ sleeps r = schedule delay (pred (attempts r))
    /\ (forall a, value r = Returned a -> (1 <= attempts r)%nat).
Proof.
  induction remaining as [|rem IH]; intros attempt delay lastError s Hinv;
    cbn [loop].
  - simpl. repeat split; [lia | lia | discriminate].
  - destruct (fn s) as [s1 [a|error]]; [simpl; repeat split; lia|].
    destruct (match shouldRetry opts with
              | Some p => negb (p error attempt) | None => false end);
      [simpl; repeat split; [lia | lia | discriminate]|].
    destruct (Nat.leb_spec (maxAttempts opts) attempt) as [Hlast|Hmore];
      [simpl; repeat split; [lia | lia | discriminate]|].
    match goal with |- context [loop opts fn rem ?a ?d ?le ?s2] =>
      destruct (IH a d le s2 ltac:(lia)) as [Hatt [Hpos [Hsl Hret]]];
      destruct (loop opts fn rem a d le s2) as [f v n sl] end.
    simpl in *. specialize (Hpos ltac:(lia)).
    split; [lia|]. split; [lia|]. split; [|intros; lia].
    destruct n as [|n]; [lia|]. simpl in *. now subst sl.
Qed.

Lemma schedule_capped (n : nat) :
  forall d, Forall (fun x => x <= maxDelayMs opts) (tl (schedule d n)).
Proof.
  induction n as [|n IH]; intros d; simpl; [constructor|].
  destruct n as [|n]; simpl; [constructor|].
  constructor; [lia|]. apply (IH (Z.min (d * backoffMultiplier opts) (maxDelayMs opts))).
Qed.

(** X16: [withRetry] calls the operation at most [maxAttempts] times and
    sleeps once between two calls: first the initial delay, then each time
    the previous delay times the multiplier, capped at [maxDelayMs]; a
    returned value comes from a call; and with [maxAttempts = 0] the
    operation is never called and what is thrown is the undefined
    [lastError]. *)
Theorem withRetry_bounded (s : S) :
  let r := withRetry opts fn s in
  (attempts r <= maxAttempts opts)%nat
  /\ sleeps r = schedule (initialDelayMs opts) (pred (attempts r))
  /\ Forall (fun x => x <= maxDelayMs opts) (tl (sleeps r))
  /\ (forall a, value r = Returned a -> (1 <= attempts r)%nat)
  /\ (maxAttempts opts = O ->
      value r = Thrown None /\ attempts r = O /\ final r = s).
Proof.
  intros r. subst r. unfold withRetry.
  destruct (loop_shape (maxAttempts opts) 1 (initialDelayMs opts) None s
              ltac:(lia)) as [Hatt [_ [Hsl Hret]]].
  split; [exact Hatt|]. split; [exact Hsl|]. split; [|split; [exact Hret|]].
  - rewrite Hsl. apply schedule_capped.
  - intros H0. rewrite H0. simpl. repeat split.
Qed.

End RetryProps.

(** An operation that fails twice and then answers, under the default
    options. *)
Definition flaky (calls : nat) : nat * Js.result nat :=
  (Datatypes.S calls,
   if (calls <? 2)%nat then Js.Throw "timeout" else Js.Ok calls).

Definition defaultOptions : Retry.RetryOptions nat :=
  Retry.withDefaults None None None None.

Lemma withRetry_bounded_witness :
  (Retry.attempts (Retry.withRetry defaultOptions flaky 0%nat) <= 3)%nat
  /\ Retry.sleeps (Retry.withRetry defaultOptions flaky 0%nat) = [1000; 2000]
  /\ (1 <= Retry.attempts (Retry.withRetry defaultOptions flaky 0%nat))%nat.
Proof.
  destruct (withRetry_bounded defaultOptions flaky 0%nat)
    as [Hatt [Hsl [_ [Hret _]]]].
  split; [exact Hatt|]. split; [rewrite Hsl; reflexivity|].
  apply (Hret 2%nat). reflexivity.
Defined.

(** ** Calls through the pool *)

Section RpcCallProps.
Import Js Retry RpcCall.
Context {A : Type}.
Variable op : nat -> result A.

(** The provider [j] steps after the current one, cyclically. *)
Definition providerAfter (pool : RpcPool.t) (j : nat) : nat :=
  ((RpcPool.currentHttpIndex pool + j) mod RpcPool.httpCount pool)%nat.

Definition attemptOn (p : RpcPool.t) : RpcPool.t * result A :=
  (p, op (RpcPool.getHttpProvider p)).

Lemma providerAfter_rotate (pool : RpcPool.t) (j : nat) :
  (0 < RpcPool.httpCount pool)%nat ->
  providerAfter (RpcPool.rotateHttp pool) j = providerAfter pool (Datatypes.S j).
Proof.
  intros Hn. unfold providerAfter, RpcPool.rotateHttp. simpl.
  rewrite Nat.Div0.add_mod_idemp_l. f_equal. lia.
Qed.

Lemma providerAfter_0 (pool : RpcPool.t) :
  (RpcPool.currentHttpIndex pool < RpcPool.httpCount pool)%nat ->
  providerAfter pool 0 = RpcPool.currentHttpIndex pool.
Proof.
  intros H. unfold providerAfter. rewrite Nat.add_0_r. now apply Nat.mod_small.
Qed.

Lemma rotate_in_range (pool : RpcPool.t) :
  (0 < RpcPool.httpCount pool)%nat ->
  (RpcPool.currentHttpIndex (RpcPool.rotateHttp pool)
   < RpcPool.httpCount (RpcPool.rotateHttp pool))%nat.
Proof. intros H. simpl. apply Nat.mod_upper_bound. lia. Qed.

Lemma call_step_ok (pool0 pool : RpcPool.t) (a : A)
    (rem attempt : nat) (delay : Z) (lastError : option string) :
  op (RpcPool.currentHttpIndex pool) = Ok a ->
  loop (callOptions pool0) attemptOn (Datatypes.S rem) attempt delay lastError pool
  = mkRun pool (Returned a) 1 [].
Proof.
  intros Hcall. cbn [loop]. unfold attemptOn at 1.
  unfold RpcPool.getHttpProvider. now rewrite Hcall.
Qed.

Lemma call_step_fails (pool0 pool : RpcPool.t) (e : string)
    (rem attempt : nat) (delay : Z) (lastError : option string) :
  op (RpcPool.currentHttpIndex pool) = Throw e ->
  (attempt < RpcPool.httpCount pool0)%nat ->
  loop (callOptions pool0) attemptOn (Datatypes.S rem) attempt delay lastError pool
  = let rest := loop (callOptions pool0) attemptOn rem (Datatypes.S attempt)
                     (Z.min (delay * 2) 5000) (Some e)
                     (RpcPool.rotateHttp pool) in
    mkRun (final rest) (value rest) (Datatypes.S (attempts rest))
          (delay :: sleeps rest).
Proof.
  intros Hcall Hmore. cbn [loop]. unfold attemptOn at 1.
  unfold RpcPool.getHttpProvider. rewrite Hcall.
  cbn [callOptions withDefaults shouldRetry maxAttempts onRetry
       backoffMultiplier maxDelayMs].
  destruct (Nat.leb_spec (RpcPool.httpCount pool0) attempt); [lia | reflexivity].
Qed.

Lemma call_step_last (pool0 pool : RpcPool.t) (e : string)
    (rem attempt : nat) (delay : Z) (lastError : option string) :
  op (RpcPool.currentHttpIndex pool) = Throw e ->
  (RpcPool.httpCount pool0 <= attempt)%nat ->
  loop (callOptions pool0) attemptOn (Datatypes.S rem) attempt delay lastError pool
  = mkRun pool (Thrown (Some e)) 1 [].
Proof.
  intros Hcall Hlast. cbn [loop]. unfold attemptOn at 1.
  unfold RpcPool.getHttpProvider. rewrite Hcall.
  cbn [callOptions withDefaults shouldRetry maxAttempts onRetry
       backoffMultiplier maxDelayMs].
  destruct (Nat.leb_spec (RpcPool.httpCount pool0) attempt); [reflexivity | lia].
Qed.

(** The loop of [call] when the first [k] endpoints in cyclic order fail
    and the next one answers. *)
Lemma call_loop_success (pool0 : RpcPool.t) (a : A) (k : nat) :
  forall remaining attempt delay lastError pool,
    RpcPool.httpCount pool = RpcPool.httpCount pool0 ->
    (RpcPool.currentHttpIndex pool < RpcPool.httpCount pool)%nat ->
    (k < remaining)%nat ->
    (attempt + remaining = RpcPool.httpCount pool0 + 1)%nat ->
    (forall j, (j < k)%nat -> TaxTracker.isOk (op (providerAfter pool j)) = false) ->
    op (providerAfter pool k) = Ok a ->
    let r := loop (callOptions pool0) attemptOn remaining attempt delay
                  lastError pool in
    value r = Returned a
    /\ attempts r = Datatypes.S k
    /\ final r = RpcPool.mk (RpcPool.httpCount pool0) (providerAfter pool k).
Proof.
  induction k as [|k IH]; intros remaining attempt delay lastError pool
                                 Hcount Hin Hrem Hinv Hfail Hok.
  - destruct remaining as [|rem]; [lia|].
    rewrite providerAfter_0 in * by assumption.
    rewrite (call_step_ok pool0 pool a rem attempt delay lastError Hok).
    cbn [final value attempts]. repeat split.
    destruct pool as [n i]. simpl in *. now subst n.
  - destruct remaining as [|rem]; [lia|].
    pose proof (Hfail O ltac:(lia)) as H0.
    rewrite providerAfter_0 in H0 by assumption.
    destruct (op (RpcPool.currentHttpIndex pool)) as [x|e] eqn:Hcall;
      [discriminate|].
    rewrite (call_step_fails pool0 pool e rem attempt delay lastError Hcall)
      by lia.
    assert (Hpos : (0 < RpcPool.httpCount pool)%nat) by lia.
    destruct (IH rem (Datatypes.S attempt) (Z.min (delay * 2) 5000) (Some e)
                 (RpcPool.rotateHttp pool)) as [Hv [Ha Hf]]; try (simpl; lia).
    + now apply rotate_in_range.
    + intros j Hj. rewrite providerAfter_rotate by assumption. apply Hfail. lia.
    + now rewrite providerAfter_rotate.
    + cbn [final value attempts]. rewrite providerAfter_rotate in Hf by assumption.
      repeat split; [exact Hv | now rewrite Ha | exact Hf].
Qed.

(** The loop of [call] when every endpoint fails. *)
Lemma call_loop_failure (pool0 : RpcPool.t) (remaining : nat) :
  forall attempt delay lastError pool,
    RpcPool.httpCount pool = RpcPool.httpCount pool0 ->
    (RpcPool.currentHttpIndex pool < RpcPool.httpCount pool)%nat ->
    (1 <= remaining)%nat ->
    (attempt + remaining = RpcPool.httpCount pool0 + 1)%nat ->
    (forall p, (p < RpcPool.httpCount pool0)%nat -> TaxTracker.isOk (op p) = false) ->
    let r := loop (callOptions pool0) attemptOn remaining attempt delay
                  lastError pool in
    (exists e, value r = Thrown (Some e)
               /\ op (providerAfter pool (remaining - 1)) = Throw e)
    /\ attempts r = remaining
    /\ final r = RpcPool.mk (RpcPool.httpCount pool0)
                            (providerAfter pool (remaining - 1)).
Proof.
  induction remaining as [|rem IH]; intros attempt delay lastError pool
                                           Hcount Hin Hrem Hinv Hfail; [lia|].
  pose proof (Hfail (RpcPool.currentHttpIndex pool) ltac:(lia)) as H0.
  destruct (op (RpcPool.currentHttpIndex pool)) as [x|e] eqn:Hcall;
    [discriminate|].
  destruct rem as [|rem].
  - rewrite (call_step_last pool0 pool e 0 attempt delay lastError Hcall) by lia.
    cbn [final value attempts]. replace (1 - 1)%nat with O by lia.
    rewrite providerAfter_0 by assumption. split; [eauto|]. split; [reflexivity|].
    destruct pool as [n i]. simpl in *. now subst n.
  - rewrite (call_step_fails pool0 pool e (Datatypes.S rem) attempt delay
                             lastError Hcall) by lia.
    assert (Hpos : (0 < RpcPool.httpCount pool)%nat) by lia.
    destruct (IH (Datatypes.S attempt) (Z.min (delay * 2) 5000) (Some e)
                 (RpcPool.rotateHttp pool)) as [[e' [Hv He]] [Ha Hf]];
      try (simpl; lia); try assumption.
    + now apply rotate_in_range.
    + cbn [final value attempts].
      replace (Datatypes.S rem - 0)%nat with (Datatypes.S rem) in * by lia.
      rewrite providerAfter_rotate in He, Hf by assumption.
      replace (Datatypes.S (Datatypes.S rem) - 1)%nat
        with (Datatypes.S (Datatypes.S rem - 1)) by lia.
      split; [eauto|]. split; [now rewrite Ha | exact Hf].
Qed.

(** X17: [call] tries the endpoints one after the other in cyclic order,
    starting with the current one.  When the endpoint [k] steps ahead is
    the first that answers, [call] returns its answer after [k + 1]
    attempts and leaves that endpoint current; when no endpoint answers,
    it throws the error of the last one tried after exactly one attempt
    per endpoint, and leaves the pool on that last endpoint, one step
    before the one it started from. *)
Theorem rpc_call_cycles (pool : RpcPool.t) (k : nat) (a : A) :
  (RpcPool.currentHttpIndex pool < RpcPool.httpCount pool)%nat ->
  ((k < RpcPool.httpCount pool)%nat ->
   (forall j, (j < k)%nat -> TaxTracker.isOk (op (providerAfter pool j)) = false) ->
   op (providerAfter pool k) = Ok a ->
   value (call op pool) = Returned a
   /\ attempts (call op pool) = Datatypes.S k
   /\ final (call op pool)
      = RpcPool.mk (RpcPool.httpCount pool) (providerAfter pool k))
  /\ ((forall p, (p < RpcPool.httpCount pool)%nat -> TaxTracker.isOk (op p) = false) ->
      (exists e, value (call op pool) = Thrown (Some e)
                 /\ op (providerAfter pool (RpcPool.httpCount pool - 1)) = Throw e)
      /\ attempts (call op pool) = RpcPool.httpCount pool
      /\ final (call op pool)
         = RpcPool.mk (RpcPool.httpCount pool)
                      (providerAfter pool (RpcPool.httpCount pool - 1))).
Proof.
  intros Hin. unfold call, withRetry.
  change (maxAttempts (callOptions pool)) with (RpcPool.httpCount pool).
  change (fun p : RpcPool.t => (p, op (RpcPool.getHttpProvider p))) with attemptOn.
  split.
  - intros Hk Hfail Hok.
    apply (call_loop_success pool a k); try assumption; try reflexivity. lia.
  - intros Hfail.
    apply (call_loop_failure pool (RpcPool.httpCount pool)); try assumption;
      try reflexivity; lia.
Qed.

(** *** [selectFastest] *)

Variable probe : nat -> option Q.

(** The entry that ends up first after the sort: the running minimum, an
    equal latency never displacing an earlier entry. *)
Definition better (b : option (nat * Q)) (x : nat * Q) : option (nat * Q) :=
  match b with
  | None => Some x
  | Some y => if Qle_bool (snd y) (snd x) then Some y else Some x
  end.

Lemma insertLatency_head (x : nat * Q) (l : list (nat * Q)) :
  hd_error (insertLatency x l) = better (hd_error l) x.
Proof.
  destruct l as [|y r]; simpl; [reflexivity|].
  now destruct (Qle_bool (snd y) (snd x)).
Qed.

Lemma sortLatencies_head (l : list (nat * Q)) :
  forall acc,
    hd_error (fold_left (fun acc x => insertLatency x acc) l acc)
    = fold_left better l (hd_error acc).
Proof.
  induction l as [|x l IH]; intros acc; simpl; [reflexivity|].
  now rewrite IH, insertLatency_head.
Qed.

(** What the running minimum knows after the providers below [i]. *)
Definition fastestBelow (i : nat) (b : option (nat * Q)) : Prop :=
  match b with
  | None => forall j, (j < i)%nat -> probe j = None
  | Some (w, lat) =>
      (w < i)%nat /\ probe w = Some lat
      /\ forall j lat', (j < i)%nat -> probe j = Some lat' ->
                        (lat <= lat')%Q /\ ((j < w)%nat -> (lat < lat')%Q)
  end.

Lemma measure_fastest (n : nat) :
  forall i b,
    fastestBelow i b ->
    fastestBelow (i + n) (fold_left better (measure probe i n) b).
Proof.
  induction n as [|n IH]; intros i b Hb; simpl.
  - now rewrite Nat.add_0_r.
  - replace (i + Datatypes.S n)%nat with (Datatypes.S i + n)%nat by lia.
    destruct (probe i) as [lat|] eqn:Hi; simpl; apply IH.
    + destruct b as [[w l0]|]; simpl in *.
      * destruct Hb as [Hw [Hpw Hmin]].
        destruct (Qle_bool l0 lat) eqn:Hle; simpl.
        -- apply Qle_bool_iff in Hle.
           split; [lia|]. split; [exact Hpw|].
           intros j lat' Hj Hpj.
           destruct (Nat.eq_dec j i) as [->|Hne].
           ++ rewrite Hi in Hpj. injection Hpj as <-. split; [exact Hle | lia].
           ++ apply Hmin; [lia | exact Hpj].
        -- assert (Hlt : (lat < l0)%Q).
           { apply Qnot_le_lt. intros H. apply Qle_bool_iff in H. congruence. }
           split; [lia|]. split; [exact Hi|].
           intros j lat' Hj Hpj.
           destruct (Nat.eq_dec j i) as [->|Hne].
           ++ rewrite Hi in Hpj. injection Hpj as <-. split; [apply Qle_refl | lia].
           ++ destruct (Hmin j lat' ltac:(lia) Hpj) as [Hl _].
              split; [apply Qlt_le_weak|intros _];
                apply Qlt_le_trans with l0; assumption.
      * split; [lia|]. split; [exact Hi|].
        intros j lat' Hj Hpj.
        destruct (Nat.eq_dec j i) as [->|Hne].
        -- rewrite Hi in Hpj. injection Hpj as <-. split; [apply Qle_refl | lia].
        -- rewrite (Hb j ltac:(lia)) in Hpj. discriminate.
    + destruct b as [[w l0]|]; simpl in *.
      * destruct Hb as [Hw [Hpw Hmin]].
        split; [lia|]. split; [exact Hpw|].
        intros j lat' Hj Hpj.
        destruct (Nat.eq_dec j i) as [->|Hne]; [congruence|].
        apply Hmin; [lia | exact Hpj].
      * intros j Hj. destruct (Nat.eq_dec j i) as [->|Hne]; [exact Hi|].
        apply Hb. lia.
Qed.

(** X18: [selectFastest] never changes the number of endpoints; when no
    endpoint answers the probe it leaves the pool as it was; otherwise the
    endpoint it makes current answered the probe, no endpoint answered
    faster, and every endpoint before it in the list was strictly slower
    (among equally fast endpoints the first one wins). *)
Theorem selectFastest_picks_minimum (pool : RpcPool.t) :
  RpcPool.httpCount (selectFastest probe pool) = RpcPool.httpCount pool
  /\ ((forall j, (j < RpcPool.httpCount pool)%nat -> probe j = None) ->
      selectFastest probe pool = pool)
  /\ (forall j lat',
        (j < RpcPool.httpCount pool)%nat -> probe j = Some lat' ->
        exists lat,
          let w := RpcPool.currentHttpIndex (selectFastest probe pool) in
          (w < RpcPool.httpCount pool)%nat /\ probe w = Some lat
          /\ (lat <= lat')%Q /\ ((j < w)%nat -> (lat < lat')%Q)).
Proof.
  pose proof (measure_fastest (RpcPool.httpCount pool) 0 None) as Hf.
  simpl in Hf. specialize (Hf ltac:(intros j Hj; lia)).
  pose proof (sortLatencies_head (measure probe 0 (RpcPool.httpCount pool)) [])
    as Hhd.
  fold (sortLatencies (measure probe 0 (RpcPool.httpCount pool))) in Hhd.
  simpl in Hhd. rewrite <- Hhd in Hf. unfold selectFastest.
  destruct (sortLatencies (measure probe 0 (RpcPool.httpCount pool)))
    as [|[w lat] rest]; simpl in *.
  - split; [reflexivity|]. split; [reflexivity|].
    intros j lat' Hj Hpj. rewrite (Hf j Hj) in Hpj. discriminate.
  - destruct Hf as [Hw [Hpw Hmin]].
    split; [reflexivity|]. split.
    + intros Hnone. rewrite (Hnone w Hw) in Hpw. discriminate.
    + intros j lat' Hj Hpj. exists lat.
      destruct (Hmin j lat' Hj Hpj) as [Hle Hlt].
      split; [exact Hw|]. split; [exact Hpw|]. split; assumption.
Qed.

End RpcCallProps.

(** Two endpoints of which only the second answers, and none that does. *)
Definition secondAnswers (provider : nat) : Js.result Z :=
  if (provider =? 1)%nat then Js.Ok 42 else Js.Throw "connection refused".

Definition noneAnswers (provider : nat) : Js.result Z :=
  Js.Throw "connection refused".

Lemma rpc_call_cycles_witness :
  Retry.value (RpcCall.call secondAnswers twoEndpoints) = Retry.Returned 42
  /\ Retry.final (RpcCall.call secondAnswers twoEndpoints) = RpcPool.mk 2 1
  /\ Retry.attempts (RpcCall.call noneAnswers twoEndpoints) = 2%nat
  /\ Retry.final (RpcCall.call noneAnswers twoEndpoints) = RpcPool.mk 2 1.
Proof.
  destruct (rpc_call_cycles secondAnswers twoEndpoints 1 42)
    as [Hfirst _]; [simpl; lia|].
  destruct Hfirst as [Hv [_ Hf]];
    [simpl; lia
    | intros j Hj; assert (j = 0%nat) as -> by lia; reflexivity
    | reflexivity |].
  destruct (rpc_call_cycles noneAnswers twoEndpoints 0 0)
    as [_ Hnone]; [simpl; lia|].
  destruct Hnone as [_ [Ha Hf']]; [reflexivity|].
  split; [exact Hv|]. split; [exact Hf|]. split; [exact Ha | exact Hf'].
Defined.

(** Three endpoints: the first does not answer the probe, the other two
    are equally fast. *)
Definition probeTie (provider : nat) : option Q :=
  match provider with
  | 0%nat => None
  | _ => Some (120 # 1)%Q
  end.

Lemma selectFastest_picks_minimum_witness :
  exists lat,
    (RpcPool.currentHttpIndex (RpcCall.selectFastest probeTie (RpcPool.mk 3 0)) < 3)%nat
    /\ probeTie (RpcPool.currentHttpIndex
                   (RpcCall.selectFastest probeTie (RpcPool.mk 3 0))) = Some lat
    /\ (lat <= 120 # 1)%Q.
Proof.
  destruct (selectFastest_picks_minimum probeTie (RpcPool.mk 3 0))
    as [_ [_ Hmin]].
  destruct (Hmin 2%nat (120 # 1)%Q) as [lat [Hw [Hp [Hle _]]]];
    [simpl; lia | reflexivity |].
  exists lat. split; [exact Hw|]. split; [exact Hp | exact Hle].
Defined.


(** ** The rotation of the pool *)

Section RpcPoolProps.

Lemma rotate_iter (pool : RpcPool.t) (j : nat) :
  (0 < RpcPool.httpCount pool)%nat ->
  Nat.iter j RpcPool.rotateHttp pool
  = match j with
    | O => pool
    | _ => RpcPool.mk (RpcPool.httpCount pool)
             ((RpcPool.currentHttpIndex pool + j) mod RpcPool.httpCount pool)%nat
    end.
Proof.
  intros Hn. induction j as [|j IH]; [reflexivity|].
  rewrite Nat.iter_succ, IH. destruct j as [|j].
  - reflexivity.
  - unfold RpcPool.rotateHttp. cbn [RpcPool.httpCount RpcPool.currentHttpIndex].
    f_equal. rewrite Nat.Div0.add_mod_idemp_l. f_equal. lia.
Qed.

(** X19: on a pool whose current index is in range, [rotateHttp] walks a
    cycle through all endpoints: as many rotations as there are endpoints
    bring the pool back to where it was, and fewer (but at least one)
    never do. *)
Theorem rotateHttp_cycle (pool : RpcPool.t) :
  (RpcPool.currentHttpIndex pool < RpcPool.httpCount pool)%nat ->
  Nat.iter (RpcPool.httpCount pool) RpcPool.rotateHttp pool = pool
  /\ forall j, (0 < j < RpcPool.httpCount pool)%nat ->
               RpcPool.currentHttpIndex (Nat.iter j RpcPool.rotateHttp pool)
               <> RpcPool.currentHttpIndex pool.
Proof.
  intros Hin. destruct pool as [n i]. simpl in Hin. split.
  - rewrite rotate_iter by (simpl; lia).
    cbn [RpcPool.httpCount RpcPool.currentHttpIndex].
    destruct n as [|n]; [lia|]. f_equal.
    symmetry. apply (Nat.mod_unique _ _ 1); lia.
  - intros j Hj. rewrite rotate_iter by (simpl; lia).
    cbn [RpcPool.httpCount RpcPool.currentHttpIndex] in *.
    destruct j as [|j]; [lia|]. cbn [RpcPool.currentHttpIndex].
    destruct (Nat.lt_ge_cases (i + Datatypes.S j) n) as [Hlt|Hge].
    + rewrite Nat.mod_small by exact Hlt. lia.
    + rewrite <- (Nat.mod_unique (i + Datatypes.S j) n 1 (i + Datatypes.S j - n));
        lia.
Qed.

End RpcPoolProps.

Lemma rotateHttp_cycle_witness :
  Nat.iter 2 RpcPool.rotateHttp twoEndpoints = twoEndpoints
  /\ RpcPool.currentHttpIndex (Nat.iter 1 RpcPool.rotateHttp twoEndpoints)
     <> RpcPool.currentHttpIndex twoEndpoints.
Proof.
  destruct (rotateHttp_cycle twoEndpoints) as [Hback Hother]; [simpl; lia|].
  split; [exact Hback|]. apply Hother. simpl. lia.
Defined.

(** ** The rings of the API surface *)

Section ApiServerMore.
Import ApiServer.

Lemma push_firstn {A} (n : nat) (x : A) (l : list A) :
  (List.length l <= n)%nat ->
  (if (n <? List.length (x :: l))%nat then removelast (x :: l) else x :: l)
  = firstn n (x :: l).
Proof.
  intros Hlen. destruct (Nat.ltb_spec n (List.length (x :: l))) as [Hfull|Hroom].
  - rewrite removelast_firstn_len. f_equal. cbn [List.length] in *. lia.
  - symmetry. apply firstn_all2. exact Hroom.
Qed.

Lemma pushBounded_firstn {A} (x : A) (l : list A) :
  (List.length l <= maxHistory)%nat ->
  pushBounded x l = firstn maxHistory (x :: l).
Proof. intros H. unfold pushBounded. now apply push_firstn. Qed.

Lemma firstn_app_firstn {A} (n : nat) (l r : list A) :
  firstn n (l ++ firstn n r) = firstn n (l ++ r).
Proof.
  revert n r. induction l as [|x l IH]; intros n r.
  - change ([] ++ firstn n r) with (firstn n r). change ([] ++ r) with r.
    rewrite firstn_firstn. f_equal. lia.
  - destruct n as [|n]; [reflexivity|].
    change ((x :: l) ++ firstn (Datatypes.S n) r)
      with (x :: (l ++ firstn (Datatypes.S n) r)).
    change ((x :: l) ++ r) with (x :: (l ++ r)).
    rewrite !firstn_cons. f_equal.
    rewrite <- (IH n r), <- (IH n (firstn (Datatypes.S n) r)).
    f_equal. f_equal. rewrite firstn_firstn. f_equal. lia.
Qed.

(** The server after the trades of [l], oldest first, each with the clock
    reading of its broadcast. *)
Definition recordTrades (s : t) (l : list (Z * WhaleTrades.WhaleTradeInfo)) : t :=
  fold_left (fun s x => recordTrade s (fst x) (snd x)) l s.

(** X20: both histories of the API surface are rings of the 100 newest
    entries, newest first.  Starting from histories within the limit, a
    run of recorded trades leaves the trade history equal to the first 100
    of the trades in reverse order followed by what was there, and the
    event history holding one [whale_trade] event per recorded trade in
    the same order, cut at 100 as well. *)
Theorem recordTrades_ring (l : list (Z * WhaleTrades.WhaleTradeInfo)) :
  forall s : t,
    (List.length (tradeHistory s) <= maxHistory)%nat ->
    (List.length (eventHistory s) <= maxHistory)%nat ->
    tradeHistory (recordTrades s l)
    = firstn maxHistory (rev (List.map snd l) ++ tradeHistory s)
    /\ List.map timestamp (eventHistory (recordTrades s l))
       = firstn maxHistory
           (rev (List.map fst l) ++ List.map timestamp (eventHistory s))
    /\ (List.length (tradeHistory (recordTrades s l)) <= maxHistory)%nat
    /\ (List.length (eventHistory (recordTrades s l)) <= maxHistory)%nat.
Proof.
  induction l as [|[now trade] l IH]; intros s Ht He.
  - cbn [recordTrades fold_left List.map rev app].
    rewrite !firstn_all2 by (rewrite ?length_map; assumption).
    repeat split; assumption.
  - cbn [recordTrades fold_left fst snd].
    fold (recordTrades (recordTrade s now trade) l).
    assert (Ht1 : tradeHistory (recordTrade s now trade)
                  = firstn maxHistory (trade :: tradeHistory s)).
    { unfold recordTrade, broadcast. cbn [tradeHistory].
      now apply pushBounded_firstn. }
    assert (He1 : exists ev,
               timestamp ev = now
               /\ eventHistory (recordTrade s now trade)
                  = firstn maxHistory (ev :: eventHistory s)).
    { unfold recordTrade, broadcast. cbn [eventHistory].
      eexists. split; [|now apply pushBounded_firstn]. reflexivity. }
    destruct He1 as [ev [Hts He1]].
    destruct (IH (recordTrade s now trade)) as [IHt [IHe [IHlt IHle]]].
    { rewrite Ht1. apply firstn_le_length. }
    { rewrite He1. apply firstn_le_length. }
    split; [|split; [|split; assumption]].
    + rewrite IHt, Ht1. cbn [List.map rev snd]. rewrite <- app_assoc.
      cbn [app]. apply firstn_app_firstn.
    + rewrite IHe, He1, <- firstn_map, firstn_app_firstn.
      cbn [List.map rev fst]. rewrite <- app_assoc, Hts. reflexivity.
Qed.

End ApiServerMore.

Definition bigSell : WhaleTrades.WhaleTradeInfo :=
  WhaleTrades.mkTrade WhaleTrades.SELL (2500 * e18) 0 "0xseller" "0xdef" 9 0.

Lemma recordTrades_ring_witness :
  ApiServer.tradeHistory (recordTrades emptyServer [(1, bigBuy); (2, bigSell)])
  = [bigSell; bigBuy]
  /\ List.map ApiServer.timestamp
       (ApiServer.eventHistory
          (recordTrades emptyServer [(1, bigBuy); (2, bigSell)]))
     = [2; 1].
Proof.
  destruct (recordTrades_ring [(1, bigBuy); (2, bigSell)] emptyServer)
    as [Ht [He _]]; [simpl; lia | simpl; lia |].
  split; [rewrite Ht | rewrite He]; reflexivity.
Defined.

(** ** The buyback phase of the state machine *)

Section BuybackPhaseProps.
Import Js StateMachine.

Lemma publish_keeps (env : Env) (s : t) (b : BuybackTracker.t) :
  let s' := fst (publish env s b) in
  state (context s') = state (context s)
  /\ project (context s') = project (context s)
  /\ taxTotal (context s') = taxTotal (context s)
  /\ (buybackTracker s <> None -> buybackTracker s' <> None)
  /\ lastProjectStatusCheck s' = lastProjectStatusCheck s.
Proof.
  unfold publish.
  destruct (due (lastBuybackUpdate (context s)) (now env) (10 * 60 * 1000));
    [destruct (sendBuybackStatus env)|]; cbn [fst context state project taxTotal
      buybackTracker lastProjectStatusCheck]; repeat split; auto; discriminate.
Qed.

Lemma supervise_keeps (env : Env) (s : t) (b : BuybackTracker.t) :
  let s' := fst (supervise env s b) in
  (state (context s') = state (context s) \/ state (context s') = DONE)
  /\ project (context s') = project (context s)
  /\ taxTotal (context s') = taxTotal (context s)
  /\ (buybackTracker s <> None -> buybackTracker s' <> None)
  /\ (forall e, snd (supervise env s b) = Throw e ->
                state (context s') = state (context s)).
Proof.
  unfold supervise.
  set (s1 := mk (context s) (buybackTracker s) (Some (checkedAt env))).
  pose proof (publish_keeps env s b) as [P1 [P2 [P3 [P4 _]]]].
  pose proof (publish_keeps env s1 b) as [Q1 [Q2 [Q3 [Q4 _]]]].
  assert (Hdone : forall u : t,
             snd (transition u DONE, Ok tt) = Ok tt) by reflexivity.
  destruct (due (lastProjectStatusCheck s) (now env) (60 * 1000)).
  - destruct (getProjectById env) as [[fresh|]|e0];
      [destruct (graduated fresh)|..];
      cbn [fst snd transition context state project taxTotal buybackTracker];
      repeat split; auto; try discriminate.
  - repeat split; auto.
Qed.

(** X21: whatever the outside answers, one call of the buyback handler
    keeps the selected project and the tax total; without a project it
    only moves to DISCOVER; with one it stays in its state or moves to
    DONE, it leaves a tracker in place, and when it throws the state is
    the one it was called in. *)
Theorem buyback_phase_outcomes (env : Env) (s : t) :
  let s' := fst (handleBuybackPhase env s) in
  project (context s') = project (context s)
  /\ taxTotal (context s') = taxTotal (context s)
  /\ (project (context s) = None ->
      handleBuybackPhase env s = (transition s DISCOVER, Ok tt))
  /\ (project (context s) <> None ->
      (state (context s') = state (context s) \/ state (context s') = DONE)
      /\ buybackTracker s' <> None)
  /\ (forall e, snd (handleBuybackPhase env s) = Throw e ->
                state (context s') = state (context s)).
Proof.
  unfold handleBuybackPhase.
  destruct (project (context s)) as [p|] eqn:Hp.
  2:{ cbn [fst snd transition context project taxTotal state].
      repeat split; auto; try congruence; discriminate. }
  set (b0 := BuybackTracker.start true
               (BuybackTracker.new (taxTotal (context s))
                  (buybackRateWindowMinutes env) (stallAlertMinutes env))).
  set (s0 := mk (context s) (Some b0) (lastProjectStatusCheck s)).
  assert (Hcases :
    forall (u : t) (b : BuybackTracker.t),
      context u = context s -> buybackTracker u = Some b ->
      let r := if BuybackTracker.isComplete b then (transition u DONE, Ok tt)
               else supervise env u b in
      project (context (fst r)) = Some p
      /\ taxTotal (context (fst r)) = taxTotal (context s)
      /\ (Some p = None -> r = (transition s DISCOVER, Ok tt))
      /\ (Some p <> None ->
          (state (context (fst r)) = state (context s)
           \/ state (context (fst r)) = DONE)
          /\ buybackTracker (fst r) <> None)
      /\ (forall e, snd r = Throw e ->
                    state (context (fst r)) = state (context s))).
  { intros u b Hc Hb.
    pose proof (supervise_keeps env u b) as [S1 [S2 [S3 [S4 S5]]]].
    rewrite Hc in *.
    destruct (BuybackTracker.isComplete b);
      cbn [fst snd transition context state project taxTotal buybackTracker].
    - rewrite Hc, Hb. cbn [project taxTotal].
      repeat split; auto; try congruence; discriminate.
    - rewrite S2, S3, Hp. repeat split; auto; try congruence.
      apply S4. congruence. }
  destruct (buybackTracker s) as [b|] eqn:Hb.
  - apply (Hcases s b); [reflexivity | exact Hb].
  - destruct (wsConnect env) as [[]|e0].
    + apply (Hcases s0 b0); reflexivity.
    + cbn [fst snd]. subst s0. cbn [context buybackTracker].
      rewrite Hp. repeat split; auto; try congruence; discriminate.
Qed.

(** X22: a call of the buyback handler that finds a tracker whose budget
    is not spent, less than a minute after the last catalog check and
    less than ten minutes after the last status publication, changes
    nothing and reads nothing from outside but the clock. *)
Theorem buyback_phase_idle (env : Env) (s : t) (p : Z) (b : BuybackTracker.t)
    (lastCheck lastUpdate : Z) :
  project (context s) = Some p ->
  buybackTracker s = Some b ->
  BuybackTracker.isComplete b = false ->
  lastProjectStatusCheck s = Some lastCheck ->
  now env - lastCheck < 60 * 1000 ->
  lastBuybackUpdate (context s) = Some lastUpdate ->
  now env - lastUpdate < 10 * 60 * 1000 ->
  handleBuybackPhase env s = (s, Ok tt).
Proof.
  intros Hp Hb Hc Hlc Hcheck Hlu Hupd.
  unfold handleBuybackPhase, supervise, publish, due.
  rewrite Hp, Hb, Hc, Hlc, Hlu.
  destruct (Z.leb_spec (60 * 1000) (now env - lastCheck)) as [Hx|_]; [lia|].
  destruct (Z.leb_spec (10 * 60 * 1000) (now env - lastUpdate)) as [Hy|_];
    [lia | reflexivity].
Qed.

(** X23: the handler swallows a failure of the catalog: a lookup that
    throws, one that finds no project and one that finds a project that
    has not graduated all leave the handler with the same state and the
    same outcome. *)
Theorem buyback_phase_catalog_failure
    (window stall : Z) (ws : result unit) (t_now t_checked : Z)
    (t_updated : Z) (sent : result unit) (t_stall : Z) (s : t) :
  let envWith answer :=
    mkEnv window stall ws t_now t_checked answer t_updated sent t_stall in
  (forall e, handleBuybackPhase (envWith (Throw e)) s
             = handleBuybackPhase (envWith (Ok None)) s)
  /\ (forall fresh, graduated fresh = false ->
        handleBuybackPhase (envWith (Ok (Some fresh))) s
        = handleBuybackPhase (envWith (Ok None)) s).
Proof.
  intros envWith. subst envWith. cbv beta. split.
  - intros e. unfold handleBuybackPhase, supervise.
    cbn [getProjectById wsConnect now]. reflexivity.
  - intros fresh Hg. unfold handleBuybackPhase, supervise.
    cbn [getProjectById wsConnect now]. rewrite Hg. reflexivity.
Qed.

End BuybackPhaseProps.

(** A machine that checked the catalog and published the status half a
    minute before noon. *)
Definition settledBuyback : StateMachine.t :=
  StateMachine.mk
    (StateMachine.mkCtx StateMachine.BUYBACK_PHASE (Some 42) (1000 * e18)
                        (Some (noon - 30000)))
    (Some spentAtNoon) (Some (noon - 30000)).

Definition stillUndergrad : StateMachine.Fresh :=
  StateMachine.mkFresh "UNDERGRAD" None.

Lemma buyback_phase_outcomes_witness :
  StateMachine.state
    (StateMachine.context
       (fst (StateMachine.handleBuybackPhase calmEnv enteringBuyback)))
  = StateMachine.DONE
  /\ StateMachine.buybackTracker
       (fst (StateMachine.handleBuybackPhase calmEnv enteringBuyback)) <> None.
Proof.
  destruct (buyback_phase_outcomes calmEnv enteringBuyback)
    as [_ [_ [_ [Hsome _]]]].
  destruct Hsome as [_ Htracker]; [discriminate|].
  split; [reflexivity | exact Htracker].
Defined.

Lemma buyback_phase_idle_witness :
  StateMachine.handleBuybackPhase calmEnv settledBuyback
  = (settledBuyback, Js.Ok tt).
Proof.
  apply (buyback_phase_idle calmEnv settledBuyback 42 spentAtNoon
           (noon - 30000) (noon - 30000)); try reflexivity.
Defined.

Lemma buyback_phase_catalog_failure_witness :
  StateMachine.handleBuybackPhase
    (StateMachine.mkEnv 20 5 (Js.Ok tt) noon noon (Js.Ok (Some stillUndergrad))
                        noon (Js.Ok tt) noon) enteringBuyback
  = StateMachine.handleBuybackPhase calmEnv enteringBuyback.
Proof.
  destruct (buyback_phase_catalog_failure 20 5 (Js.Ok tt) noon noon noon
              (Js.Ok tt) noon enteringBuyback) as [_ Hfresh].
  apply Hfresh. reflexivity.
Defined.

(** ** The cache of upcoming launches *)

Section PromiseAllProps.
Import Js.
Context {A : Type}.

Lemma firstRejected_In (promises : list (result A)) (order : list nat) (e : string) :
  firstRejected promises order = Some e -> In (Throw e) promises.
Proof.
  induction order as [|i r IH]; simpl; [discriminate|].
  destruct (nth_error promises i) as [[a|e']|] eqn:Hi; try exact IH.
  intros H. injection H as <-. exact (nth_error_In _ _ Hi).
Qed.

Lemma firstRejected_some (promises : list (result A)) (order : list nat)
    (i : nat) (e : string) :
  nth_error promises i = Some (Throw e) -> In i order ->
  firstRejected promises order <> None.
Proof.
  intros Hi. induction order as [|j r IH]; simpl; [intros []|].
  intros [->|Hin].
  - rewrite Hi. discriminate.
  - destruct (nth_error promises j) as [[a|e']|]; try (now apply IH).
    discriminate.
Qed.

(** [Promise.all] rejects exactly when one of the promises does, and then
    with the rejection of one of them. *)
Lemma firstRejection_spec (settled : list nat) (promises : list (result A)) :
  (forall e, firstRejection settled promises = Some e -> In (Throw e) promises)
  /\ (forall e, In (Throw e) promises -> firstRejection settled promises <> None).
Proof.
  unfold firstRejection. split.
  - intros e. apply firstRejected_In.
  - intros e He. apply In_nth_error in He. destruct He as [i Hi].
    apply (firstRejected_some promises _ i e Hi).
    apply in_or_app. right. apply in_seq. split; [lia|]. simpl.
    apply nth_error_Some. rewrite Hi. discriminate.
Qed.

End PromiseAllProps.

Section UpcomingCacheProps.
Import Js VirtualsApi.
Variable DateParse : string -> option Z.

(** X24: [getUpcomingLaunches] answers from its cache for 30 seconds
    after a successful fetch and runs one fetch at a time.  A call that
    finds the cache cold or expired and no fetch under way, and whose
    three fetches succeed, stores its result with the clock reading taken
    after the fetch; every call made less than 30 seconds after that
    reading returns the same list and leaves the client as it is,
    whatever the catalog would answer by then; a later call of which a
    fetch fails throws the error of one of its failed fetches and leaves
    the cache as it was; and a call that arrives while the fetch is under
    way returns what that fetch settles with and changes nothing. *)
Theorem upcoming_cache_window (api : t) (now : Z) (clock : nat -> Z)
    (doneTs : Z) (settled : list nat)
    (vibes unicorn unicornV2 : list VirtualsAgent) :
  (forall ts data, upcomingCache api = Some (ts, data) -> cacheTtlMs <= now - ts) ->
  upcomingInFlight api = None ->
  let first := getUpcomingLaunches DateParse api now clock doneTs settled
                 (Ok vibes) (Ok unicorn) (Ok unicornV2) in
  (forall later laterClock laterDone laterSettled v u u2,
      later - doneTs < cacheTtlMs ->
      getUpcomingLaunches DateParse (fst first) later laterClock laterDone
                          laterSettled v u u2
      = first)
  /\ (forall later laterClock laterDone laterSettled v u u2 e0,
         cacheTtlMs <= later - doneTs ->
         In (Throw e0) [v; u; u2] ->
         exists e,
           In (Throw e) [v; u; u2]
           /\ getUpcomingLaunches DateParse (fst first) later laterClock
                                  laterDone laterSettled v u u2
              = (fst first, Throw e))
  /\ (forall during duringClock duringDone duringSettled v u u2,
         now <= during ->
         getUpcomingLaunches DateParse (duringFetch api (snd first)) during
                             duringClock duringDone duringSettled v u u2
         = (duringFetch api (snd first), snd first)).
Proof.
  intros Hstale Hidle first.
  assert (Hfirst : first
                   = (mk (Some (doneTs, computeUpcoming DateParse clock vibes
                                                        unicorn unicornV2)) None,
                      Ok (computeUpcoming DateParse clock vibes unicorn unicornV2))).
  { subst first. unfold getUpcomingLaunches. rewrite Hidle.
    destruct (upcomingCache api) as [[ts data]|] eqn:Hc; [|reflexivity].
    specialize (Hstale ts data eq_refl).
    destruct (Z.ltb_spec (now - ts) cacheTtlMs) as [Hx|_]; [lia | reflexivity]. }
  rewrite Hfirst. cbn [fst snd]. split; [|split].
  - intros later laterClock laterDone laterSettled v u u2 Hfresh.
    unfold getUpcomingLaunches. cbn [upcomingCache].
    destruct (Z.ltb_spec (later - doneTs) cacheTtlMs) as [_|Hx];
      [reflexivity | lia].
  - intros later laterClock laterDone laterSettled v u u2 e0 Hexpired Hfail.
    unfold getUpcomingLaunches. cbn [upcomingCache upcomingInFlight].
    destruct (Z.ltb_spec (later - doneTs) cacheTtlMs) as [Hx|_]; [lia|].
    destruct (firstRejection_spec laterSettled [v; u; u2]) as [Hin Hsome].
    specialize (Hsome e0 Hfail).
    destruct (firstRejection laterSettled [v; u; u2]) as [e|] eqn:He;
      [|congruence].
    exists e. split; [now apply Hin|].
    unfold fetchAll. rewrite He.
    destruct v as [lv|ev]; [destruct u as [lu|eu]; [destruct u2 as [lu2|eu2]|]|];
      try reflexivity.
    exfalso. destruct Hfail as [H|[H|[H|[]]]]; discriminate H.
  - intros during duringClock duringDone duringSettled v u u2 Hafter.
    unfold getUpcomingLaunches, duringFetch.
    cbn [upcomingCache upcomingInFlight].
    destruct (upcomingCache api) as [[ts data]|] eqn:Hc; [|reflexivity].
    specialize (Hstale ts data eq_refl).
    destruct (Z.ltb_spec (during - ts) cacheTtlMs) as [Hx|_];
      [lia | reflexivity].
Qed.

End UpcomingCacheProps.

(** What the three fetches answer when the first two lists are down. *)
Definition vibesDown : Js.result (list VirtualsApi.VirtualsAgent) :=
  Js.Throw "vibes down".

Definition unicornDown : Js.result (list VirtualsApi.VirtualsAgent) :=
  Js.Throw "v4 down".

Definition noAgents : Js.result (list VirtualsApi.VirtualsAgent) := Js.Ok [].

(** A call half a minute after the fetch of the scenario above, of which
    two lists fail, the second one first. *)
Lemma upcoming_cache_window_witness :
  (exists e,
      In (Js.Throw e) [vibesDown; unicornDown; noAgents]
      /\ snd (VirtualsApi.getUpcomingLaunches parseDemo
                (fst (VirtualsApi.getUpcomingLaunches parseDemo coldApi 1000
                        ticking 1005 [2; 0; 1]%nat (Js.Ok [firstSeen])
                        (Js.Ok [agent9; agent8]) (Js.Ok [seenPostponed])))
                31005 ticking 31010 [1; 0; 2]%nat
                vibesDown unicornDown noAgents)
         = Js.Throw e)
  /\ snd (VirtualsApi.getUpcomingLaunches parseDemo
            (fst (VirtualsApi.getUpcomingLaunches parseDemo coldApi 1000
                    ticking 1005 [2; 0; 1]%nat (Js.Ok [firstSeen])
                    (Js.Ok [agent9; agent8]) (Js.Ok [seenPostponed])))
            31004 ticking 31010 [1; 0; 2]%nat
            vibesDown unicornDown noAgents)
     = Js.Ok [agent8; seenPostponed; agent9].
Proof.
  destruct (upcoming_cache_window parseDemo coldApi 1000 ticking 1005
              [2; 0; 1]%nat [firstSeen] [agent9; agent8] [seenPostponed])
    as [Hhit [Hfail _]].
  - intros ts data H. discriminate H.
  - reflexivity.
  - split.
    + destruct (Hfail 31005 ticking 31010 [1; 0; 2]%nat
                  vibesDown unicornDown noAgents
                  "vibes down") as [e [He Hcall]];
        [vm_compute; discriminate | now left |].
      exists e. split; [exact He|]. now rewrite Hcall.
    + rewrite Hhit by reflexivity. reflexivity.
Defined.

(** The rejection that comes first in time is the one thrown. *)
Example upcoming_rejection_order :
  snd (VirtualsApi.getUpcomingLaunches parseDemo coldApi 1000 ticking 1005
         [1; 0; 2]%nat
         vibesDown unicornDown noAgents)
  = Js.Throw "v4 down".
Proof. reflexivity. Qed.

(** ** The selection of the project *)

Section SelectProps.
Import Js Discovery.
Variable DateParse : string -> option Z.
Variable toUpperCase : string -> string.
Variable windowMs : Z.

Local Abbreviation t0For := (t0For DateParse).
Local Abbreviation isUndergrad := (isUndergrad toUpperCase).
Local Abbreviation collectT0 := (collectT0 DateParse).
Local Abbreviation inWindow := (inWindow windowMs).
Local Abbreviation isOrion := (isOrion toUpperCase).
Local Abbreviation selectProject := (selectProject DateParse toUpperCase windowMs).

(** An agent the selection considers at all. *)
Definition eligible (a : Listed) : Prop :=
  isUndergrad a = true /\ 0 < t0For a.

Definition inTaxWindow (now : Z) (a : Listed) : Prop :=
  t0For a <= now <= t0For a + windowMs.

(** The agents the pick is made among: the eligible ones inside the tax
    window when there is any, all eligible ones otherwise. *)
Definition candidate (now : Z) (agents : list Listed) (a : Listed) : Prop :=
  In a agents /\ eligible a
  /\ ((exists b, In b agents /\ eligible b /\ inTaxWindow now b) ->
      inTaxWindow now a).

Definition named_orion (a : Listed) : bool :=
  String.eqb (toUpperCase (VirtualsApi.symbol (agent a))) "ORION".

Lemma collectT0_In (x : Listed * Z) (l : list Listed) :
  In x (collectT0 l) <-> In (fst x) l /\ snd x = t0For (fst x) /\ 0 < snd x.
Proof.
  induction l as [|a r IH]; simpl; [tauto|].
  destruct (Z.leb_spec (t0For a) 0) as [Hle|Hgt].
  - rewrite IH. split; [tauto|]. intros [[->|Hin] [Ht Hp]]; [lia | tauto].
  - simpl. rewrite IH. split.
    + intros [<-|H]; simpl; [|tauto]. split; [now left|]. split; [reflexivity | lia].
    + intros [[->|Hin] [Ht Hp]]; [|tauto]. left. destruct x as [a' t].
      simpl in *. now subst t.
Qed.

Lemma withT0_In (x : Listed * Z) (agents : list Listed) :
  In x (collectT0 (filter isUndergrad agents))
  <-> In (fst x) agents /\ eligible (fst x) /\ snd x = t0For (fst x).
Proof.
  rewrite collectT0_In, filter_In. unfold eligible.
  split; [intros [[H1 H2] [H3 H4]] | intros [H1 [[H2 H3] H4]]];
    repeat split; try assumption; congruence || lia.
Qed.

Lemma inWindow_iff (now : Z) (x : Listed * Z) :
  snd x = t0For (fst x) ->
  inWindow now x = true <-> inTaxWindow now (fst x).
Proof.
  intros Hx. unfold Discovery.inWindow, inTaxWindow. rewrite <- Hx.
  rewrite andb_true_iff, !Z.leb_le. tauto.
Qed.

Lemma insertDesc_In (x z : Listed * Z) (l : list (Listed * Z)) :
  In z (insertDesc x l) <-> z = x \/ In z l.
Proof.
  induction l as [|y r IH]; simpl; [intuition|].
  destruct (snd x <=? snd y); simpl; [rewrite IH|]; intuition.
Qed.

Lemma sortDesc_fold_In (z : Listed * Z) (l : list (Listed * Z)) :
  forall acc,
    In z (fold_left (fun acc x => insertDesc x acc) l acc) <-> In z l \/ In z acc.
Proof.
  induction l as [|x l IH]; intros acc; simpl; [tauto|].
  rewrite IH, insertDesc_In. intuition.
Qed.

Lemma sortDesc_In (z : Listed * Z) (l : list (Listed * Z)) :
  In z (sortDesc l) <-> In z l.
Proof. unfold sortDesc. rewrite sortDesc_fold_In. simpl. tauto. Qed.

Definition desc (x y : Listed * Z) : Prop := snd y <= snd x.

Lemma insertDesc_sorted (x : Listed * Z) (l : list (Listed * Z)) :
  StronglySorted desc l -> StronglySorted desc (insertDesc x l).
Proof.
  induction 1 as [|y r Hr IH Hy]; simpl.
  - constructor; constructor.
  - destruct (Z.leb_spec (snd x) (snd y)) as [Hle|Hgt].
    + constructor; [exact IH|]. apply Forall_forall. intros z Hz.
      apply insertDesc_In in Hz. destruct Hz as [->|Hz]; [exact Hle|].
      exact (proj1 (Forall_forall _ _) Hy z Hz).
    + constructor; [constructor; assumption|].
      constructor; [unfold desc; lia|].
      apply Forall_forall. intros z Hz.
      pose proof (proj1 (Forall_forall _ _) Hy z Hz) as Hzy.
      unfold desc in *. lia.
Qed.

Lemma sortDesc_sorted (l : list (Listed * Z)) : StronglySorted desc (sortDesc l).
Proof.
  unfold sortDesc.
  assert (H : forall acc, StronglySorted desc acc ->
                StronglySorted desc
                  (fold_left (fun acc x => insertDesc x acc) l acc)).
  { induction l as [|x l IH]; intros acc Hacc; simpl; [exact Hacc|].
    apply IH. now apply insertDesc_sorted. }
  apply H. constructor.
Qed.

Lemma sorted_head_max (l : list (Listed * Z)) (h : Listed * Z) :
  StronglySorted desc l -> hd_error l = Some h ->
  forall z, In z l -> snd z <= snd h.
Proof.
  intros Hs Hh z Hz. destruct l as [|y r]; [discriminate|].
  injection Hh as ->. inversion Hs as [|? ? _ Hall]; subst.
  destruct Hz as [->|Hz]; [lia|].
  exact (proj1 (Forall_forall _ _) Hall z Hz).
Qed.

Lemma sorted_find_max (P : Listed * Z -> bool) (l : list (Listed * Z))
    (o : Listed * Z) :
  StronglySorted desc l -> find P l = Some o ->
  P o = true /\ In o l /\ forall z, In z l -> P z = true -> snd z <= snd o.
Proof.
  induction 1 as [|y r Hr IH Hy]; simpl; [discriminate|].
  destruct (P y) eqn:Py.
  - intros Ho. injection Ho as <-. split; [exact Py|]. split; [now left|].
    intros z [->|Hz] _; [lia|].
    exact (proj1 (Forall_forall _ _) Hy z Hz).
  - intros Ho. destruct (IH Ho) as [H1 [H2 H3]].
    split; [exact H1|]. split; [now right|].
    intros z [->|Hz] Pz; [congruence | now apply H3].
Qed.

(** The list the pick is made in holds the candidates, each with its
    [t0]. *)
Lemma searched_In (now : Z) (agents : list Listed) (x : Listed * Z) :
  let withT0 := collectT0 (filter isUndergrad agents) in
  In x (match filter (inWindow now) withT0 with
        | [] => sortDesc withT0
        | _ => sortDesc (filter (inWindow now) withT0)
        end)
  <-> candidate now agents (fst x) /\ snd x = t0For (fst x).
Proof.
  intros withT0. unfold candidate.
  destruct (filter (inWindow now) withT0) as [|w ws] eqn:Hw.
  - rewrite sortDesc_In. unfold withT0. rewrite withT0_In.
    split; [|tauto]. intros [H1 [H2 H3]].
    split; [|exact H3]. split; [exact H1|]. split; [exact H2|].
    intros [b [Hb1 [Hb2 Hb3]]]. exfalso.
    assert (Hin : In (b, t0For b) (filter (inWindow now) withT0)).
    { apply filter_In. split; [apply withT0_In; simpl; tauto|].
      now apply inWindow_iff. }
    rewrite Hw in Hin. destruct Hin.
  - rewrite <- Hw, sortDesc_In, filter_In. unfold withT0. rewrite withT0_In.
    split.
    + intros [[H1 [H2 H3]] H4].
      split; [|exact H3]. split; [exact H1|]. split; [exact H2|].
      intros _. now apply (inWindow_iff now x).
    + intros [[H1 [H2 H3]] H4].
      split; [split; [exact H1|split; [exact H2 | exact H4]]|].
      apply inWindow_iff; [exact H4|]. apply H3.
      assert (Hin : In w (filter (inWindow now) withT0))
        by (rewrite Hw; now left).
      apply filter_In in Hin. destruct Hin as [Hin Hwin].
      apply withT0_In in Hin. exists (fst w).
      split; [tauto|]. split; [tauto|]. apply (inWindow_iff now w); tauto.
Qed.

(** X25: [selectProject] returns nothing exactly when no agent is an
    UNDERGRAD with a pool, no liquidity pool and a positive [t0].
    Otherwise the project it returns is such an agent, taken among those
    inside the tax window when there is one and among all of them when
    there is none; it carries the agent's [t0] and pool; it is named
    ORION whenever a candidate is; and no candidate that agrees with it on
    being named ORION has a later [t0]. *)
Theorem selectProject_picks (now : Z) (agents : list Listed) :
  (selectProject now agents = None <-> forall a, In a agents -> ~ eligible a)
  /\ forall p,
       selectProject now agents = Some p ->
       candidate now agents (sel_agent p)
       /\ t0 p = t0For (sel_agent p)
       /\ poolAddress p = VirtualsApi.preTokenPair (agent (sel_agent p))
       /\ poolType p = WhaleTrades.virtuals_curve
       /\ (forall a, candidate now agents a -> named_orion a = true ->
                     named_orion (sel_agent p) = true)
       /\ (forall a, candidate now agents a ->
                     named_orion a = named_orion (sel_agent p) ->
                     t0For a <= t0 p).
Proof.
  pose proof (searched_In now agents) as Hsearched. cbv zeta in Hsearched.
  unfold Discovery.selectProject.
  set (withT0 := collectT0 (filter isUndergrad agents)) in *.
  set (searched := match filter (inWindow now) withT0 with
                   | [] => sortDesc withT0
                   | _ => sortDesc (filter (inWindow now) withT0)
                   end) in *.
  assert (Hsorted : StronglySorted desc searched).
  { unfold searched. destruct (filter (inWindow now) withT0);
      apply sortDesc_sorted. }
  assert (Hnone : withT0 = [] <-> forall a, In a agents -> ~ eligible a).
  { split.
    - intros H0 a Ha He.
      assert (Hin : In (a, t0For a) withT0)
        by (apply withT0_In; simpl; tauto).
      rewrite H0 in Hin. destruct Hin.
    - intros Hno. destruct withT0 as [|x r] eqn:Hw; [reflexivity|]. exfalso.
      assert (Hin : In x withT0) by (rewrite Hw; now left).
      unfold withT0 in Hin.
      apply withT0_In in Hin. apply (Hno (fst x)); tauto. }
  assert (Hsome : withT0 <> [] -> searched <> []).
  { intros Hw Hs. destruct withT0 as [|x r] eqn:Hx; [congruence|].
    assert (Hin : In x withT0) by (rewrite Hx; now left).
    unfold withT0 in Hin. apply withT0_In in Hin.
    destruct (filter (inWindow now) (x :: r)) as [|w ws] eqn:Hf.
    - assert (Hin' : In x searched)
        by (unfold searched; apply sortDesc_In; now left).
      rewrite Hs in Hin'. destruct Hin'.
    - assert (Hin' : In w searched)
        by (unfold searched; apply sortDesc_In; now left).
      rewrite Hs in Hin'. destruct Hin'. }
  assert (Hpick :
    forall x, match find isOrion searched with
              | Some orion => Some orion
              | None => hd_error searched
              end = Some x ->
              In x searched
              /\ (forall z, In z searched -> isOrion z = true -> isOrion x = true)
              /\ (forall z, In z searched -> isOrion z = isOrion x ->
                            snd z <= snd x)).
  { intros x Hx. destruct (find isOrion searched) as [o|] eqn:Hfind.
    - injection Hx as <-.
      destruct (sorted_find_max _ _ _ Hsorted Hfind) as [Ho [Hin Hmax]].
      split; [exact Hin|]. split; [intros; exact Ho|].
      intros z Hz Hzo. apply Hmax; [exact Hz | congruence].
    - pose proof (find_none _ _ Hfind) as Hno.
      assert (Hinx : In x searched).
      { destruct searched as [|y r]; [discriminate|].
        injection Hx as ->. now left. }
      split; [exact Hinx|]. split.
      + intros z Hz Hzo. rewrite (Hno z Hz) in Hzo. discriminate.
      + intros z Hz _. now apply (sorted_head_max searched x). }
  split.
  - rewrite <- Hnone. destruct agents as [|a0 agents'] eqn:Hagents.
    { split; [reflexivity | intros; reflexivity]. }
    rewrite <- Hagents in *.
    destruct withT0 as [|w0 ws0] eqn:Hw; [tauto|].
    split; [|discriminate]. intros Hsel. exfalso.
    destruct (match find isOrion searched with
              | Some orion => Some orion
              | None => hd_error searched
              end) as [[u t]|] eqn:Hp; [discriminate|].
    apply Hsome; [discriminate|].
    destruct (find isOrion searched); [discriminate|].
    destruct searched; [reflexivity | discriminate].
  - intros p Hsel.
    destruct agents as [|a0 agents'] eqn:Hagents; [discriminate|].
    rewrite <- Hagents in *.
    destruct withT0 as [|w0 ws0] eqn:Hw; [discriminate|].
    destruct (match find isOrion searched with
              | Some orion => Some orion
              | None => hd_error searched
              end) as [[u t]|] eqn:Hp; [|discriminate].
    injection Hsel as <-. cbn [sel_agent t0 poolAddress poolType].
    destruct (Hpick (u, t) eq_refl) as [Hin [Horion Hmax]].
    apply Hsearched in Hin. cbn [fst snd] in Hin. destruct Hin as [Hcand Ht].
    split; [exact Hcand|]. split; [exact Ht|]. split; [reflexivity|].
    split; [reflexivity|]. split.
    + intros a Ha Hao.
      apply (Horion (a, t0For a)); [apply Hsearched; simpl; tauto | exact Hao].
    + intros a Ha Hao.
      apply (Hmax (a, t0For a)); [apply Hsearched; simpl; tauto | exact Hao].
Qed.

End SelectProps.

(** Upper case on the ASCII range, for the concrete catalogs below. *)
Definition upperAscii (c : ascii) : ascii :=
  let n := nat_of_ascii c in
  if ((97 <=? n) && (n <=? 122))%nat then ascii_of_nat (n - 32) else c.

Fixpoint toUpperAscii (s : string) : string :=
  match s with
  | EmptyString => EmptyString
  | String c r => String (upperAscii c) (toUpperAscii r)
  end.

(** A catalog at 5.5 s with a tax window of 100 minutes: two agents that
    have launched, the earlier one named ORION, and one that launches
    later. *)
Definition orionAt4 : Discovery.Listed :=
  Discovery.mkListed
    (VirtualsApi.mkAgent 1 "Orion" "undergrad" (Some "0xpair1") None
                         (Some "1970-01-01T00:00:04Z")) None None.

Definition betaAt5 : Discovery.Listed :=
  Discovery.mkListed
    (VirtualsApi.mkAgent 2 "BETA" "UNDERGRAD" (Some "0xpair2") None
                         (Some "1970-01-01T00:00:05Z")) None None.

Definition gammaAt6 : Discovery.Listed :=
  Discovery.mkListed
    (VirtualsApi.mkAgent 3 "GAMMA" "UNDERGRAD" (Some "0xpair3") None
                         (Some "1970-01-01T00:00:06Z")) None None.

Definition listing : list Discovery.Listed := [betaAt5; gammaAt6; orionAt4].

Lemma selectProject_picks_witness :
  exists p,
    Discovery.selectProject parseDemo toUpperAscii 6000000 5500 listing = Some p
    /\ Discovery.sel_agent p = orionAt4
    /\ Discovery.t0 p = 4000
    /\ candidate parseDemo toUpperAscii 6000000 5500 listing orionAt4.
Proof.
  destruct (selectProject_picks parseDemo toUpperAscii 6000000 5500 listing)
    as [_ Hsome].
  eexists. split; [vm_compute; reflexivity|].
  split; [reflexivity|]. split; [reflexivity|].
  exact (proj1 (Hsome _ eq_refl)).
Defined.

(** ** The discovery loop *)

Section DiscoverProps.
Import Js Discovery.
Variable DateParse : string -> option Z.
Variable toUpperCase : string -> string.
Variable windowMs : Z.
Variable pollInterval : Z.
Variable onFound : SelectedProject -> result unit.

Local Abbreviation attempt := (attempt DateParse toUpperCase windowMs onFound).
Local Abbreviation discoverProject :=
  (discoverProject DateParse toUpperCase windowMs pollInterval onFound).

Definition idOf (a : Listed) : Z := VirtualsApi.id (agent a).

(** [a] is the first entry of [l] with its id. *)
Definition firstWithId (l : list Listed) (a : Listed) : Prop :=
  find (fun b => idOf b =? idOf a) l = Some a.

Lemma find_snoc {A} (f : A -> bool) (l : list A) (x : A) :
  find f (l ++ [x])
  = match find f l with
    | Some y => Some y
    | None => if f x then Some x else None
    end.
Proof.
  induction l as [|y r IH]; simpl; [reflexivity|].
  destruct (f y); [reflexivity | exact IH].
Qed.

Definition mergeStep (byId : @Js.Map Z Listed) (a : Listed) : @Js.Map Z Listed :=
  if Js.has Z.eqb (idOf a) byId then byId else Js.set Z.eqb (idOf a) a byId.

(** What the map holds after the entries of [seen]. *)
Definition merged (byId : @Js.Map Z Listed) (seen : list Listed) : Prop :=
  NoDup (Js.keys byId)
  /\ forall e, In e byId <-> fst e = idOf (snd e) /\ firstWithId seen (snd e).

Lemma Zeqb_reflect (a b : Z) : reflect (a = b) (a =? b).
Proof. apply iff_reflect. symmetry. apply Z.eqb_eq. Qed.

Lemma merged_has (byId : @Js.Map Z Listed) (seen : list Listed) (a : Listed) :
  merged byId seen ->
  Js.has Z.eqb (idOf a) byId = true
  <-> exists y, find (fun b => idOf b =? idOf a) seen = Some y.
Proof.
  intros [_ Hm]. rewrite (has_In Z.eqb Zeqb_reflect). unfold Js.keys.
  rewrite in_map_iff. split.
  - intros [e [Hk He]]. apply Hm in He. destruct He as [Hid Hfirst].
    exists (snd e). unfold firstWithId in Hfirst.
    rewrite <- Hid, Hk in Hfirst. exact Hfirst.
  - intros [y Hy]. pose proof (find_some _ _ Hy) as [_ Hid].
    apply Z.eqb_eq in Hid. exists (idOf y, y). split; [exact Hid|].
    apply Hm. split; [reflexivity|]. unfold firstWithId. simpl.
    rewrite Hid. exact Hy.
Qed.

Lemma merged_step (byId : @Js.Map Z Listed) (seen : list Listed) (a : Listed) :
  merged byId seen -> merged (mergeStep byId a) (seen ++ [a]).
Proof.
  intros Hm. pose proof (merged_has byId seen a Hm) as Hhas.
  destruct Hm as [Hnd Hm]. unfold mergeStep.
  destruct (Js.has Z.eqb (idOf a) byId) eqn:Hh.
  - destruct (proj1 Hhas eq_refl) as [y Hy].
    split; [exact Hnd|]. intros e. rewrite Hm. unfold firstWithId.
    rewrite find_snoc. split; intros [Hid Hf]; split; try exact Hid.
    + now rewrite Hf.
    + destruct (find (fun b => idOf b =? idOf (snd e)) seen) as [z|] eqn:Hz;
        [exact Hf|].
      destruct (Z.eqb_spec (idOf a) (idOf (snd e))) as [Heq|Hne];
        [|discriminate].
      rewrite <- Heq in Hz. congruence.
  - assert (Hnone : find (fun b => idOf b =? idOf a) seen = None).
    { destruct (find (fun b => idOf b =? idOf a) seen) as [y|] eqn:Hy;
        [|reflexivity].
      assert (Ht : false = true) by (apply Hhas; eauto).
      discriminate Ht. }
    rewrite (set_fresh Z.eqb) by exact Hh. split.
    + unfold Js.keys in *. rewrite map_app. simpl. apply NoDup_snoc.
      * exact Hnd.
      * apply (has_false_notin Z.eqb Zeqb_reflect). exact Hh.
    + intros e. rewrite in_app_iff, Hm. unfold firstWithId.
      rewrite find_snoc. simpl. split.
      * intros [[Hid Hf]|[<-|[]]].
        -- split; [exact Hid | now rewrite Hf].
        -- simpl. split; [reflexivity|]. rewrite Hnone, Z.eqb_refl. reflexivity.
      * intros [Hid Hf].
        destruct (find (fun b => idOf b =? idOf (snd e)) seen) as [z|] eqn:Hz.
        -- left. split; [exact Hid | exact Hf].
        -- right. left.
           destruct (Z.eqb_spec (idOf a) (idOf (snd e))) as [Heq|Hne];
             [|discriminate].
           injection Hf as Hf. destruct e as [k v]. simpl in *. congruence.
Qed.

Lemma merged_fold (l : list Listed) :
  forall byId seen,
    merged byId seen -> merged (fold_left mergeStep l byId) (seen ++ l).
Proof.
  induction l as [|a l IH]; intros byId seen Hm; simpl.
  - now rewrite app_nil_r.
  - replace (seen ++ a :: l) with ((seen ++ [a]) ++ l)
      by (rewrite <- app_assoc; reflexivity).
    apply IH. now apply merged_step.
Qed.

(** X26: the merge of the two listings of a poll holds at most one agent
    per id; an agent is in it exactly when it is the first with its id in
    the listing by launch date followed by the listing by creation date,
    so for an agent on both listings the record of the listing by launch
    date is the one kept; and every id of either listing is represented. *)
Theorem mergeById_keeps_first (byLaunched byCreated : list Listed) :
  NoDup (List.map idOf (mergeById byLaunched byCreated))
  /\ (forall a, In a (mergeById byLaunched byCreated)
                <-> firstWithId (byLaunched ++ byCreated) a)
  /\ (forall a, In a (byLaunched ++ byCreated) ->
                exists a', In a' (mergeById byLaunched byCreated)
                           /\ idOf a' = idOf a).
Proof.
  assert (H0 : merged [] []).
  { split; [constructor|]. intros e. simpl. split; [tauto|].
    intros [_ H]. discriminate H. }
  pose proof (merged_fold (byLaunched ++ byCreated) [] [] H0) as [Hnd Hm].
  simpl in Hm, Hnd.
  assert (Hin : forall a, In a (mergeById byLaunched byCreated)
                          <-> firstWithId (byLaunched ++ byCreated) a).
  { intros a. unfold mergeById, Js.values. rewrite in_map_iff. split.
    - intros [e [<- He]]. now apply Hm.
    - intros Hf. exists (idOf a, a). split; [reflexivity|].
      apply Hm. simpl. tauto. }
  split; [|split; [exact Hin|]].
  - unfold mergeById, Js.values. rewrite map_map.
    erewrite map_ext_in; [exact Hnd|].
    intros e He. apply Hm in He. symmetry. exact (proj1 He).
  - intros a Ha.
    destruct (find (fun b => idOf b =? idOf a) (byLaunched ++ byCreated))
      as [y|] eqn:Hy.
    + pose proof (find_some _ _ Hy) as [_ Hid]. apply Z.eqb_eq in Hid.
      exists y. split; [|exact Hid]. apply Hin. unfold firstWithId.
      rewrite Hid. exact Hy.
    + pose proof (find_none _ _ Hy a Ha) as Hno.
      cbv beta in Hno. rewrite Z.eqb_refl in Hno. discriminate.
Qed.

(** *** The polling loop *)

(** What a turn does, whatever the count of errors it starts with. *)
Definition outcomeOf (poll : Poll) : Attempt := snd (attempt poll O).

(** The turn hands a project over. *)
Definition selects (poll : Poll) : bool :=
  match outcomeOf poll with Selected _ => true | _ => false end.

(** The turn ends in the [catch]. *)
Definition failed (poll : Poll) : bool :=
  match outcomeOf poll with Failed _ => true | _ => false end.

(** The listing by creation date fails: the turn ends in the [catch]
    without having reset the count. *)
Definition listingFails (poll : Poll) : bool :=
  match createdResponse poll with Throw _ => true | Ok _ => false end.

Lemma attempt_listingFails (poll : Poll) (c : nat) :
  listingFails poll = true ->
  exists e, attempt poll c = (c, Failed e).
Proof.
  unfold listingFails, Discovery.attempt.
  destruct (createdResponse poll) as [l|e]; [discriminate|].
  intros _. exists e. reflexivity.
Qed.

Lemma attempt_resets (poll : Poll) (c : nat) :
  listingFails poll = false ->
  attempt poll c = (O, outcomeOf poll).
Proof.
  unfold listingFails, outcomeOf, Discovery.attempt.
  destruct (createdResponse poll) as [byCreated|e]; [|discriminate].
  intros _. cbn [getProjectsBySort].
  destruct (getProjectsBySort launchedAt_desc (launchedResponse poll))
    as [byLaunched|e] eqn:Hl.
  - destruct (Discovery.selectProject DateParse toUpperCase windowMs
                (clock poll) (mergeById byLaunched byCreated)) as [sel|];
      [destruct (onFound sel)|]; reflexivity.
  - unfold getProjectsBySort in Hl.
    destruct (launchedResponse poll); discriminate Hl.
Qed.

Lemma listingFails_failed (poll : Poll) :
  listingFails poll = true -> failed poll = true.
Proof.
  intros H. unfold failed, outcomeOf.
  destruct (attempt_listingFails poll O H) as [e ->]. reflexivity.
Qed.

Lemma attempt_outcome (poll : Poll) (c : nat) :
  snd (attempt poll c) = outcomeOf poll.
Proof.
  unfold outcomeOf, Discovery.attempt.
  destruct (getProjectsBySort createdAt_desc (createdResponse poll))
    as [byCreated|e]; [|reflexivity].
  destruct (getProjectsBySort launchedAt_desc (launchedResponse poll))
    as [byLaunched|e]; [|reflexivity].
  destruct (Discovery.selectProject DateParse toUpperCase windowMs
              (clock poll) (mergeById byLaunched byCreated)) as [sel|];
    [destruct (onFound sel)|]; reflexivity.
Qed.

(** The turns on which the loop gives up: a failed turn followed by nine
    turns whose listing fails. *)
Definition tenFailures (first : Poll) (nine : list Poll) : Prop :=
  failed first = true
  /\ Forall (fun p => listingFails p = true) nine
  /\ List.length nine = 9%nat.

Lemma failures_run (post : list Poll) (fails : list Poll) :
  forall c,
    (c < 10)%nat ->
    Forall (fun p => listingFails p = true) fails ->
    (10 <= List.length fails + c)%nat ->
    fst (discoverProject (fails ++ post) c) = Fatal 10.
Proof.
  induction fails as [|x fails IH]; intros c Hc Hf Hlen; [simpl in Hlen; lia|].
  inversion Hf as [|? ? Hx Hrest]; subst.
  cbn [app Discovery.discoverProject].
  destruct (attempt_listingFails x c Hx) as [e ->].
  unfold maxConsecutiveErrors.
  destruct (Nat.leb_spec 10 (Datatypes.S c)) as [Hten|Hless].
  - cbn [fst]. f_equal. lia.
  - cbn [fst]. apply IH; [lia | exact Hrest | simpl in Hlen; lia].
Qed.

Lemma failed_then_nine (post : list Poll) (first : Poll) (nine : list Poll) :
  forall c,
    (c < 10)%nat ->
    tenFailures first nine ->
    fst (discoverProject (first :: nine ++ post) c) = Fatal 10.
Proof.
  intros c Hc [Hfirst [Hnine Hlen]].
  destruct (listingFails first) eqn:Hl.
  - apply (failures_run post (first :: nine) c Hc);
      [constructor; assumption | simpl; lia].
  - cbn [Discovery.discoverProject]. rewrite (attempt_resets first c Hl).
    unfold failed in Hfirst. destruct (outcomeOf first); try discriminate.
    unfold maxConsecutiveErrors. cbn [Nat.leb fst].
    apply failures_run; [lia | exact Hnine | lia].
Qed.

Lemma fatal_if (post : list Poll) (first : Poll) (nine : list Poll)
    (pre : list Poll) :
  forall c,
    (c < 10)%nat ->
    Forall (fun p => selects p = false) pre ->
    tenFailures first nine ->
    fst (discoverProject (pre ++ first :: nine ++ post) c) = Fatal 10.
Proof.
  induction pre as [|x pre IH]; intros c Hc Hpre Hten.
  - now apply failed_then_nine.
  - inversion Hpre as [|? ? Hx Hrest]; subst.
    cbn [app Discovery.discoverProject].
    pose proof (attempt_outcome x c) as Hout.
    destruct (attempt x c) as [count [p| |e]] eqn:Ha; cbn [snd] in Hout.
    + unfold selects in Hx. rewrite <- Hout in Hx. discriminate.
    + cbn [fst]. destruct (listingFails x) eqn:Hl.
      * destruct (attempt_listingFails x c Hl) as [e He]. congruence.
      * rewrite (attempt_resets x c Hl) in Ha. injection Ha as <- _.
        apply IH; [lia | exact Hrest | exact Hten].
    + assert (Hcount : (count <= c)%nat).
      { destruct (listingFails x) eqn:Hl.
        - destruct (attempt_listingFails x c Hl) as [e' He]. rewrite He in Ha.
          injection Ha as <- _. lia.
        - rewrite (attempt_resets x c Hl) in Ha. injection Ha as <- _. lia. }
      unfold maxConsecutiveErrors.
      destruct (Nat.leb_spec 10 (Datatypes.S count)) as [Hmax|Hless].
      * cbn [fst]. f_equal. lia.
      * cbn [fst]. apply IH; [lia | exact Hrest | exact Hten].
Qed.

Lemma fatal_only_if (polls : list Poll) :
  forall c n,
    (c < 10)%nat ->
    fst (discoverProject polls c) = Fatal n ->
    n = 10%nat
    /\ ((exists pre first nine post,
            polls = pre ++ first :: nine ++ post
            /\ Forall (fun p => selects p = false) pre
            /\ tenFailures first nine)
        \/ (exists fails post,
              polls = fails ++ post
              /\ Forall (fun p => listingFails p = true) fails
              /\ (List.length fails + c = 10)%nat)).
Proof.
  induction polls as [|x polls IH]; intros c n Hc; [discriminate|].
  cbn [Discovery.discoverProject].
  pose proof (attempt_outcome x c) as Hout.
  assert (Hprepend :
    forall c' : nat,
      selects x = false ->
      ((exists pre first nine post,
           polls = pre ++ first :: nine ++ post
           /\ Forall (fun p => selects p = false) pre
           /\ tenFailures first nine)
       \/ (exists fails post,
             polls = fails ++ post
             /\ Forall (fun p => listingFails p = true) fails
             /\ (List.length fails + c' = 10)%nat)) ->
      (listingFails x = true /\ c' = Datatypes.S c
       \/ (failed x = true /\ c' = 1%nat)
       \/ c' = O) ->
      (exists pre first nine post,
          x :: polls = pre ++ first :: nine ++ post
          /\ Forall (fun p => selects p = false) pre
          /\ tenFailures first nine)
      \/ (exists fails post,
            x :: polls = fails ++ post
            /\ Forall (fun p => listingFails p = true) fails
            /\ (List.length fails + c = 10)%nat)).
  { intros c' Hx [[pre [first [nine [post [Hp [Hpre Hten]]]]]]
                 |[fails [post [Hp [Hf Hlen]]]]] Hkind.
    - left. exists (x :: pre), first, nine, post.
      split; [now rewrite Hp|]. split; [constructor; assumption | exact Hten].
    - destruct Hkind as [[Hl ->]|[[Hfx ->]| ->]].
      + right. exists (x :: fails), post.
        split; [now rewrite Hp|]. split; [constructor; assumption|].
        simpl. lia.
      + left. exists [], x, fails, post.
        split; [now rewrite Hp|]. split; [constructor|].
        split; [exact Hfx|]. split; [exact Hf | lia].
      + destruct fails as [|f fails]; [simpl in Hlen; lia|].
        inversion Hf as [|? ? Hff Hrest]; subst.
        left. exists [x], f, fails, post.
        split; [reflexivity|]. split; [constructor; [exact Hx | constructor]|].
        split; [now apply listingFails_failed|].
        split; [exact Hrest | simpl in Hlen; lia]. }
  destruct (attempt x c) as [count [p| |e]] eqn:Ha; cbn [snd] in Hout;
    [discriminate| |].
  - cbn [fst]. intros Hfatal.
    assert (Hx : selects x = false) by (unfold selects; now rewrite <- Hout).
    assert (Hcount : count = O).
    { destruct (listingFails x) eqn:Hl.
      - destruct (attempt_listingFails x c Hl) as [e He]. congruence.
      - rewrite (attempt_resets x c Hl) in Ha. now injection Ha as <- _. }
    subst count.
    destruct (IH O n ltac:(lia) Hfatal) as [Hn Hdec].
    split; [exact Hn|]. apply (Hprepend O Hx Hdec). right. now right.
  - assert (Hx : selects x = false) by (unfold selects; now rewrite <- Hout).
    assert (Hfx : failed x = true) by (unfold failed; now rewrite <- Hout).
    assert (Hkind : listingFails x = true /\ count = c
                    \/ listingFails x = false /\ count = O).
    { destruct (listingFails x) eqn:Hl.
      - left. destruct (attempt_listingFails x c Hl) as [e' He].
        rewrite He in Ha. now injection Ha as <- _.
      - right. rewrite (attempt_resets x c Hl) in Ha. now injection Ha as <- _. }
    unfold maxConsecutiveErrors.
    destruct (Nat.leb_spec 10 (Datatypes.S count)) as [Hten|Hless]; cbn [fst].
    + intros Hfatal. injection Hfatal as <-.
      destruct Hkind as [[Hl ->]|[_ ->]]; [|lia].
      split; [lia|]. right. exists [x], polls.
      split; [reflexivity|]. split; [constructor; [exact Hl | constructor]|].
      simpl. lia.
    + intros Hfatal.
      destruct (IH (Datatypes.S count) n ltac:(lia) Hfatal) as [Hn Hdec].
      split; [exact Hn|]. apply (Hprepend (Datatypes.S count) Hx Hdec).
      destruct Hkind as [[Hl ->]|[_ ->]]; [left; now split | right; left; now split].
Qed.

(** X27: the discovery gives up exactly when ten turns in a row fail
    before any turn hands a project over, the last nine of them by a
    failure of the listing by creation date: its fatal error always
    reports ten errors, and it is raised if and only if the turns made are
    some turns that hand nothing over, then a failed turn, then nine turns
    whose listing by creation date fails, then whatever follows.  A
    failing listing by launch date alone does not make a turn fail.  A
    turn that fails because the callback throws has already reset the
    count: whatever the count was, the loop goes on with a count of 1
    after a sleep of 2 seconds. *)
Theorem discover_fatal_iff (polls : list Poll) :
  (forall n, fst (discoverProject polls 0) = Fatal n -> n = 10%nat)
  /\ (fst (discoverProject polls 0) = Fatal 10
      <-> exists pre first nine post,
            polls = pre ++ first :: nine ++ post
            /\ Forall (fun p => selects p = false) pre
            /\ tenFailures first nine)
  /\ (forall poll created e c,
        createdResponse poll = Ok created ->
        launchedResponse poll = Throw e ->
        attempt poll c
        = attempt (mkPoll (clock poll) (Ok created) (Ok [])) c)
  /\ (forall poll rest c,
        listingFails poll = false -> failed poll = true ->
        discoverProject (poll :: rest) c
        = (fst (discoverProject rest 1), 2000 :: snd (discoverProject rest 1))).
Proof.
  assert (Hten : forall fails post,
             Forall (fun p => listingFails p = true) fails ->
             (List.length fails + 0 = 10)%nat ->
             exists pre first nine post',
               fails ++ post = pre ++ first :: nine ++ post'
               /\ Forall (fun p => selects p = false) pre
               /\ tenFailures first nine).
  { intros fails post Hf Hlen. destruct fails as [|f fails]; [simpl in Hlen; lia|].
    inversion Hf as [|? ? Hff Hrest]; subst.
    exists [], f, fails, post. split; [reflexivity|]. split; [constructor|].
    split; [now apply listingFails_failed|].
    split; [exact Hrest | simpl in Hlen; lia]. }
  split; [|split; [|split]].
  - intros n Hn. exact (proj1 (fatal_only_if polls O n ltac:(lia) Hn)).
  - split.
    + intros Hn.
      destruct (fatal_only_if polls O 10 ltac:(lia) Hn)
        as [_ [Hpat|[fails [post [-> [Hf Hlen]]]]]]; [exact Hpat|].
      now apply Hten.
    + intros [pre [first [nine [post [-> [Hpre Hfail]]]]]].
      apply fatal_if; [lia | exact Hpre | exact Hfail].
  - intros poll created e c Hc Hl. unfold Discovery.attempt.
    cbn [createdResponse launchedResponse clock]. rewrite Hc, Hl. reflexivity.
  - intros poll rest c Hl Hf. cbn [Discovery.discoverProject].
    rewrite (attempt_resets poll c Hl). unfold failed in Hf.
    destruct (outcomeOf poll); try discriminate. reflexivity.
Qed.

Lemma backoff_range (c : nat) :
  2000 <= Z.min (1000 * 2 ^ Z.of_nat (Datatypes.S c)) 30000 <= 30000.
Proof.
  assert (H : 2 <= 2 ^ Z.of_nat (Datatypes.S c)).
  { rewrite Nat2Z.inj_succ, Z.pow_succ_r by lia.
    assert (0 < 2 ^ Z.of_nat c) by (apply Z.pow_pos_nonneg; lia). lia. }
  lia.
Qed.

(** X28: what the discovery returns and how long it sleeps.  A project it
    hands over is the selection of the first turn that selects one and
    whose callback returns, made on the merge of that turn's listings at
    that turn's clock; by then it has slept once for each earlier turn.
    It never sleeps more often than it polls, and every sleep is the poll
    interval or lasts between 2 and 30 seconds. *)
Theorem discover_found_first (polls : list Poll) :
  forall c,
    (forall p, fst (discoverProject polls c) = Found p ->
       exists pre poll post byCreated byLaunched,
         polls = pre ++ poll :: post
         /\ Forall (fun q => selects q = false) pre
         /\ createdResponse poll = Ok byCreated
         /\ getProjectsBySort launchedAt_desc (launchedResponse poll)
            = Ok byLaunched
         /\ selectProject DateParse toUpperCase windowMs (clock poll)
              (mergeById byLaunched byCreated) = Some p
         /\ onFound p = Ok tt
         /\ List.length (snd (discoverProject polls c)) = List.length pre)
    /\ Forall (fun d => d = pollInterval \/ 2000 <= d <= 30000)
              (snd (discoverProject polls c))
    /\ (List.length (snd (discoverProject polls c)) <= List.length polls)%nat.
Proof.
  induction polls as [|x polls IH]; intros c.
  - cbn [Discovery.discoverProject fst snd]. split; [discriminate|].
    split; [constructor | simpl; lia].
  - cbn [Discovery.discoverProject].
    pose proof (attempt_outcome x c) as Hout.
    destruct (attempt x c) as [count [p0| |e]] eqn:Hx; cbn [snd] in Hout.
    + cbn [fst snd]. split; [|split; [constructor | simpl; lia]].
      intros p Hp. injection Hp as <-.
      unfold Discovery.attempt in Hx.
      destruct (createdResponse x) as [byCreated|e1] eqn:Hc;
        cbn [getProjectsBySort] in Hx; [|discriminate].
      destruct (getProjectsBySort launchedAt_desc (launchedResponse x))
        as [byLaunched|e2] eqn:Hl; [|discriminate].
      destruct (Discovery.selectProject DateParse toUpperCase windowMs
                  (clock x) (mergeById byLaunched byCreated))
        as [sel|] eqn:Hs; [|discriminate].
      destruct (onFound sel) as [[]|e3] eqn:Ho; [|discriminate].
      injection Hx as _ <-.
      exists [], x, polls, byCreated, byLaunched.
      repeat split; try assumption; constructor.
    + destruct (IH count) as [IHf [IHd IHl]]. cbn [fst snd].
      split; [|split; [constructor; [now left | exact IHd] | simpl; lia]].
      intros p Hp.
      destruct (IHf p Hp)
        as [pre [poll [post [bc [bl [Hpolls [Hpre [H1 [H2 [H3 [H4 H5]]]]]]]]]]].
      exists (x :: pre), poll, post, bc, bl.
      split; [now rewrite Hpolls|]. split.
      { constructor; [unfold selects; now rewrite <- Hout | exact Hpre]. }
      repeat split; try assumption. simpl. now rewrite H5.
    + unfold maxConsecutiveErrors.
      destruct (Nat.leb_spec 10 (Datatypes.S count)) as [Hten|Hless];
        cbn [fst snd].
      * split; [discriminate|]. split; [constructor | simpl; lia].
      * destruct (IH (Datatypes.S count)) as [IHf [IHd IHl]].
        split; [|split; [constructor;
                          [right; apply backoff_range | exact IHd]
                        | simpl; lia]].
        intros p Hp.
        destruct (IHf p Hp)
          as [pre [poll [post [bc [bl [Hpolls [Hpre [H1 [H2 [H3 [H4 H5]]]]]]]]]]].
        exists (x :: pre), poll, post, bc, bl.
        split; [now rewrite Hpolls|]. split.
        { constructor; [unfold selects; now rewrite <- Hout | exact Hpre]. }
        repeat split; try assumption. simpl. now rewrite H5.
Qed.

End DiscoverProps.

(** The record of agent 2 as the listing by creation date has it: not yet
    an UNDERGRAD. *)
Definition betaStale : Discovery.Listed :=
  Discovery.mkListed
    (VirtualsApi.mkAgent 2 "BETA" "INITIALIZED" (Some "0xpair2") None
                         (Some "1970-01-01T00:00:05Z")) None None.

Lemma mergeById_keeps_first_witness :
  In betaAt5 (Discovery.mergeById [betaAt5] [betaStale; orionAt4])
  /\ ~ In betaStale (Discovery.mergeById [betaAt5] [betaStale; orionAt4]).
Proof.
  destruct (mergeById_keeps_first [betaAt5] [betaStale; orionAt4])
    as [_ [Hin _]].
  split.
  - apply Hin. reflexivity.
  - intros H. apply Hin in H. discriminate H.
Defined.

(** Turns of the loop: the catalog is down; it answers with nothing to
    select; it answers with the listing above (the listing by launch date
    failing). *)
Definition downPoll : Discovery.Poll :=
  Discovery.mkPoll 5000 (Js.Throw "503") (Js.Ok []).

Definition quietPoll : Discovery.Poll :=
  Discovery.mkPoll 5200 (Js.Ok [betaStale]) (Js.Ok []).

Definition goodPoll : Discovery.Poll :=
  Discovery.mkPoll 5500 (Js.Ok listing) (Js.Throw "timeout").

Definition accepting (p : Discovery.SelectedProject) : Js.result unit :=
  Js.Ok tt.

(** A callback that throws. *)
Definition rejecting (p : Discovery.SelectedProject) : Js.result unit :=
  Js.Throw "not now".

Lemma discover_fatal_iff_witness :
  fst (Discovery.discoverProject parseDemo toUpperAscii 6000000 5000 rejecting
         (quietPoll :: goodPoll :: repeat downPoll 9 ++ [goodPoll]) 0)
  = Discovery.Fatal 10.
Proof.
  destruct (discover_fatal_iff parseDemo toUpperAscii 6000000 5000 rejecting
              (quietPoll :: goodPoll :: repeat downPoll 9 ++ [goodPoll]))
    as [_ [[_ Hif] _]].
  apply Hif. exists [quietPoll], goodPoll, (repeat downPoll 9), [goodPoll].
  split; [reflexivity|]. split; [repeat constructor|].
  split; [reflexivity|]. split; [repeat constructor | reflexivity].
Defined.

(** Nine turns with the catalog down and then a callback that throws: the
    count restarts at 1, the loop sleeps 2 seconds and goes on. *)
Example discover_callback_resets :
  Discovery.discoverProject parseDemo toUpperAscii 6000000 5000 rejecting
    (repeat downPoll 9 ++ [goodPoll; downPoll]) 0
  = (Discovery.Aborted,
     [2000; 4000; 8000; 16000; 30000; 30000; 30000; 30000; 30000; 2000; 4000]).
Proof. vm_compute. reflexivity. Qed.

Lemma discover_found_first_witness :
  exists p,
    fst (Discovery.discoverProject parseDemo toUpperAscii 6000000 5000 accepting
           [downPoll; quietPoll; goodPoll] 0) = Discovery.Found p
    /\ Discovery.sel_agent p = orionAt4
    /\ List.length
         (snd (Discovery.discoverProject parseDemo toUpperAscii 6000000 5000
                 accepting [downPoll; quietPoll; goodPoll] 0)) = 2%nat
    /\ Forall (fun d => d = 5000 \/ 2000 <= d <= 30000)
         (snd (Discovery.discoverProject parseDemo toUpperAscii 6000000 5000
                 accepting [downPoll; quietPoll; goodPoll] 0)).
Proof.
  destruct (discover_found_first parseDemo toUpperAscii 6000000 5000 accepting
              [downPoll; quietPoll; goodPoll] 0) as [_ [Hdelays _]].
  eexists. split; [vm_compute; reflexivity|].
  split; [reflexivity|]. split; [reflexivity | exact Hdelays].
Defined.

(** ** The notifier's throttle and queue *)

Section JsMapGetSet.
Context {V : Type}.

Lemma get_set_same (k : string) (v : V) (m : @Js.Map string V) :
  Js.get String.eqb k (Js.set String.eqb k v m) = Some v.
Proof.
  unfold Js.get. induction m as [|e r IH]; simpl.
  - now rewrite String.eqb_refl.
  - destruct (String.eqb (fst e) k) eqn:He; simpl.
    + now rewrite String.eqb_refl.
    + rewrite He. exact IH.
Qed.

Lemma get_set_other (k k' : string) (v : V) (m : @Js.Map string V) :
  k <> k' ->
  Js.get String.eqb k' (Js.set String.eqb k v m) = Js.get String.eqb k' m.
Proof.
  intros Hne. unfold Js.get. induction m as [|e r IH]; simpl.
  - destruct (String.eqb_spec k k'); [contradiction | reflexivity].
  - destruct (String.eqb_spec (fst e) k) as [He|He]; simpl.
    + destruct (String.eqb_spec k k'); [contradiction|].
      destruct (String.eqb_spec (fst e) k'); [congruence | reflexivity].
    + destruct (String.eqb (fst e) k'); [reflexivity | exact IH].
Qed.

End JsMapGetSet.

Section TelegramProps.
Import Js Telegram.

Definition byPriority (x y : QueuedMessage) : Prop := priority y <= priority x.

Lemma insertByPriority_In (x z : QueuedMessage) (l : list QueuedMessage) :
  In z (insertByPriority x l) <-> z = x \/ In z l.
Proof.
  induction l as [|y r IH]; simpl; [intuition|].
  destruct (priority x <=? priority y); simpl; [rewrite IH|]; intuition.
Qed.

Lemma insertByPriority_sorted (x : QueuedMessage) (l : list QueuedMessage) :
  StronglySorted byPriority l -> StronglySorted byPriority (insertByPriority x l).
Proof.
  induction 1 as [|y r Hr IH Hy]; simpl.
  - constructor; constructor.
  - destruct (Z.leb_spec (priority x) (priority y)) as [Hle|Hgt].
    + constructor; [exact IH|]. apply Forall_forall. intros z Hz.
      apply insertByPriority_In in Hz. destruct Hz as [->|Hz]; [exact Hle|].
      exact (proj1 (Forall_forall _ _) Hy z Hz).
    + constructor; [constructor; assumption|].
      constructor; [unfold byPriority; lia|].
      apply Forall_forall. intros z Hz.
      pose proof (proj1 (Forall_forall _ _) Hy z Hz) as Hzy.
      unfold byPriority in *. lia.
Qed.

Lemma sortByPriority_sorted (l : list QueuedMessage) :
  StronglySorted byPriority (sortByPriority l).
Proof.
  unfold sortByPriority.
  assert (H : forall acc, StronglySorted byPriority acc ->
                StronglySorted byPriority
                  (fold_left (fun acc x => insertByPriority x acc) l acc)).
  { induction l as [|x l IH]; intros acc Hacc; simpl; [exact Hacc|].
    apply IH. now apply insertByPriority_sorted. }
  apply H. constructor.
Qed.

(** The queue is in order of priority, and is empty whenever
    [processQueue] is not running. *)
Definition orderly (n : t) : Prop :=
  StronglySorted byPriority (messageQueue n)
  /\ (processing n = Idle -> messageQueue n = []).

(** What a step hands to [sendImmediate]: nothing, or one item whose
    priority no item left in the queue exceeds. *)
Definition postsHighest (n n' : t) : Prop :=
  posted n' = posted n
  \/ exists item,
       posted n' = posted n ++ [item]
       /\ processing n' = Posting item
       /\ Forall (fun q => priority q <= priority item) (messageQueue n').

Lemma processQueue_orderly (n : t) :
  StronglySorted byPriority (messageQueue n) ->
  orderly (processQueue n) /\ postsHighest n (processQueue n).
Proof.
  intros Hs. unfold processQueue.
  destruct (processing n) as [|posting|] eqn:Hp;
    destruct (messageQueue n) as [|q rest] eqn:Hq;
    unfold orderly, postsHighest; cbn [messageQueue processing posted];
    rewrite ?Hp, ?Hq;
    try (split; [split; [assumption | intros; congruence] | now left]).
  inversion Hs as [|? ? Hrest Hall]; subst.
  split; [split; [exact Hrest | discriminate]|].
  right. exists q. repeat split. exact Hall.
Qed.

Lemma step_orderly (n : t) (e : Event) :
  orderly n -> orderly (step n e) /\ postsHighest n (step n e).
Proof.
  intros Hn. assert (Hs : StronglySorted byPriority (messageQueue n))
    by exact (proj1 Hn).
  assert (Hsame : orderly n /\ postsHighest n n) by (split; [exact Hn | now left]).
  destruct e as [text opts now1 now2 now3| |].
  - cbn [step]. unfold send.
    set (item := mkQueued text _ now3).
    assert (Henq : forall map,
               let n1 := mk map (sortByPriority (messageQueue n ++ [item]))
                            (processing n) (posted n) in
               orderly (processQueue n1) /\ postsHighest n (processQueue n1)).
    { intros map n1.
      exact (processQueue_orderly n1 (sortByPriority_sorted _)). }
    destruct (throttleKey opts) as [key|]; [|apply Henq].
    destruct (throttled opts); [|apply Henq].
    destruct (now1 - lastSent n key <? throttleMs); [exact Hsame | apply Henq].
  - cbn [step]. destruct (processing n) as [|posting|] eqn:Hp;
      [exact Hsame | | exact Hsame].
    destruct (messageQueue n) as [|q r] eqn:Hq.
    + split; [split; [constructor | reflexivity] | now left].
    + split; [split; [exact Hs | discriminate] | now left].
  - cbn [step]. destruct (processing n) as [|posting|] eqn:Hp;
      [exact Hsame | exact Hsame |].
    destruct (messageQueue n) as [|q r] eqn:Hq.
    + split; [split; [constructor | reflexivity] | now left].
    + inversion Hs as [|? ? Hrest Hall]; subst.
      split; [split; [exact Hrest | discriminate]|].
      right. exists q. repeat split. exact Hall.
Qed.

Lemma run_orderly (evs : list Event) :
  forall n, orderly n -> orderly (run n evs).
Proof.
  induction evs as [|e evs IH]; intros n Hn; [exact Hn|].
  cbn [run fold_left]. apply IH. now apply step_orderly.
Qed.

(** X29: in every state the notifier reaches, the queue is in order of
    priority, highest first, and it is empty whenever no [processQueue]
    is running, so no accepted message is left waiting without a sender;
    and whatever happens next hands at most one item to [sendImmediate],
    one whose priority no item still queued exceeds. *)
Theorem telegram_queue_orderly (evs : list Event) (e : Event) :
  let n := run new evs in
  StronglySorted byPriority (messageQueue n)
  /\ (processing n = Idle -> messageQueue n = [])
  /\ postsHighest n (step n e).
Proof.
  intros n.
  assert (Hn : orderly n).
  { apply run_orderly. split; [constructor | reflexivity]. }
  destruct (step_orderly n e Hn) as [_ Hpost].
  destruct Hn as [Hs Hidle]. split; [exact Hs|]. split; assumption.
Qed.

(** The clock never reads less than [b] in the sends of [evs]. *)
Definition clockFrom (b : Z) (e : Event) : Prop :=
  match e with
  | Send _ _ _ now2 _ => b <= now2
  | _ => True
  end.

Lemma processQueue_map (n : t) : throttleMap (processQueue n) = throttleMap n.
Proof.
  unfold processQueue.
  destruct (processing n); destruct (messageQueue n); reflexivity.
Qed.

Lemma step_lastSent (n : t) (e : Event) (key : string) (b : Z) :
  clockFrom b e -> b <= lastSent n key ->
  Js.get String.eqb key (throttleMap n) <> None ->
  b <= lastSent (step n e) key
  /\ Js.get String.eqb key (throttleMap (step n e)) <> None.
Proof.
  intros Hclock Hb Hsome. destruct e as [text opts now1 now2 now3| |].
  - cbn [step]. unfold send, lastSent in *.
    destruct (throttleKey opts) as [key'|];
      [destruct (throttled opts);
       [destruct (now1 - _ <? throttleMs)|]|];
      rewrite ?processQueue_map; cbn [throttleMap]; try (split; assumption).
    simpl in Hclock. destruct (String.eqb_spec key' key) as [->|Hne].
    + rewrite get_set_same. split; [exact Hclock | discriminate].
    + rewrite get_set_other by exact Hne. split; assumption.
  - cbn [step]. unfold lastSent in *.
    destruct (processing n); try (split; assumption).
    destruct (messageQueue n); cbn [throttleMap]; split; assumption.
  - cbn [step]. unfold lastSent in *.
    destruct (processing n); try (split; assumption).
    destruct (messageQueue n); cbn [throttleMap]; split; assumption.
Qed.

Lemma run_lastSent (evs : list Event) (key : string) (b : Z) :
  forall n,
    Forall (clockFrom b) evs -> b <= lastSent n key ->
    Js.get String.eqb key (throttleMap n) <> None ->
    b <= lastSent (run n evs) key.
Proof.
  induction evs as [|e evs IH]; intros n Hc Hb Hsome; [exact Hb|].
  inversion Hc as [|? ? He Hrest]; subst. cbn [run fold_left].
  destruct (step_lastSent n e key b He Hb Hsome) as [Hb' Hsome'].
  now apply IH.
Qed.

(** X30: the throttle keeps two accepted messages of one key a minute
    apart.  After a throttled message is accepted, a throttled message
    with the same key whose first clock reading is less than 60 seconds
    after the stamp of the accepted one is dropped without a trace,
    whatever was sent, delivered or paused in between, as long as the
    clock did not go back. *)
Theorem telegram_throttle_spacing (n : t) (key : string)
    (text1 : string) (opts1 : SendOptions) (a1 b1 c1 : Z)
    (evs : list Event)
    (text2 : string) (opts2 : SendOptions) (a2 b2 c2 : Z) :
  throttleKey opts1 = Some key -> throttled opts1 = true ->
  throttleKey opts2 = Some key -> throttled opts2 = true ->
  throttleMs <= a1 - lastSent n key ->
  Forall (clockFrom b1) evs ->
  a2 - b1 < throttleMs ->
  let n1 := run (send n text1 opts1 a1 b1 c1) evs in
  send n1 text2 opts2 a2 b2 c2 = n1.
Proof.
  intros Hk1 Ht1 Hk2 Ht2 Hpass Hclock Hclose n1.
  assert (Hmap : throttleMap (send n text1 opts1 a1 b1 c1)
                 = Js.set String.eqb key b1 (throttleMap n)).
  { unfold send. rewrite Hk1, Ht1.
    destruct (Z.ltb_spec (a1 - lastSent n key) throttleMs) as [Hx|_]; [lia|].
    now rewrite processQueue_map. }
  assert (Hstamp : b1 <= lastSent n1 key).
  { apply run_lastSent; [exact Hclock| |].
    - unfold lastSent. rewrite Hmap, get_set_same. lia.
    - rewrite Hmap, get_set_same. discriminate. }
  unfold send at 1. rewrite Hk2, Ht2.
  destruct (Z.ltb_spec (a2 - lastSent n1 key) throttleMs) as [_|Hx];
    [reflexivity | lia].
Qed.

End TelegramProps.

(** A tax report and an alert, and what the notifier goes through when
    both are sent while the first is still being posted. *)
Definition taxReport : Telegram.SendOptions :=
  Telegram.mkOptions (Some "tax_42") (Some 5) None.

Definition stallAlert : Telegram.SendOptions :=
  Telegram.mkOptions None (Some 15) (Some true).

Definition busyNotifier : list Telegram.Event :=
  [Telegram.Send "tax 1" taxReport noon noon noon;
   Telegram.Send "welcome" (Telegram.mkOptions None (Some 8) None) noon noon noon;
   Telegram.Send "stalled" stallAlert noon noon noon;
   Telegram.Delivered].

Lemma telegram_queue_orderly_witness :
  postsHighest (Telegram.run Telegram.new busyNotifier)
    (Telegram.step (Telegram.run Telegram.new busyNotifier) Telegram.TimerFired)
  /\ List.map Telegram.message
       (Telegram.posted
          (Telegram.step (Telegram.run Telegram.new busyNotifier)
                         Telegram.TimerFired))
     = ["tax 1"; "stalled"].
Proof.
  destruct (telegram_queue_orderly busyNotifier Telegram.TimerFired)
    as [_ [_ Hpost]].
  split; [exact Hpost | reflexivity].
Defined.

Lemma telegram_throttle_spacing_witness :
  Telegram.send
    (Telegram.run (Telegram.send Telegram.new "tax 1" taxReport noon noon noon)
                  [Telegram.Delivered])
    "tax 2" taxReport (noon + 59999) (noon + 59999) (noon + 59999)
  = Telegram.run (Telegram.send Telegram.new "tax 1" taxReport noon noon noon)
                 [Telegram.Delivered].
Proof.
  apply (telegram_throttle_spacing Telegram.new "tax_42" "tax 1" taxReport
           noon noon noon [Telegram.Delivered] "tax 2" taxReport);
    try reflexivity.
  - vm_compute. discriminate.
  - repeat constructor.
Defined.
